(** * A buddy page allocator (kernel/buddy_alloc.c)

    The allocator keeps a complete binary tree of [NODES] nodes in one flat
    array, a doubly linked free list per tree level and a spin lock.  The C
    code is embedded as functions of a small state-and-error monad over the
    contents of [buddy_metadata]; pointers into the node array are modelled
    by the index they point at. *)

From Stdlib Require Import ZArith Lia String.
From stdpp Require Import gmap list pretty.

Open Scope Z_scope.

(** ** Constants *)

(** [#define PAGES 512 * 32], [#define NODES (2 * PAGES - 1)] and
    [#define DEPTH 15]. *)
Definition PAGES : Z := 512 * 32.
Definition NODES : Z := 2 * PAGES - 1.
Definition DEPTH : Z := 15.

(** Modelled from the spec: [PGSIZE] and [PGROUNDUP] come from riscv.h, which
    is not part of the sources.  The allocator hands out whole 4096-byte
    pages, and [PGROUNDUP] rounds an address up to the next page boundary. *)
Definition PGSIZE : Z := 4096.
Definition PGROUNDUP (sz : Z) : Z := Z.land (sz + PGSIZE - 1) (Z.lnot (PGSIZE - 1)).

(** The four values of [node.state]. *)
Definition NONEXISTENT : Z := 0.
Definition USED : Z := 1.
Definition INNER : Z := 2.
Definition FREE : Z := 3.

(** ** Data *)

(** A [struct node*]: [None] is the null pointer, [Some i] is
    [&buddy_metadata.nodes[i]]. *)
Abbreviation ptr := (option Z).

Record node : Type := mk_node {
  state : Z;
  id : Z;
  size : Z;
  lvl : Z;
  left_child : ptr;
  right_child : ptr;
  prev : ptr;
  next : ptr;
  parent : ptr;
  neighbour : ptr;
  memory : Z
}.

(** Static storage is zero-initialised. *)
Definition zero_node : node := mk_node 0 0 0 0 None None None None None None 0.

#[export] Instance node_inhabited : Inhabited node := populate zero_node.

(** Modelled from the spec: the lock primitive (spinlock.h is not part of the
    sources) offers init, acquire and release; the model records the calls
    made on the lock, newest first. *)
Inductive lock_op : Type :=
| LockInit (name : string)
| Acquire
| Release.

(** [buddy_metadata], together with what has been written to the console. *)
Record machine : Type := mk_machine {
  lock : list lock_op;
  nodes : gmap Z node;
  lists : gmap Z ptr;
  sizes : gmap Z Z;
  console : list string
}.

Definition empty_machine : machine := mk_machine [] ∅ ∅ ∅ [].

(** Field updates on a node. *)
Definition with_state (v : Z) (n : node) : node :=
  mk_node v (id n) (size n) (lvl n) (left_child n) (right_child n)
          (prev n) (next n) (parent n) (neighbour n) (memory n).
Definition with_id (v : Z) (n : node) : node :=
  mk_node (state n) v (size n) (lvl n) (left_child n) (right_child n)
          (prev n) (next n) (parent n) (neighbour n) (memory n).
Definition with_size (v : Z) (n : node) : node :=
  mk_node (state n) (id n) v (lvl n) (left_child n) (right_child n)
          (prev n) (next n) (parent n) (neighbour n) (memory n).
Definition with_lvl (v : Z) (n : node) : node :=
  mk_node (state n) (id n) (size n) v (left_child n) (right_child n)
          (prev n) (next n) (parent n) (neighbour n) (memory n).
Definition with_left_child (v : ptr) (n : node) : node :=
  mk_node (state n) (id n) (size n) (lvl n) v (right_child n)
          (prev n) (next n) (parent n) (neighbour n) (memory n).
Definition with_right_child (v : ptr) (n : node) : node :=
  mk_node (state n) (id n) (size n) (lvl n) (left_child n) v
          (prev n) (next n) (parent n) (neighbour n) (memory n).
Definition with_prev (v : ptr) (n : node) : node :=
  mk_node (state n) (id n) (size n) (lvl n) (left_child n) (right_child n)
          v (next n) (parent n) (neighbour n) (memory n).
Definition with_next (v : ptr) (n : node) : node :=
  mk_node (state n) (id n) (size n) (lvl n) (left_child n) (right_child n)
          (prev n) v (parent n) (neighbour n) (memory n).
Definition with_parent (v : ptr) (n : node) : node :=
  mk_node (state n) (id n) (size n) (lvl n) (left_child n) (right_child n)
          (prev n) (next n) v (neighbour n) (memory n).
Definition with_neighbour (v : ptr) (n : node) : node :=
  mk_node (state n) (id n) (size n) (lvl n) (left_child n) (right_child n)
          (prev n) (next n) (parent n) v (memory n).
Definition with_memory (v : Z) (n : node) : node :=
  mk_node (state n) (id n) (size n) (lvl n) (left_child n) (right_child n)
          (prev n) (next n) (parent n) (neighbour n) v.

(** Updates of the machine. *)
Definition nd (m : machine) (i : Z) : node := nodes m !!! i.

Definition upd_node (i : Z) (f : node -> node) (m : machine) : machine :=
  mk_machine (lock m) (<[i := f (nd m i)]> (nodes m)) (lists m) (sizes m) (console m).
Definition set_list (l : Z) (p : ptr) (m : machine) : machine :=
  mk_machine (lock m) (nodes m) (<[l := p]> (lists m)) (sizes m) (console m).
Definition set_size (l : Z) (v : Z) (m : machine) : machine :=
  mk_machine (lock m) (nodes m) (lists m) (<[l := v]> (sizes m)) (console m).
Definition log_lock (o : lock_op) (m : machine) : machine :=
  mk_machine (o :: lock m) (nodes m) (lists m) (sizes m) (console m).
Definition log_console (s : string) (m : machine) : machine :=
  mk_machine (lock m) (nodes m) (lists m) (sizes m) (s :: console m).

(** ** The monad of the embedding *)

(** A call returns normally, stops in [panic], runs into undefined behaviour
    (a null pointer is dereferenced or an array is indexed out of bounds), or
    exhausts the fuel of one of its loops. *)
Inductive outcome (A : Type) : Type :=
| Done (a : A) (m : machine)
| Panic (msg : string) (m : machine)
| Fault
| Timeout.
Arguments Done {A} a m.
Arguments Panic {A} msg m.
Arguments Fault {A}.
Arguments Timeout {A}.

Definition M (A : Type) : Type := machine -> outcome A.

Definition ret {A : Type} (a : A) : M A := fun m => Done a m.
Definition bind {A B : Type} (c : M A) (k : A -> M B) : M B :=
  fun m => match c m with
           | Done a m' => k a m'
           | Panic msg m' => Panic msg m'
           | Fault => Fault
           | Timeout => Timeout
           end.
Definition panic {A : Type} (msg : string) : M A := fun m => Panic msg m.
Definition fault {A : Type} : M A := fun _ => Fault.
Definition timeout {A : Type} : M A := fun _ => Timeout.

Notation "x <- c ;; k" := (bind c (fun x => k))
  (at level 100, c at next level, right associativity).
Notation "c ;; k" := (bind c (fun _ => k))
  (at level 100, right associativity).

Definition in_range (i n : Z) : bool := (0 <=? i) && (i <? n).

(** [p->f] and [p->f = v] for a node pointer [p]. *)
Definition load {A : Type} (f : node -> A) (p : ptr) : M A :=
  fun m => match p with
           | Some i => if in_range i NODES then Done (f (nd m i)) m else Fault
           | None => Fault
           end.
Definition store (f : node -> node) (p : ptr) : M unit :=
  fun m => match p with
           | Some i => if in_range i NODES then Done tt (upd_node i f m) else Fault
           | None => Fault
           end.

(** [buddy_metadata.lists[l]] and [buddy_metadata.sizes[l]]. *)
Definition load_list (l : Z) : M ptr :=
  fun m => if in_range l DEPTH then Done (lists m !!! l) m else Fault.
Definition store_list (l : Z) (p : ptr) : M unit :=
  fun m => if in_range l DEPTH then Done tt (set_list l p m) else Fault.
Definition load_size (l : Z) : M Z :=
  fun m => if in_range l DEPTH then Done (sizes m !!! l) m else Fault.
Definition store_size (l : Z) (v : Z) : M unit :=
  fun m => if in_range l DEPTH then Done tt (set_size l v m) else Fault.

Definition initlock (name : string) : M unit := fun m => Done tt (log_lock (LockInit name) m).
Definition acquire : M unit := fun m => Done tt (log_lock Acquire m).
Definition release : M unit := fun m => Done tt (log_lock Release m).
Definition printf (s : string) : M unit := fun m => Done tt (log_console s m).

(** [for (i = start; ...; ++i) body], for a known number of rounds. *)
Fixpoint for_ (rounds : nat) (i : Z) (body : Z -> M unit) : M unit :=
  match rounds with
  | O => ret tt
  | S r => body i ;; for_ r (i + 1) body
  end.

(** Fuel of the [while] loops; none of them runs longer than the tree is
    deep, or than an [int] has bits. *)
Definition FUEL : nat := 64.

(** ** The allocator *)

(** [add_free_node]: push a node on the free list of its level. *)
Definition add_free_node (n : ptr) : M unit :=
  l <- load lvl n ;;
  c <- load_size l ;;
  store_size l (c + 1) ;;
  l <- load lvl n ;;
  h <- load_list l ;;
  store (with_next h) n ;;
  l <- load lvl n ;;
  store_list l n ;;
  store (with_prev None) n ;;
  nx <- load next n ;;
  match nx with
  | Some _ => store (with_prev n) nx
  | None => ret tt
  end.

(** The statements that take a node out of the list of its level; the source
    has them twice, for [current_node->neighbour] in [buddy_free] and for
    [current_node] in [buddy_alloc]. *)
Definition unlink (n : ptr) : M unit :=
  pv <- load prev n ;;
  (match pv with
   | Some _ => nx <- load next n ;; store (with_next nx) pv
   | None => l <- load lvl n ;; nx <- load next n ;; store_list l nx
   end) ;;
  nx <- load next n ;;
  (match nx with
   | Some _ => pv <- load prev n ;; store (with_prev pv) nx
   | None => ret tt
   end) ;;
  l <- load lvl n ;;
  c <- load_size l ;;
  store_size l (c - 1) ;;
  store (with_prev None) n ;;
  store (with_next None) n.

(** ** The shape of the tree *)

(** Node [i] of the heap-indexed tree has its children at [2i+1] and [2i+2];
    the nodes below [HALF] are the ones that have children. *)
Definition valid (i : Z) : Prop := 0 <= i < NODES.
Definition HALF : Z := 16383.

Definition lvl_of (i : Z) : Z := DEPTH - 1 - Z.log2 (i + 1).
Definition size_of (i : Z) : Z := 2 ^ lvl_of i.
(** Offset of the block of node [i] in the arena, in pages. *)
Definition offset_of (i : Z) : Z := (i + 1 - 2 ^ Z.log2 (i + 1)) * size_of i.
Definition parent_of (i : Z) : Z := (i - 1) / 2.
Definition nb_of (i : Z) : Z := if Z.odd i then i + 1 else i - 1.

(** [desc c u]: node [u] lies in the subtree of node [c]. *)
Inductive desc : Z -> Z -> Prop :=
| desc_refl c : desc c c
| desc_left c u : desc (2 * c + 1) u -> desc c u
| desc_right c u : desc (2 * c + 2) u -> desc c u.

(** What a call leaves behind and what it returns, for naming the states of
    a run. *)
Definition run {A : Type} (c : M A) (m : machine) : machine :=
  match c m with
  | Done _ m' => m'
  | Panic _ m' => m'
  | _ => m
  end.

Definition result {A : Type} (d : A) (c : M A) (m : machine) : A :=
  match c m with
  | Done a _ => a
  | _ => d
  end.

(** The conditions under which [buddy_alloc] gives up: on [n] alone, with the
    largest block [cap] it serves, and on the counts of the levels. *)
Definition refused (cap n : Z) : Prop :=
  n <= 0 \/ cap < n \/ forall k, 0 <= k -> n <> 2 ^ k.

Definition exhausted (m : machine) (n : Z) : Prop :=
  forall l, Z.log2 n <= l < DEPTH -> sizes m !!! l <= 0.

(** A memory layout of the kind xv6 has on qemu's virt board: the kernel image
    ends at [sample_end], physical memory at [sample_PHYSTOP]. *)
Definition sample_end : Z := 0x80265123.
Definition sample_PHYSTOP : Z := 0x88000000.

Section Allocator.

(** [extern char end[]] and [PHYSTOP] (memlayout.h) are fixed by the kernel's
    memory layout. *)
Variable end_ : Z.
Variable PHYSTOP : Z.

(** One round of the second loop of [buddy_init]. *)
Definition init_node (i : Z) : M unit :=
  let current_node := Some i in
  let parent_node := Some (Z.quot (i - 1) 2) in
  store (with_state 0) current_node ;;
  store (with_id i) current_node ;;
  pl <- load lvl parent_node ;;
  store (with_lvl (pl - 1)) current_node ;;
  ps <- load size parent_node ;;
  store (with_size (Z.quot ps 2)) current_node ;;
  (if i <? Z.quot NODES 2
   then store (with_left_child (Some (2 * i + 1))) current_node ;;
        store (with_right_child (Some (2 * i + 2))) current_node
   else store (with_left_child None) current_node ;;
        store (with_right_child None) current_node) ;;
  store (with_prev None) current_node ;;
  store (with_next None) current_node ;;
  store (with_parent parent_node) current_node ;;
  (if Z.rem i 2 =? 1
   then store (with_neighbour (Some (i + 1))) current_node
   else store (with_neighbour (Some (i - 1))) current_node) ;;
  (if Z.rem i 2 =? 1
   then pm <- load memory parent_node ;;
        store (with_memory pm) current_node
   else pm <- load memory parent_node ;;
        sz <- load size current_node ;;
        store (with_memory (pm + sz * PGSIZE)) current_node).

Definition buddy_init : M unit :=
  initlock "buddy_mem" ;;
  for_ (Z.to_nat DEPTH) 0 (fun idx => store_list idx None ;; store_size idx 0) ;;
  let current_node := Some 0 in
  store (with_state 3) current_node ;;
  store (with_id 0) current_node ;;
  store (with_size PAGES) current_node ;;
  store (with_lvl (DEPTH - 1)) current_node ;;
  store (with_left_child (Some 1)) current_node ;;
  store (with_right_child (Some 2)) current_node ;;
  store (with_prev None) current_node ;;
  store (with_next None) current_node ;;
  store (with_parent current_node) current_node ;;
  store (with_neighbour current_node) current_node ;;
  store (with_memory (PGROUNDUP end_)) current_node ;;
  add_free_node (Some 0) ;;
  for_ (Z.to_nat (NODES - 1)) 1 init_node.

(** The descent of [buddy_free] from the root to the node that starts at
    [pa]. *)
Fixpoint descend (fuel : nat) (pa : Z) (current_node : ptr) : M ptr :=
  match fuel with
  | O => timeout
  | S f =>
      s <- load state current_node ;;
      if s =? 2 then
        rc <- load right_child current_node ;;
        rm <- load memory rc ;;
        if rm >? pa
        then lc <- load left_child current_node ;; descend f pa lc
        else rc <- load right_child current_node ;; descend f pa rc
      else ret current_node
  end.

(** The coalescing loop of [buddy_free]. *)
Fixpoint coalesce (fuel : nat) (current_node : ptr) : M ptr :=
  match fuel with
  | O => timeout
  | S f =>
      i <- load id current_node ;;
      if i =? 0 then ret current_node
      else
        nb <- load neighbour current_node ;;
        ns <- load state nb ;;
        if ns =? 3 then
          store (with_state 0) current_node ;;
          nb <- load neighbour current_node ;;
          store (with_state 0) nb ;;
          nb <- load neighbour current_node ;;
          unlink nb ;;
          p <- load parent current_node ;;
          coalesce f p
        else ret current_node
  end.

Definition buddy_free (pa : Z) : M unit :=
  if (pa =? 0) || negb (pa mod PGSIZE =? 0) || (pa <? end_) || (pa >=? PHYSTOP)
  then panic "buddy_free"
  else
    acquire ;;
    current_node <- descend FUEL pa (Some 0) ;;
    s <- load state current_node ;;
    mem <- load memory current_node ;;
    if negb (s =? 1) || negb (mem =? pa)
    then panic "buddy_free"
    else
      i <- load id current_node ;;
      if i =? 0 then
        add_free_node current_node ;;
        store (with_state 3) current_node ;;
        release
      else
        current_node <- coalesce FUEL current_node ;;
        add_free_node current_node ;;
        store (with_state 3) current_node ;;
        release.

(** [while (pow2 < n) { pow2 *= 2; lvl++; }] *)
Fixpoint round_up (fuel : nat) (n pow2 level : Z) : option (Z * Z) :=
  match fuel with
  | O => None
  | S f => if pow2 <? n then round_up f n (pow2 * 2) (level + 1) else Some (pow2, level)
  end.

(** [for (idx = lvl; idx < DEPTH; ++idx) if (sizes[idx] > 0) { split_lvl = idx; break; }]
    with [split_lvl] starting at -1. *)
Fixpoint scan (rounds : nat) (idx : Z) : M Z :=
  match rounds with
  | O => ret (-1)
  | S r =>
      c <- load_size idx ;;
      if c >? 0 then ret idx else scan r (idx + 1)
  end.

(** The splitting loop of [buddy_alloc]. *)
Fixpoint split (fuel : nat) (level : Z) (current_node : ptr) : M ptr :=
  match fuel with
  | O => timeout
  | S f =>
      cl <- load lvl current_node ;;
      if cl >? level then
        store (with_state 2) current_node ;;
        rc <- load right_child current_node ;;
        add_free_node rc ;;
        rc <- load right_child current_node ;;
        store (with_state 3) rc ;;
        lc <- load left_child current_node ;;
        split f level lc
      else ret current_node
  end.

(** [buddy_alloc] returns an address, 0 for the null pointer. *)
Definition buddy_alloc (n : Z) : M Z :=
  if (n <=? 0) || (n >? 512) then ret 0
  else
    match round_up FUEL n 1 0 with
    | None => timeout
    | Some (pow2, level) =>
        if negb (n =? pow2) then ret 0
        else
          acquire ;;
          split_lvl <- scan (Z.to_nat (DEPTH - level)) level ;;
          if split_lvl =? -1 then
            printf "cannot find a free node for allocation!" ;;
            release ;;
            ret 0
          else
            current_node <- load_list split_lvl ;;
            unlink current_node ;;
            current_node <- split FUEL level current_node ;;
            store (with_state 1) current_node ;;
            release ;;
            load memory current_node
    end.


(** ** The layout that [buddy_init] builds *)

(** Address of the block of node [i]. *)
Definition mem_of (i : Z) : Z := PGROUNDUP end_ + offset_of i * PGSIZE.

(** The fields of a node that only [buddy_init] writes. *)
Definition skel (n : node) : Z * Z * Z * ptr * ptr * ptr * ptr * Z :=
  (id n, size n, lvl n, left_child n, right_child n, parent n, neighbour n, memory n).

Definition skel_of (i : Z) : Z * Z * Z * ptr * ptr * ptr * ptr * Z :=
  (i, size_of i, lvl_of i,
   (if i <? HALF then Some (2 * i + 1) else None),
   (if i <? HALF then Some (2 * i + 2) else None),
   Some (if i =? 0 then 0 else parent_of i),
   Some (if i =? 0 then 0 else nb_of i),
   mem_of i).

Definition shaped (m : machine) : Prop :=
  forall i, valid i -> skel (nd m i) = skel_of i.

Definition states (m : machine) : Z -> Z := fun i => state (nd m i).

(** ** Free lists and the decomposition of the arena *)

Definition upd {A : Type} (f : Z -> A) (k : Z) (v : A) : Z -> A :=
  fun x => if decide (x = k) then v else f x.

(** [L] is a chain of nodes linked by [next] and, backwards, by [prev]; the
    first node's [prev] is [pv] and the last node's [next] is null. *)
Fixpoint dll (m : machine) (pv : ptr) (L : list Z) : Prop :=
  match L with
  | [] => True
  | i :: L' => prev (nd m i) = pv /\ next (nd m i) = head L' /\ dll m (Some i) L'
  end.

(** [fl l] is the list that hangs off [lists[l]], and [sizes[l]] counts it;
    a node that is on no list has null links. *)
Definition linked (m : machine) (fl : Z -> list Z) : Prop :=
  (forall l, 0 <= l < DEPTH ->
     lists m !!! l = head (fl l) /\ dll m None (fl l) /\
     sizes m !!! l = Z.of_nat (length (fl l)) /\ NoDup (fl l) /\
     (forall i, i ∈ fl l -> valid i /\ lvl_of i = l)) /\
  (forall j, valid j -> j ∉ fl (lvl_of j) ->
     prev (nd m j) = None /\ next (nd m j) = None).

(** The node states cut the arena into blocks: a node exists exactly when its
    parent has been split, two free buddies never coexist, and the free lists
    hold the free nodes of their level. *)
Record tree_inv (s : Z -> Z) (fl : Z -> list Z) : Prop := mk_tree_inv {
  ti_root : s 0 <> NONEXISTENT;
  ti_left : forall p, 0 <= p < HALF -> (s p = INNER <-> s (2 * p + 1) <> NONEXISTENT);
  ti_right : forall p, 0 <= p < HALF -> (s p = INNER <-> s (2 * p + 2) <> NONEXISTENT);
  ti_leaf : forall i, HALF <= i < NODES -> s i <> INNER;
  ti_buddy : forall p, 0 <= p < HALF -> ~ (s (2 * p + 1) = FREE /\ s (2 * p + 2) = FREE);
  ti_free : forall l i, 0 <= l < DEPTH ->
              (i ∈ fl l <-> valid i /\ s i = FREE /\ lvl_of i = l)
}.

(** [buddy_alloc] serves at most 512 pages, that is level 9. *)
Definition capped (s : Z -> Z) : Prop :=
  forall i, valid i -> s i = USED -> lvl_of i <= 9.

(** The free list of a level, read off the machine by following [next]. *)
Fixpoint walk (fuel : nat) (m : machine) (p : ptr) : list Z :=
  match fuel, p with
  | S f, Some i => i :: walk f m (next (nd m i))
  | _, _ => []
  end.

Definition free_list (m : machine) (l : Z) : list Z :=
  walk (Z.to_nat NODES) m (lists m !!! l).

(** ** The algorithms, as the specification words them *)

(** The specification speaks of node states and of one list of free nodes per
    level; children of node [i] are [2i+1] (left) and [2i+2] (right), its
    parent is [(i-1)/2] and its buddy is the other child of its parent. *)
Record astate : Type := mk_astate {
  a_state : Z -> Z;
  a_free : Z -> list Z
}.

(** The machine [m] holds the abstract state [a]. *)
Definition holds (m : machine) (a : astate) : Prop :=
  (forall i, states m i = a_state a i) /\ linked m (a_free a).

(** "While the current node's level exceeds [lvl]: mark it INNER, mark its
    right child FREE and insert the right child onto its level's free list,
    then descend into the left child.  When level equals [lvl]: mark that
    node USED."  [k] is the number of levels to go down. *)
Fixpoint spec_split (k : nat) (c : Z) (a : astate) : astate * Z :=
  match k with
  | O => (mk_astate (upd (a_state a) c USED) (a_free a), c)
  | S k' =>
      let r := 2 * c + 2 in
      spec_split k' (2 * c + 1)
        (mk_astate (upd (upd (a_state a) c INNER) r FREE)
                   (upd (a_free a) (lvl_of r) (r :: a_free a (lvl_of r))))
  end.

(** "Descends from the root while the current node's state is INNER, choosing
    the left child if the right child's memory lies strictly above the
    argument, otherwise the right child." *)
Fixpoint spec_locate (k : nat) (pa : Z) (c : Z) (s : Z -> Z) : Z :=
  match k with
  | O => c
  | S k' =>
      if decide (s c = INNER) then
        if decide (pa < mem_of (2 * c + 2))
        then spec_locate k' pa (2 * c + 1) s
        else spec_locate k' pa (2 * c + 2) s
      else c
  end.

(** "While the current node is not the root and its buddy is FREE: mark both
    the current node and its buddy NONEXISTENT; unlink the buddy from its free
    list; ascend to the parent." *)
Fixpoint spec_coalesce (k : nat) (c : Z) (a : astate) : astate * Z :=
  match k with
  | O => (a, c)
  | S k' =>
      let b := nb_of c in
      if decide (c <> 0 /\ a_state a b = FREE) then
        spec_coalesce k' (parent_of c)
          (mk_astate (upd (upd (a_state a) c NONEXISTENT) b NONEXISTENT)
                     (upd (a_free a) (lvl_of b) (filter (fun x => x <> b) (a_free a (lvl_of b)))))
      else (a, c)
  end.

(** "When the loop ends, mark the resulting ancestor FREE and insert it into
    the free list at its level." *)
Definition spec_release (c : Z) (a : astate) : astate :=
  mk_astate (upd (a_state a) c FREE)
            (upd (a_free a) (lvl_of c) (c :: a_free a (lvl_of c))).

(** "Scans levels [lvl], [lvl+1], ... for the smallest level whose free-list
    count is positive." *)
Fixpoint spec_find (k : nat) (l : Z) (a : astate) : option Z :=
  match k with
  | O => None
  | S k' =>
      match a_free a l with
      | [] => spec_find k' (l + 1) a
      | _ :: _ => Some l
      end
  end.

(** "Removes the head of the free list at [split_lvl]", then splits down to
    the target level; [None] when no level has a free node. *)
Definition spec_alloc (level : Z) (a : astate) : option (astate * Z) :=
  match spec_find (Z.to_nat (DEPTH - level)) level a with
  | None => None
  | Some sl =>
      match a_free a sl with
      | [] => None
      | c0 :: rest =>
          Some (spec_split (Z.to_nat (sl - level)) c0
                  (mk_astate (a_state a) (upd (a_free a) sl rest)))
      end
  end.

(** The addresses that [buddy_free] refuses before taking the lock. *)
Definition bad_address (pa : Z) : bool :=
  (pa =? 0) || negb (pa mod PGSIZE =? 0) || (pa <? end_) || (pa >=? PHYSTOP).

(** [free] as the specification words it; [None] stands for the fatal
    error. *)
Definition spec_free (pa : Z) (a : astate) : option astate :=
  let c := spec_locate FUEL pa 0 (a_state a) in
  if decide (a_state a c = USED /\ mem_of c = pa)
  then Some (spec_release (spec_coalesce FUEL c a).2 (spec_coalesce FUEL c a).1)
  else None.

(** ** Executions *)

(** [reach m out]: the machine is in state [m] after [buddy_init] and a
    sequence of calls of [buddy_alloc] and [buddy_free] that returned; [out]
    lists the outstanding allocations, the address that [buddy_alloc]
    returned with the size that was asked for. *)
Inductive reach : machine -> list (Z * Z) -> Prop :=
| reach_init m0 m :
    buddy_init m0 = Done tt m -> reach m []
| reach_alloc m out n a m' :
    reach m out -> buddy_alloc n m = Done a m' -> a <> 0 ->
    reach m' ((a, n) :: out)
| reach_alloc_null m out n m' :
    reach m out -> buddy_alloc n m = Done 0 m' ->
    reach m' out
| reach_free m out pa m' :
    reach m out -> buddy_free pa m = Done tt m' ->
    reach m' (filter (fun e => e.1 <> pa) out).

(** Every outstanding allocation is a used node of the tree. *)
Definition tracked (s : Z -> Z) (out : list (Z * Z)) : Prop :=
  NoDup (out.*1) /\
  forall a n, (a, n) ∈ out ->
    a <> 0 /\ exists u, valid u /\ s u = USED /\ mem_of u = a /\ size_of u = n.

(** The invariant of the allocator. *)
Definition good (m : machine) (out : list (Z * Z)) : Prop :=
  shaped m /\
  exists fl, linked m fl /\ tree_inv (states m) fl /\
             capped (states m) /\ tracked (states m) out.

(** ** A short run

    The machine after [buddy_init] on zeroed memory, then after a request of
    one page, then after a second one. *)
Definition boot : machine := run buddy_init empty_machine.
Definition page1 : Z := result 0 (buddy_alloc 1) boot.
Definition after1 : machine := run (buddy_alloc 1) boot.
Definition page2 : Z := result 0 (buddy_alloc 1) after1.
Definition after2 : machine := run (buddy_alloc 1) after1.

(** ** Nodes in use and outstanding allocations *)

(** Every node in use is the block of an outstanding allocation. *)
Definition accounted (s : Z -> Z) (out : list (Z * Z)) : Prop :=
  forall u, valid u -> s u = USED -> (mem_of u, size_of u) ∈ out.

(** ** Free pages *)

(** The pages on the free lists of the levels below [k], as [print_cur_info]
    adds them up: [free += (buddy_metadata.sizes[i] << i)]. *)
Fixpoint free_pages_upto (k : nat) (sz : Z -> Z) : Z :=
  match k with
  | O => 0
  | S k' => free_pages_upto k' sz + Z.shiftl (sz (Z.of_nat k')) (Z.of_nat k')
  end.

Definition free_pages (m : machine) : Z :=
  free_pages_upto (Z.to_nat DEPTH) (fun l => sizes m !!! l).

(** The same sum over the lists of an abstract state. *)
Definition free_in (fl : Z -> list Z) : Z :=
  free_pages_upto (Z.to_nat DEPTH) (fun l => Z.of_nat (length (fl l))).

(** The pages of the outstanding allocations. *)
Definition pages_out (out : list (Z * Z)) : Z :=
  foldr (fun e acc => e.2 + acc) 0 out.

(** ** [print_cur_info] *)

(** The first loop of [print_cur_info], over the levels 0 to 9: it copies the
    counts into the local array [sizes] (here [loc]) and adds the pages of
    each level to the local [free]. *)
Fixpoint low_levels (rounds : nat) (i : Z) (loc : Z -> Z) (free : Z)
  : M ((Z -> Z) * Z) :=
  match rounds with
  | O => ret (loc, free)
  | S r =>
      s <- load_size i ;;
      let loc := upd loc i s in
      s <- load_size i ;;
      low_levels r (i + 1) loc (free + Z.shiftl s i)
  end.

(** The second loop, over the levels 10 to [DEPTH - 1]: it adds their blocks
    to [sizes[9]], counted in blocks of level 9. *)
Fixpoint high_levels (rounds : nat) (i : Z) (loc : Z -> Z) (free : Z)
  : M ((Z -> Z) * Z) :=
  match rounds with
  | O => ret (loc, free)
  | S r =>
      s <- load_size i ;;
      let loc := upd loc 9 (loc 9 + Z.shiftl s (i - 9)) in
      s <- load_size i ;;
      high_levels r (i + 1) loc (free + Z.shiftl s i)
  end.

(** [print_cur_info]; [junk] is what the local array [sizes] holds before it
    is written.  A [%d] of [printf] is filled in with the decimal digits of
    its argument, and the console records the text of each call, a final
    newline left out. *)
Definition print_cur_info (junk : Z -> Z) : M unit :=
  r <- low_levels 10 0 junk 0 ;;
  r <- high_levels (Z.to_nat (DEPTH - 10)) 10 r.1 r.2 ;;
  printf ("used = " +:+ pretty (PAGES - r.2) +:+ ", free = " +:+ pretty r.2
          +:+ ", sizes: ") ;;
  for_ 9 0 (fun i => printf (pretty (r.1 i) +:+ ", ")) ;;
  printf (pretty (r.1 9)).

(** What the second loop adds to [sizes[9]]: the blocks of the levels from
    [i] up, [rounds] of them, counted in blocks of level 9. *)
Fixpoint top_blocks (rounds : nat) (i : Z) (sz : Z -> Z) : Z :=
  match rounds with
  | O => 0
  | S r => Z.shiftl (sz i) (i - 9) + top_blocks r (i + 1) sz
  end.

(** The short run, continued: the first page is given back. *)
Definition freed1 : machine := run (buddy_free page1) after1.

(** [buddy_init] called again, on the machine that has a page in use. *)
Definition reboot : machine := run buddy_init after1.
(** * Properties *)

Lemma FUEL_eq : FUEL = 64%nat.
Proof. reflexivity. Qed.

#[global] Opaque FUEL.

Ltac fuel_lia := pose proof FUEL_eq; unfold DEPTH in *; lia.

(** ** Arithmetic of the tree *)

Lemma HALF_eq : HALF = Z.quot NODES 2.
Proof. reflexivity. Qed.

Lemma lvl_of_left p : 0 <= p -> lvl_of (2 * p + 1) = lvl_of p - 1.
Proof.
  intros Hp. unfold lvl_of.
  replace (2 * p + 1 + 1) with (2 * (p + 1)) by lia.
  rewrite Z.log2_double by lia. lia.
Qed.

Lemma lvl_of_right p : 0 <= p -> lvl_of (2 * p + 2) = lvl_of p - 1.
Proof.
  intros Hp. unfold lvl_of.
  replace (2 * p + 2 + 1) with (2 * (p + 1) + 1) by lia.
  rewrite Z.log2_succ_double by lia. lia.
Qed.

Lemma lvl_of_root : lvl_of 0 = DEPTH - 1.
Proof. reflexivity. Qed.

Lemma lvl_of_range i : valid i -> 0 <= lvl_of i <= DEPTH - 1.
Proof.
  unfold valid, NODES, PAGES, lvl_of, DEPTH. intros Hi.
  assert (0 <= Z.log2 (i + 1)) by apply Z.log2_nonneg.
  assert (Z.log2 (i + 1) < 15); [| lia].
  apply Z.log2_lt_pow2; lia.
Qed.

Lemma lvl_of_pos i : valid i -> (0 < lvl_of i <-> i < HALF).
Proof.
  unfold valid, NODES, PAGES, lvl_of, DEPTH, HALF. intros Hi.
  assert (Z.log2 (i + 1) < 14 <-> i + 1 < 2 ^ 14) as Hlog
    by (symmetry; apply Z.log2_lt_pow2; lia).
  change (2 ^ 14) with 16384 in Hlog. lia.
Qed.

Lemma size_of_pos i : valid i -> 0 < size_of i.
Proof.
  intros Hi. unfold size_of. apply Z.pow_pos_nonneg; [lia|].
  apply lvl_of_range in Hi. lia.
Qed.

Lemma size_of_parent p c :
  valid c -> lvl_of c = lvl_of p - 1 -> size_of p = 2 * size_of c.
Proof.
  intros Hc Hl. unfold size_of.
  apply lvl_of_range in Hc.
  replace (lvl_of p) with (Z.succ (lvl_of c)) by lia.
  rewrite Z.pow_succ_r by lia. reflexivity.
Qed.

Lemma offset_of_left p : 0 <= p -> valid (2 * p + 1) -> offset_of (2 * p + 1) = offset_of p.
Proof.
  intros Hp Hv. unfold offset_of.
  rewrite (size_of_parent p (2 * p + 1)) by auto using lvl_of_left.
  replace (2 * p + 1 + 1) with (2 * (p + 1)) by lia.
  rewrite Z.log2_double by lia.
  rewrite Z.pow_succ_r by apply Z.log2_nonneg. lia.
Qed.

Lemma offset_of_right p :
  0 <= p -> valid (2 * p + 2) ->
  offset_of (2 * p + 2) = offset_of p + size_of (2 * p + 2).
Proof.
  intros Hp Hv. unfold offset_of.
  rewrite (size_of_parent p (2 * p + 2)) by auto using lvl_of_right.
  replace (2 * p + 2 + 1) with (2 * (p + 1) + 1) by lia.
  rewrite Z.log2_succ_double by lia.
  rewrite Z.pow_succ_r by apply Z.log2_nonneg. lia.
Qed.

Lemma offset_of_root : offset_of 0 = 0.
Proof. reflexivity. Qed.

Lemma size_of_root : size_of 0 = PAGES.
Proof. reflexivity. Qed.

(** ** Running the monad *)

Lemma in_range_true i n : 0 <= i < n -> in_range i n = true.
Proof. unfold in_range. intros. apply andb_true_iff. lia. Qed.

Lemma in_range_false i n : ~ 0 <= i < n -> in_range i n = false.
Proof. unfold in_range. intros. apply andb_false_iff. lia. Qed.

Lemma load_ok {A} (f : node -> A) i m : valid i -> load f (Some i) m = Done (f (nd m i)) m.
Proof. intros Hi. unfold load. by rewrite in_range_true. Qed.

Lemma store_ok f i m : valid i -> store f (Some i) m = Done tt (upd_node i f m).
Proof. intros Hi. unfold store. by rewrite in_range_true. Qed.

Lemma load_list_ok l m : 0 <= l < DEPTH -> load_list l m = Done (lists m !!! l) m.
Proof. intros Hl. unfold load_list. by rewrite in_range_true. Qed.

Lemma store_list_ok l p m : 0 <= l < DEPTH -> store_list l p m = Done tt (set_list l p m).
Proof. intros Hl. unfold store_list. by rewrite in_range_true. Qed.

Lemma load_size_ok l m : 0 <= l < DEPTH -> load_size l m = Done (sizes m !!! l) m.
Proof. intros Hl. unfold load_size. by rewrite in_range_true. Qed.

Lemma store_size_ok l v m : 0 <= l < DEPTH -> store_size l v m = Done tt (set_size l v m).
Proof. intros Hl. unfold store_size. by rewrite in_range_true. Qed.

Lemma bind_done {A B} (c : M A) (k : A -> M B) m a m' :
  c m = Done a m' -> bind c k m = k a m'.
Proof. intros H. unfold bind. by rewrite H. Qed.

Lemma bind_ret {A B} (a : A) (k : A -> M B) m : bind (ret a) k m = k a m.
Proof. reflexivity. Qed.

(** Reading the machine after an update. *)
Lemma nd_upd_node i f m j :
  nd (upd_node i f m) j = if decide (j = i) then f (nd m i) else nd m j.
Proof.
  unfold nd, upd_node; simpl. case_decide as Hd.
  - subst. by rewrite lookup_total_insert_eq.
  - by rewrite lookup_total_insert_ne.
Qed.

Lemma nd_upd_node_eq i f m : nd (upd_node i f m) i = f (nd m i).
Proof. rewrite nd_upd_node. by rewrite decide_True. Qed.

Lemma nd_upd_node_ne i f m j : j <> i -> nd (upd_node i f m) j = nd m j.
Proof. intros. rewrite nd_upd_node. by rewrite decide_False. Qed.

Lemma nd_set_list l p m j : nd (set_list l p m) j = nd m j.
Proof. reflexivity. Qed.
Lemma nd_set_size l v m j : nd (set_size l v m) j = nd m j.
Proof. reflexivity. Qed.
Lemma nd_log_lock o m j : nd (log_lock o m) j = nd m j.
Proof. reflexivity. Qed.
Lemma nd_log_console s m j : nd (log_console s m) j = nd m j.
Proof. reflexivity. Qed.

Lemma lists_upd_node i f m : lists (upd_node i f m) = lists m.
Proof. reflexivity. Qed.
Lemma lists_set_list l p m : lists (set_list l p m) = <[l := p]> (lists m).
Proof. reflexivity. Qed.
Lemma lists_set_size l v m : lists (set_size l v m) = lists m.
Proof. reflexivity. Qed.
Lemma lists_log_lock o m : lists (log_lock o m) = lists m.
Proof. reflexivity. Qed.
Lemma lists_log_console s m : lists (log_console s m) = lists m.
Proof. reflexivity. Qed.

Lemma sizes_upd_node i f m : sizes (upd_node i f m) = sizes m.
Proof. reflexivity. Qed.
Lemma sizes_set_list l p m : sizes (set_list l p m) = sizes m.
Proof. reflexivity. Qed.
Lemma sizes_set_size l v m : sizes (set_size l v m) = <[l := v]> (sizes m).
Proof. reflexivity. Qed.
Lemma sizes_log_lock o m : sizes (log_lock o m) = sizes m.
Proof. reflexivity. Qed.
Lemma sizes_log_console s m : sizes (log_console s m) = sizes m.
Proof. reflexivity. Qed.

Lemma lock_upd_node i f m : lock (upd_node i f m) = lock m.
Proof. reflexivity. Qed.
Lemma lock_set_list l p m : lock (set_list l p m) = lock m.
Proof. reflexivity. Qed.
Lemma lock_set_size l v m : lock (set_size l v m) = lock m.
Proof. reflexivity. Qed.
Lemma console_upd_node i f m : console (upd_node i f m) = console m.
Proof. reflexivity. Qed.
Lemma console_set_list l p m : console (set_list l p m) = console m.
Proof. reflexivity. Qed.
Lemma console_set_size l v m : console (set_size l v m) = console m.
Proof. reflexivity. Qed.

Lemma lock_log_lock o m : lock (log_lock o m) = o :: lock m.
Proof. reflexivity. Qed.
Lemma lock_log_console s m : lock (log_console s m) = lock m.
Proof. reflexivity. Qed.
Lemma console_log_lock o m : console (log_lock o m) = console m.
Proof. reflexivity. Qed.
Lemma console_log_console s m : console (log_console s m) = s :: console m.
Proof. reflexivity. Qed.

Create Rewrite HintDb mach.
#[local] Hint Rewrite lock_log_lock lock_log_console console_log_lock console_log_console : mach.
#[local] Hint Rewrite nd_set_list nd_set_size nd_log_lock nd_log_console
  lists_upd_node lists_set_list lists_set_size lists_log_lock lists_log_console
  sizes_upd_node sizes_set_list sizes_set_size sizes_log_lock sizes_log_console
  lock_upd_node lock_set_list lock_set_size
  console_upd_node console_set_list console_set_size
  nd_upd_node_eq : mach.

Ltac fields :=
  cbn [state id size lvl left_child right_child prev next parent neighbour memory
       with_state with_id with_size with_lvl with_left_child with_right_child
       with_prev with_next with_parent with_neighbour with_memory] in *.

Ltac msimpl := repeat (progress (autorewrite with mach; fields)).

Ltac nd_cases :=
  repeat (rewrite ?nd_upd_node; msimpl; repeat case_decide; simplify_eq; msimpl; try done).

Lemma bind_assoc {A B C} (c : M A) (f : A -> M B) (g : B -> M C) m :
  bind (bind c f) g m = bind c (fun x => bind (f x) g) m.
Proof. unfold bind. by destruct (c m). Qed.

(** One statement of the embedded code. *)
Ltac zlia := unfold valid, NODES, PAGES, HALF, DEPTH in *; lia.
Ltac side := first [assumption | lia | done | congruence | zlia].

Ltac nd_norm :=
  repeat first
    [ rewrite nd_upd_node_eq
    | rewrite nd_upd_node_ne by side
    | progress msimpl ].

Ltac mstep :=
  cbv beta iota zeta; rewrite ?bind_assoc;
  first
    [ rewrite bind_ret
    | erewrite bind_done; [| first
        [ apply load_ok | apply store_ok | apply load_list_ok | apply store_list_ok
        | apply load_size_ok | apply store_size_ok ]; side ]
    | erewrite bind_done; [| unfold initlock, acquire, release, printf; reflexivity ]
    | rewrite load_ok by side
    | rewrite store_ok by side
    | rewrite store_list_ok by side
    | rewrite store_size_ok by side ];
  cbv beta iota; nd_norm.

Lemma add_free_node_post i l m :
  valid i -> lvl (nd m i) = l -> 0 <= l < DEPTH ->
  (forall j, lists m !!! l = Some j -> valid j /\ j <> i) ->
  exists m',
    add_free_node (Some i) m = Done tt m' /\
    lists m' = <[l := Some i]> (lists m) /\
    sizes m' = <[l := sizes m !!! l + 1]> (sizes m) /\
    lock m' = lock m /\ console m' = console m /\
    forall j, nd m' j =
      if decide (j = i) then with_prev None (with_next (lists m !!! l) (nd m i))
      else if decide (lists m !!! l = Some j) then with_prev (Some i) (nd m j)
      else nd m j.
Proof.
  intros Hi Hl Hr Hh. unfold add_free_node.
  do 9 (mstep; msimpl; rewrite ?Hl).
  destruct (lists m !!! l) as [h|] eqn:Hhd.
  - destruct (Hh h eq_refl) as [Hvh Hne].
    mstep; msimpl. rewrite store_ok by done.
    eexists; split; [reflexivity|]. msimpl.
    repeat split; try done.
    intros j. nd_cases.
  - mstep; msimpl. unfold ret.
    eexists; split; [reflexivity|]. msimpl.
    repeat split; try done.
    intros j. nd_cases.
Qed.

Lemma unlink_post i l m :
  valid i -> lvl (nd m i) = l -> 0 <= l < DEPTH ->
  (forall p, prev (nd m i) = Some p -> valid p /\ p <> i) ->
  (forall x, next (nd m i) = Some x -> valid x /\ x <> i) ->
  (forall p x, prev (nd m i) = Some p -> next (nd m i) = Some x -> p <> x) ->
  exists m',
    unlink (Some i) m = Done tt m' /\
    lists m' = match prev (nd m i) with
               | Some _ => lists m
               | None => <[l := next (nd m i)]> (lists m)
               end /\
    sizes m' = <[l := sizes m !!! l - 1]> (sizes m) /\
    lock m' = lock m /\ console m' = console m /\
    forall j, nd m' j =
      if decide (j = i) then with_next None (with_prev None (nd m i))
      else if decide (prev (nd m i) = Some j) then with_next (next (nd m i)) (nd m j)
      else if decide (next (nd m i) = Some j) then with_prev (prev (nd m i)) (nd m j)
      else nd m j.
Proof.
  intros Hi Hl Hr Hp Hn Hpn. unfold unlink.
  mstep.
  destruct (prev (nd m i)) as [p|] eqn:Hpv; destruct (next (nd m i)) as [x|] eqn:Hnx.
  - destruct (Hp p eq_refl) as [Hvp Hpi]. destruct (Hn x eq_refl) as [Hvx Hxi].
    specialize (Hpn p x eq_refl eq_refl).
    repeat (mstep; rewrite ?Hnx, ?Hpv, ?Hl).
    eexists; split; [reflexivity|]. msimpl.
    repeat split; try done.
    intros j. nd_cases.
  - destruct (Hp p eq_refl) as [Hvp Hpi].
    repeat (mstep; rewrite ?Hnx, ?Hpv, ?Hl).
    eexists; split; [reflexivity|]. msimpl.
    repeat split; try done.
    intros j. nd_cases.
  - destruct (Hn x eq_refl) as [Hvx Hxi].
    repeat (mstep; rewrite ?Hnx, ?Hpv, ?Hl).
    eexists; split; [reflexivity|]. msimpl.
    repeat split; try done.
    intros j. nd_cases.
  - repeat (mstep; rewrite ?Hnx, ?Hpv, ?Hl).
    eexists; split; [reflexivity|]. msimpl.
    repeat split; try done.
    intros j. nd_cases.
Qed.

(** ** Initialisation *)

Lemma for_inv (I : Z -> machine -> Prop) (body : Z -> M unit) n : forall i m,
  I i m ->
  (forall k m0, i <= k < i + Z.of_nat n -> I k m0 ->
     exists m', body k m0 = Done tt m' /\ I (k + 1) m') ->
  exists m', for_ n i body m = Done tt m' /\ I (i + Z.of_nat n) m'.
Proof.
  induction n as [|n IH]; intros i m Hi Hstep.
  - exists m. split; [reflexivity|]. by replace (i + Z.of_nat 0) with i by lia.
  - destruct (Hstep i m) as (m1 & Hb & Hi1); [lia | done |].
    destruct (IH (i + 1) m1) as (m2 & Hf & Hi2); [done | |].
    { intros k m0 Hk. apply Hstep. lia. }
    exists m2. split.
    + simpl. by rewrite (bind_done _ _ _ _ _ Hb).
    + by replace (i + Z.of_nat (S n)) with (i + 1 + Z.of_nat n) by lia.
Qed.

Lemma quot_parent k : 1 <= k -> Z.quot (k - 1) 2 = parent_of k.
Proof. intros. unfold parent_of. apply Z.quot_div_nonneg; lia. Qed.

Lemma parent_of_cases k :
  1 <= k -> 0 <= parent_of k < k /\
  (k = 2 * parent_of k + 1 \/ k = 2 * parent_of k + 2).
Proof. unfold parent_of. intros. Z.to_euclidean_division_equations. lia. Qed.

Lemma nb_of_left p : nb_of (2 * p + 1) = 2 * p + 2.
Proof.
  unfold nb_of. replace (2 * p + 1) with (1 + 2 * p) by lia.
  rewrite Z.odd_add_mul_2. simpl. lia.
Qed.

Lemma nb_of_right p : nb_of (2 * p + 2) = 2 * p + 1.
Proof.
  unfold nb_of. replace (2 * p + 2) with (0 + 2 * (p + 1)) by lia.
  rewrite Z.odd_add_mul_2. simpl. lia.
Qed.

Lemma mem_of_left p : 0 <= p -> valid (2 * p + 1) -> mem_of (2 * p + 1) = mem_of p.
Proof. intros. unfold mem_of. by rewrite offset_of_left. Qed.

Lemma mem_of_right p :
  0 <= p -> valid (2 * p + 2) ->
  mem_of (2 * p + 2) = mem_of p + size_of (2 * p + 2) * PGSIZE.
Proof. intros. unfold mem_of. rewrite offset_of_right by done. lia. Qed.

Lemma init_node_post k m :
  1 <= k < NODES ->
  skel (nd m (parent_of k)) = skel_of (parent_of k) ->
  exists m',
    init_node k m = Done tt m' /\
    lists m' = lists m /\ sizes m' = sizes m /\
    lock m' = lock m /\ console m' = console m /\
    (forall j, j <> k -> nd m' j = nd m j) /\
    skel (nd m' k) = skel_of k /\
    state (nd m' k) = 0 /\ prev (nd m' k) = None /\ next (nd m' k) = None.
Proof.
  intros Hk Hp. unfold init_node. rewrite quot_parent by lia.
  destruct (parent_of_cases k) as [Hpk Hcase]; [lia|].
  remember (parent_of k) as p eqn:Hpdef.
  assert (valid k) as Hvk by zlia.
  assert (valid p) as Hvp by zlia.
  unfold skel, skel_of in Hp. injection Hp as Hid Hsz Hlv Hlc Hrc Hpa Hnb Hmem.
  assert (lvl_of k = lvl_of p - 1) as Hlk.
  { destruct Hcase as [Hc | Hc]; rewrite Hc; [apply lvl_of_left | apply lvl_of_right]; lia. }
  assert (size_of p = 2 * size_of k) as Hsk by (by apply size_of_parent).
  assert (Z.quot (size_of p) 2 = size_of k) as Hq.
  { rewrite Hsk. generalize (size_of k). intros z. Z.to_euclidean_division_equations. lia. }
  assert ((Z.rem k 2 =? 1) = Z.odd k) as Hodd.
  { rewrite Z.rem_mod_nonneg by lia.
    rewrite (Zmod_odd k). destruct (Z.odd k); reflexivity. }
  assert (mem_of k = if Z.odd k then mem_of p else mem_of p + size_of k * PGSIZE) as Hmk.
  { destruct Hcase as [Hc | Hc]; rewrite Hc in Hvk |- *.
    - replace (Z.odd (2 * p + 1)) with true.
      + apply mem_of_left; [lia | done].
      + replace (2 * p + 1) with (1 + 2 * p) by lia. by rewrite Z.odd_add_mul_2.
    - replace (Z.odd (2 * p + 2)) with false.
      + apply mem_of_right; [lia | done].
      + replace (2 * p + 2) with (0 + 2 * (p + 1)) by lia. by rewrite Z.odd_add_mul_2. }
  assert ((k =? 0) = false) as Hk0 by (apply Z.eqb_neq; lia).
  do 6 (mstep; rewrite ?Hlv, ?Hsz).
  rewrite <- HALF_eq. rewrite Hodd.
  destruct (k <? HALF) eqn:Hlt; destruct (Z.odd k) eqn:Hod;
    repeat (mstep; rewrite ?Hlv, ?Hsz, ?Hmem);
    (eexists; split; [reflexivity|]; msimpl;
     split; [done|]; split; [done|]; split; [done|]; split; [done|];
     split; [by intros j Hj; nd_norm|];
     nd_norm; split; [|done]).
  all: unfold skel, skel_of; fields; rewrite Hlt, Hq, Hlk, Hmk, Hk0.
  all: unfold nb_of; rewrite Hod, <- Hpdef; reflexivity.
Qed.


Lemma skel_of_root : skel_of 0 = (0, PAGES, DEPTH - 1, Some 1, Some 2, Some 0, Some 0, PGROUNDUP end_).
Proof.
  unfold skel_of, mem_of. rewrite offset_of_root, size_of_root, lvl_of_root.
  simpl. by rewrite Z.add_0_r.
Qed.

(** What [buddy_init] leaves behind, whatever the memory held before. *)
Lemma buddy_init_post m0 :
  exists m,
    buddy_init m0 = Done tt m /\
    shaped m /\
    (forall i, valid i ->
       state (nd m i) = (if i =? 0 then FREE else NONEXISTENT) /\
       prev (nd m i) = None /\ next (nd m i) = None) /\
    (forall l, 0 <= l < DEPTH ->
       lists m !!! l = (if l =? DEPTH - 1 then Some 0 else None) /\
       sizes m !!! l = (if l =? DEPTH - 1 then 1 else 0)) /\
    lock m = LockInit "buddy_mem" :: lock m0 /\
    console m = console m0.
Proof.
  unfold buddy_init. mstep.
  (* the lists are cleared *)
  destruct (for_inv
    (fun k m => (forall l, 0 <= l < k -> lists m !!! l = None /\ sizes m !!! l = 0) /\
                lock m = LockInit "buddy_mem" :: lock m0 /\ console m = console m0)
    (fun idx => store_list idx None;; store_size idx 0)
    (Z.to_nat DEPTH) 0 (log_lock (LockInit "buddy_mem") m0))
    as (m1 & Hrun1 & Hl1 & Hlock1 & Hcon1).
  { split; [intros; lia | done]. }
  { intros k m Hk (Hl & Hlock & Hcon). rewrite Z2Nat.id in Hk by (unfold DEPTH; lia).
    repeat mstep. eexists; split; [reflexivity|]. msimpl.
    split; [|done]. intros l Hlk.
    destruct (decide (l = k)) as [->|Hne].
    - by rewrite !lookup_total_insert_eq.
    - rewrite !lookup_total_insert_ne by done. apply Hl. lia. }
  rewrite Z2Nat.id in Hl1 by (unfold DEPTH; lia). simpl in Hl1.
  rewrite (bind_done _ _ _ _ _ Hrun1).
  (* the root *)
  do 11 mstep.
  match goal with |- exists m, _ ?mm = _ /\ _ => set (m2 := mm) end.
  destruct (add_free_node_post 0 (DEPTH - 1) m2) as (m3 & Hrun3 & Hl3 & Hs3 & Hlock3 & Hcon3 & Hnd3).
  { zlia. }
  { subst m2. nd_norm. done. }
  { zlia. }
  { subst m2. msimpl. intros j Hj. destruct (Hl1 (DEPTH - 1)) as [Hn _]; [zlia|]. congruence. }
  rewrite (bind_done _ _ _ _ _ Hrun3).
  assert (lists m2 !!! (DEPTH - 1) = None) as Hhd.
  { subst m2. msimpl. apply Hl1. zlia. }
  rewrite Hhd in Hnd3.
  (* the other nodes *)
  destruct (for_inv
    (fun k m =>
       (forall j, 0 <= j < k ->
          skel (nd m j) = skel_of j /\
          state (nd m j) = (if j =? 0 then FREE else NONEXISTENT) /\
          prev (nd m j) = None /\ next (nd m j) = None) /\
       lists m = lists m3 /\ sizes m = sizes m3 /\
       lock m = lock m3 /\ console m = console m3)
    init_node (Z.to_nat (NODES - 1)) 1 m3)
    as (m4 & Hrun4 & Hnd4 & Hl4 & Hs4 & Hlock4 & Hcon4).
  { split; [|done]. intros j Hj. assert (j = 0) as -> by lia.
    rewrite Hnd3. rewrite decide_True by done. subst m2. nd_norm.
    rewrite skel_of_root. done. }
  { intros k m Hk (Hnd & Hl & Hs & Hlock & Hcon).
    rewrite Z2Nat.id in Hk by zlia.
    destruct (parent_of_cases k) as [Hpk _]; [lia|].
    destruct (init_node_post k m) as (m' & Hrun & Hl' & Hs' & Hlock' & Hcon' & Hoth & Hsk & Hst & Hpv & Hnx).
    { lia. }
    { apply Hnd. lia. }
    exists m'. split; [done|]. split; [|repeat split; congruence].
    intros j Hj. destruct (decide (j = k)) as [->|Hne].
    - replace (k =? 0) with false by (symmetry; apply Z.eqb_neq; lia). done.
    - rewrite Hoth by done. apply Hnd. lia. }
  rewrite Z2Nat.id in Hnd4 by zlia.
  exists m4. split; [done|].
  split; [|split; [|split; [|split]]].
  - intros i Hi. apply Hnd4. zlia.
  - intros i Hi. apply Hnd4. zlia.
  - intros l Hl. rewrite Hl4, Hs4, Hl3, Hs3.
    destruct (decide (l = DEPTH - 1)) as [->|Hne].
    + rewrite !lookup_total_insert_eq. rewrite Z.eqb_refl.
      split; [done|]. subst m2. msimpl. destruct (Hl1 (DEPTH - 1)) as [_ ->]; [zlia|]. done.
    + rewrite !lookup_total_insert_ne by done.
      replace (l =? DEPTH - 1) with false by (symmetry; by apply Z.eqb_neq).
      subst m2. msimpl. apply Hl1. zlia.
  - rewrite Hlock4, Hlock3. subst m2. by msimpl.
  - rewrite Hcon4, Hcon3. subst m2. by msimpl.
Qed.

(** ** Free lists as linked chains *)

Lemma upd_eq {A} (f : Z -> A) k v : upd f k v k = v.
Proof. unfold upd. by rewrite decide_True. Qed.

Lemma upd_ne {A} (f : Z -> A) k v x : x <> k -> upd f k v x = f x.
Proof. intros. unfold upd. by rewrite decide_False. Qed.

Lemma dll_frame m m' L : forall pv,
  (forall j, j ∈ L -> prev (nd m' j) = prev (nd m j) /\ next (nd m' j) = next (nd m j)) ->
  dll m pv L -> dll m' pv L.
Proof.
  induction L as [|i L IH]; intros pv Hsame; simpl; [done|].
  intros (Hp & Hn & Hd).
  destruct (Hsame i) as [-> ->]; [by left|].
  repeat split; try done. apply IH; [|done].
  intros j Hj. apply Hsame. by right.
Qed.

Lemma dll_mid m L1 c L2 : forall pv,
  dll m pv (L1 ++ c :: L2) ->
  prev (nd m c) = (match last L1 with Some a => Some a | None => pv end) /\
  next (nd m c) = head L2.
Proof.
  induction L1 as [|a L1 IH]; intros pv; simpl.
  - intros (Hp & Hn & _). done.
  - intros (_ & _ & Hd). destruct (IH _ Hd) as [Hp Hn]. split; [|done].
    rewrite Hp. destruct L1 as [|b L1]; [done|].
    change (last (a :: b :: L1)) with (last (b :: L1)).
    destruct (last (b :: L1)) eqn:E; [done|]. by apply last_None in E.
Qed.

Lemma dll_push m m' i L :
  dll m None L -> i ∉ L -> NoDup L ->
  (forall j, nd m' j =
     if decide (j = i) then with_prev None (with_next (head L) (nd m i))
     else if decide (head L = Some j) then with_prev (Some i) (nd m j)
     else nd m j) ->
  dll m' None (i :: L).
Proof.
  intros Hd Hi Hnd Hm'. simpl.
  rewrite (Hm' i), decide_True by done. fields.
  repeat split.
  destruct L as [|h L]; [done|]. simpl in *.
  destruct Hd as (Hp & Hn & Hd).
  assert (h <> i) as Hhi by (intros ->; apply Hi; by left).
  rewrite (Hm' h), decide_False, decide_True by done. fields.
  repeat split; [done|].
  apply NoDup_cons in Hnd as [Hh Hnd].
  apply (dll_frame m); [|done].
  intros j Hj. rewrite (Hm' j).
  rewrite decide_False by (intros ->; apply Hi; by right).
  rewrite decide_False by (intros [= ->]; done).
  done.
Qed.

Lemma dll_unlink m m' c :
  (forall j, nd m' j =
     if decide (j = c) then with_next None (with_prev None (nd m c))
     else if decide (prev (nd m c) = Some j) then with_next (next (nd m c)) (nd m j)
     else if decide (next (nd m c) = Some j) then with_prev (prev (nd m c)) (nd m j)
     else nd m j) ->
  forall L1 L2 pv,
    NoDup (L1 ++ c :: L2) ->
    (forall p, pv = Some p -> p ∉ L1 ++ c :: L2) ->
    dll m pv (L1 ++ c :: L2) -> dll m' pv (L1 ++ L2).
Proof.
  intros Hm' L1. induction L1 as [|a L1 IH]; intros L2 pv Hnd Hpv Hd.
  - simpl in *. destruct Hd as (Hp & Hn & Hd).
    apply NoDup_cons in Hnd as [Hc Hnd].
    destruct L2 as [|x L2]; [done|]. simpl in *.
    destruct Hd as (Hpx & Hnx & Hd).
    apply NoDup_cons in Hnd as [Hx Hnd].
    assert (x <> c) as Hxc by (intros ->; apply Hc; by left).
    rewrite (Hm' x), decide_False by done.
    rewrite decide_False.
    2:{ rewrite Hp. intros ->. eapply Hpv; [done|]. right. by left. }
    rewrite decide_True by done. fields.
    repeat split; [done..|].
    apply (dll_frame m); [|done].
    intros j Hj. rewrite (Hm' j).
    rewrite decide_False by (intros ->; apply Hc; by right).
    rewrite decide_False.
    2:{ rewrite Hp. intros ->. eapply Hpv; [done|]. right. by right. }
    rewrite decide_False by (rewrite Hn; intros [= ->]; done).
    done.
  - simpl in Hd. destruct Hd as (Hp & Hn & Hd).
    rewrite <- app_comm_cons in Hnd. apply NoDup_cons in Hnd as [Ha Hnd].
    destruct (dll_mid _ _ _ _ _ Hd) as [Hpc Hnc].
    assert (a <> c) as Hac.
    { intros ->. apply Ha. apply elem_of_app. right. by left. }
    simpl. rewrite (Hm' a), decide_False by done.
    assert (next (nd m c) <> Some a) as Hnca.
    { rewrite Hnc. intros Hh. apply Ha. apply elem_of_app. right. right.
      destruct L2; simplify_eq/=. by left. }
    split; [|split].
    + repeat case_decide; fields; done.
    + destruct L1 as [|b L1].
      * simpl in *. rewrite decide_True by done. fields. done.
      * rewrite decide_False.
        2:{ rewrite Hpc. intros Heq. apply Ha.
            destruct (last (b :: L1)) as [z|] eqn:Hlast; [|by apply last_None in Hlast].
            simplify_eq. apply elem_of_app. left. by apply last_Some_elem_of. }
        rewrite decide_False by done. done.
    + apply IH; [done| |done].
      intros p [= <-]. done.
Qed.

Lemma shaped_fields m i :
  shaped m -> valid i ->
  id (nd m i) = i /\ size (nd m i) = size_of i /\ lvl (nd m i) = lvl_of i /\
  left_child (nd m i) = (if i <? HALF then Some (2 * i + 1) else None) /\
  right_child (nd m i) = (if i <? HALF then Some (2 * i + 2) else None) /\
  parent (nd m i) = Some (if i =? 0 then 0 else parent_of i) /\
  neighbour (nd m i) = Some (if i =? 0 then 0 else nb_of i) /\
  memory (nd m i) = mem_of i.
Proof.
  intros Hs Hi. specialize (Hs i Hi). unfold skel, skel_of in Hs.
  injection Hs as -> -> -> -> -> -> -> ->. done.
Qed.

Lemma shaped_lvl m i : shaped m -> valid i -> lvl (nd m i) = lvl_of i.
Proof. intros Hs Hi. by destruct (shaped_fields m i Hs Hi) as (_ & _ & ? & _). Qed.

Lemma shaped_ext m m' :
  (forall j, valid j -> skel (nd m' j) = skel (nd m j)) -> shaped m -> shaped m'.
Proof. intros He Hs j Hj. rewrite He by done. by apply Hs. Qed.

Lemma shaped_state i v m : shaped m -> shaped (upd_node i (with_state v) m).
Proof.
  apply shaped_ext. intros j _. rewrite nd_upd_node. by case_decide; subst.
Qed.

Lemma linked_ext m m' fl :
  lists m' = lists m -> sizes m' = sizes m ->
  (forall j, prev (nd m' j) = prev (nd m j) /\ next (nd m' j) = next (nd m j)) ->
  linked m fl -> linked m' fl.
Proof.
  intros Hl Hs Hn [Hlk Htd]. split.
  - intros l Hr. destruct (Hlk l Hr) as (H1 & H2 & H3 & H4 & H5).
    rewrite Hl, Hs. repeat split; try done; try (by apply H5).
    apply (dll_frame m); [|done]. intros j _. apply Hn.
  - intros j Hj Hnot. destruct (Hn j) as [-> ->]. by apply Htd.
Qed.

Lemma linked_state i v m fl : linked m fl -> linked (upd_node i (with_state v) m) fl.
Proof.
  apply linked_ext; [done..|].
  intros j. rewrite nd_upd_node. by case_decide; subst.
Qed.

Lemma states_upd_state i v m j :
  states (upd_node i (with_state v) m) j = upd (states m) i v j.
Proof. unfold states, upd. rewrite nd_upd_node. by case_decide. Qed.

Lemma linked_push m fl i :
  shaped m -> linked m fl -> valid i -> i ∉ fl (lvl_of i) ->
  exists m',
    add_free_node (Some i) m = Done tt m' /\
    shaped m' /\
    linked m' (upd fl (lvl_of i) (i :: fl (lvl_of i))) /\
    (forall j, state (nd m' j) = state (nd m j)) /\
    lock m' = lock m /\ console m' = console m /\
    (forall j, lvl_of j <> lvl_of i -> valid j -> nd m' j = nd m j).
Proof.
  intros Hs [Hlk Htd] Hi Hni.
  pose proof (lvl_of_range i Hi) as Hr.
  assert (0 <= lvl_of i < DEPTH) as Hr' by lia.
  destruct (Hlk (lvl_of i) Hr') as (Hhd & Hd & Hsz & Hnd & Hmem).
  destruct (add_free_node_post i (lvl_of i) m) as (m' & Hrun & Hl' & Hs' & Hlock & Hcon & Hn');
    [done | by apply shaped_lvl | done | |].
  { intros j Hj. rewrite Hhd in Hj.
    assert (j ∈ fl (lvl_of i)) as Hin by (destruct (fl (lvl_of i)); simplify_eq/=; by left).
    split; [by apply Hmem|]. by intros ->. }
  rewrite Hhd in Hn'.
  exists m'. split; [done|].
  assert (forall j, j <> i -> head (fl (lvl_of i)) <> Some j -> nd m' j = nd m j) as Hframe.
  { intros j H1 H2. rewrite Hn'. by rewrite !decide_False. }
  split; [|split; [|split; [|split; [|split]]]]; try done.
  - apply (shaped_ext m); [|done]. intros j _. rewrite Hn'.
    by repeat case_decide; subst.
  - split.
    2:{ intros j Hvj. unfold upd. case_decide as Hd'; intros Hnot.
        - apply not_elem_of_cons in Hnot as [Hji Hnot].
          rewrite Hframe; [apply Htd; [done | by rewrite Hd'] | done |].
          intros Hh. apply Hnot. destruct (fl (lvl_of i)); simplify_eq/=. by left.
        - rewrite Hframe; [by apply Htd | by intros -> |].
          intros Hh. assert (j ∈ fl (lvl_of i)) as Hin
            by (destruct (fl (lvl_of i)); simplify_eq/=; by left).
          apply Hmem in Hin. lia. }
    intros l Hl. unfold upd. case_decide as Hd'.
    + subst l. rewrite Hl', Hs', !lookup_total_insert_eq.
      split; [done|]. split; [|split; [|split]].
      * apply (dll_push m m' i (fl (lvl_of i))); [done..|].
        intros j. by rewrite Hn'.
      * rewrite Hsz. simpl length. lia.
      * by apply NoDup_cons.
      * intros j [->|Hj]%elem_of_cons; [done|]. by apply Hmem.
    + destruct (Hlk l Hl) as (Hhd2 & Hd2 & Hsz2 & Hnd2 & Hmem2).
      rewrite Hl', Hs', !lookup_total_insert_ne by done.
      repeat split; try done; try (by apply Hmem2).
      apply (dll_frame m); [|done].
      intros j Hj. destruct (Hmem2 j Hj) as [Hvj Hlj].
      rewrite Hframe; [done| |].
      * intros ->. done.
      * intros Hh. assert (j ∈ fl (lvl_of i)) as Hin
          by (destruct (fl (lvl_of i)); simplify_eq/=; by left).
        apply Hmem in Hin. lia.
  - intros j. rewrite Hn'. by repeat case_decide; subst.
  - intros j Hlj Hvj. apply Hframe; [by intros ->|].
    intros Hh. assert (j ∈ fl (lvl_of i)) as Hin
      by (destruct (fl (lvl_of i)); simplify_eq/=; by left).
    apply Hmem in Hin. lia.
Qed.

Lemma linked_unlink m fl l L1 c L2 :
  shaped m -> linked m fl -> 0 <= l < DEPTH -> fl l = L1 ++ c :: L2 ->
  exists m',
    unlink (Some c) m = Done tt m' /\
    shaped m' /\
    linked m' (upd fl l (L1 ++ L2)) /\
    (forall j, state (nd m' j) = state (nd m j)) /\
    lock m' = lock m /\ console m' = console m /\
    prev (nd m' c) = None /\ next (nd m' c) = None /\
    (forall j, lvl_of j <> l -> valid j -> nd m' j = nd m j).
Proof.
  intros Hs [Hlk Htd] Hl Hfl.
  destruct (Hlk l Hl) as (Hhd & Hd & Hsz & Hnd & Hmem).
  rewrite Hfl in Hhd, Hd, Hsz, Hnd, Hmem.
  assert (c ∈ L1 ++ c :: L2) as Hcin by (apply elem_of_app; right; by left).
  destruct (Hmem c Hcin) as [Hvc Hlc].
  destruct (dll_mid _ _ _ _ _ Hd) as [Hpc Hnc].
  pose proof Hnd as Hnd'. apply NoDup_app in Hnd' as (Hnd1 & Hdisj & Hnd2).
  apply NoDup_cons in Hnd2 as [HcL2 Hnd2].
  assert (forall p, prev (nd m c) = Some p -> p ∈ L1) as HpL1.
  { intros p Hp. rewrite Hpc in Hp.
    destruct (last L1) as [z|] eqn:Hlast; [|done]. simplify_eq.
    by apply last_Some_elem_of. }
  assert (forall x, next (nd m c) = Some x -> x ∈ L2) as HxL2.
  { intros x Hx. rewrite Hnc in Hx. destruct L2; simplify_eq/=. by left. }
  destruct (unlink_post c l m) as (m' & Hrun & Hl' & Hs' & Hlock & Hcon & Hn');
    [done | by rewrite shaped_lvl | done | | | |].
  { intros p Hp. apply HpL1 in Hp. split.
    - apply Hmem. apply elem_of_app. by left.
    - intros ->. eapply Hdisj; [done|]. by left. }
  { intros x Hx. apply HxL2 in Hx. split.
    - apply Hmem. apply elem_of_app. right. by right.
    - by intros ->. }
  { intros p x Hp Hx. apply HpL1 in Hp. apply HxL2 in Hx.
    intros ->. eapply Hdisj; [done|]. by right. }
  exists m'. split; [done|].
  assert (forall j, j ∉ L1 ++ c :: L2 -> nd m' j = nd m j) as Hframe.
  { intros j Hj. rewrite Hn'. rewrite decide_False.
    2:{ intros ->. done. }
    rewrite decide_False.
    2:{ intros Hp. apply HpL1 in Hp. apply Hj. apply elem_of_app. by left. }
    rewrite decide_False; [done|].
    intros Hx. apply HxL2 in Hx. apply Hj. apply elem_of_app. right. by right. }
  split; [|split; [|split; [|split; [|split; [|split; [|split]]]]]]; try done.
  - apply (shaped_ext m); [|done]. intros j _. rewrite Hn'.
    by repeat case_decide; subst.
  - split.
    2:{ intros j Hvj. unfold upd. case_decide as Hd'; intros Hnot.
        - destruct (decide (j = c)) as [->|Hjc]; [rewrite Hn'; by rewrite decide_True|].
          assert (j ∉ L1 ++ c :: L2) as Hnot'.
          { intros Hin. apply Hnot.
            apply elem_of_app in Hin as [Hin|Hin]; apply elem_of_app; [by left|].
            apply elem_of_cons in Hin as [->|Hin]; [done | by right]. }
          rewrite Hframe by done. apply Htd; [done|]. by rewrite Hd', Hfl.
        - rewrite Hframe; [by apply Htd|].
          intros Hin. apply Hmem in Hin. lia. }
    intros l' Hl'r. unfold upd. case_decide as Hd'.
    + subst l'. rewrite Hl', Hs', lookup_total_insert_eq.
      split; [|split; [|split; [|split]]].
      * destruct (prev (nd m c)) as [p|] eqn:Hp.
        -- rewrite Hhd. specialize (HpL1 p eq_refl).
           destruct L1; [by apply elem_of_nil in HpL1 | done].
        -- rewrite lookup_total_insert_eq, Hnc.
           destruct L1 as [|a L1]; [done|].
           exfalso. destruct (last (a :: L1)) eqn:Hlast; [done|].
           by apply last_None in Hlast.
      * apply (dll_unlink m m' c Hn' L1 L2 None); [done| |done]. intros p [=].
      * rewrite Hsz. rewrite !length_app. simpl. lia.
      * apply NoDup_app. repeat split; try done.
        intros x Hx1 Hx2. eapply Hdisj; [done|]. by right.
      * intros j Hj. apply Hmem.
        apply elem_of_app in Hj as [Hj|Hj]; apply elem_of_app; [by left|].
        right. by right.
    + destruct (Hlk l' Hl'r) as (Hhd2 & Hd2 & Hsz2 & Hnd2' & Hmem2).
      rewrite Hl', Hs'. rewrite lookup_total_insert_ne by done.
      assert (lists m' !!! l' = lists m !!! l') as Hll.
      { rewrite Hl'. destruct (prev (nd m c)); [done|]. by rewrite lookup_total_insert_ne. }
      rewrite Hl' in Hll. rewrite Hll.
      repeat split; try done; try (by apply Hmem2).
      apply (dll_frame m); [|done].
      intros j Hj. destruct (Hmem2 j Hj) as [Hvj Hlj].
      rewrite Hframe; [done|]. intros Hin. apply Hmem in Hin. lia.
  - intros j. rewrite Hn'. by repeat case_decide; subst.
  - rewrite Hn'. rewrite decide_True by done. done.
  - rewrite Hn'. rewrite decide_True by done. done.
  - intros j Hlj Hvj. apply Hframe. intros Hin. apply Hmem in Hin. lia.
Qed.

(** ** The four moves of the decomposition *)

Lemma elem_of_remove_mid (b i : Z) L1 L2 :
  NoDup (L1 ++ b :: L2) -> (i ∈ L1 ++ L2 <-> i ∈ L1 ++ b :: L2 /\ i <> b).
Proof.
  intros Hnd. apply NoDup_app in Hnd as (_ & Hdisj & Hnd2).
  apply NoDup_cons in Hnd2 as [Hb _].
  rewrite !elem_of_app, elem_of_cons. split.
  - intros [H|H]; (split; [tauto|]); intros ->; [|done].
    eapply Hdisj; [done|]. by left.
  - tauto.
Qed.

Lemma tree_inv_ext s s' fl fl' :
  (forall i, s' i = s i) -> (forall l, fl' l = fl l) -> tree_inv s fl -> tree_inv s' fl'.
Proof.
  intros Hs Hf [H1 H2 H3 H4 H5 H6].
  constructor; intros; rewrite ?Hs, ?Hf; auto.
Qed.

Ltac consts := unfold NONEXISTENT, USED, INNER, FREE, valid, NODES, PAGES, HALF, DEPTH in *.

Ltac upd_cases := unfold upd; repeat case_decide; subst; consts; try lia.

(** A free node is taken for use. *)
Lemma tree_inv_take s fl l L1 c L2 :
  tree_inv s fl -> 0 <= l < DEPTH -> fl l = L1 ++ c :: L2 -> NoDup (fl l) ->
  tree_inv (upd s c USED) (upd fl l (L1 ++ L2)).
Proof.
  intros Hinv Hl Hfl Hnd.
  assert (valid c /\ s c = FREE /\ lvl_of c = l) as (Hvc & Hsc & Hlc).
  { apply (ti_free _ _ Hinv l c Hl). rewrite Hfl. apply elem_of_app. right. by left. }
  rewrite Hfl in Hnd.
  constructor.
  - pose proof (ti_root _ _ Hinv). upd_cases.
  - intros p Hp. pose proof (ti_left _ _ Hinv p Hp). pose proof (ti_left _ _ Hinv c).
    upd_cases.
  - intros p Hp. pose proof (ti_right _ _ Hinv p Hp). pose proof (ti_right _ _ Hinv c).
    upd_cases.
  - intros i Hi. pose proof (ti_leaf _ _ Hinv i Hi). upd_cases.
  - intros p Hp. pose proof (ti_buddy _ _ Hinv p Hp). upd_cases.
  - intros l' i Hl'. unfold upd at 1. case_decide as Hd.
    + subst l'. rewrite elem_of_remove_mid by done. rewrite <- Hfl.
      rewrite (ti_free _ _ Hinv l i Hl). upd_cases.
    + rewrite (ti_free _ _ Hinv l' i Hl'). upd_cases.
Qed.

(** A used node is split: it becomes inner, its right child free and its
    left child used. *)
Lemma tree_inv_split s fl c :
  tree_inv s fl -> s c = USED -> 0 <= c < HALF ->
  tree_inv (upd (upd (upd s c INNER) (2 * c + 2) FREE) (2 * c + 1) USED)
           (upd fl (lvl_of (2 * c + 2)) ((2 * c + 2) :: fl (lvl_of (2 * c + 2)))).
Proof.
  intros Hinv Hsc Hc.
  pose proof (ti_left _ _ Hinv c Hc) as HLc.
  pose proof (ti_right _ _ Hinv c Hc) as HRc.
  assert (s (2 * c + 1) = NONEXISTENT) as Hl0 by (consts; lia).
  assert (s (2 * c + 2) = NONEXISTENT) as Hr0 by (consts; lia).
  clear HLc HRc.
  constructor.
  - pose proof (ti_root _ _ Hinv). upd_cases.
  - intros p Hp. pose proof (ti_left _ _ Hinv p Hp). upd_cases.
  - intros p Hp. pose proof (ti_right _ _ Hinv p Hp). upd_cases.
  - intros i Hi. pose proof (ti_leaf _ _ Hinv i Hi). upd_cases.
  - intros p Hp. pose proof (ti_buddy _ _ Hinv p Hp). upd_cases.
  - intros l' i Hl'. unfold upd at 1. case_decide as Hd.
    + subst l'. rewrite elem_of_cons. rewrite (ti_free _ _ Hinv _ i Hl').
      upd_cases.
    + rewrite (ti_free _ _ Hinv l' i Hl'). upd_cases.
Qed.

(** A used node and its free buddy are merged into their parent. *)
Lemma tree_inv_merge s fl p c b L1 L2 :
  tree_inv s fl -> 0 <= p < HALF ->
  (c = 2 * p + 1 /\ b = 2 * p + 2 \/ c = 2 * p + 2 /\ b = 2 * p + 1) ->
  s c = USED -> s b = FREE ->
  fl (lvl_of b) = L1 ++ b :: L2 -> NoDup (fl (lvl_of b)) ->
  tree_inv (upd (upd (upd s c NONEXISTENT) b NONEXISTENT) p USED)
           (upd fl (lvl_of b) (L1 ++ L2)).
Proof.
  intros Hinv Hp Hside Hsc Hsb Hfl Hnd.
  pose proof (ti_left _ _ Hinv p Hp) as HLp.
  pose proof (ti_right _ _ Hinv p Hp) as HRp.
  assert (s p = INNER) as Hsp by (destruct Hside as [[-> ->]|[-> ->]]; consts; lia).
  clear HLp HRp.
  assert (forall q, 0 <= q < HALF -> q = c \/ q = b ->
          s (2 * q + 1) = NONEXISTENT /\ s (2 * q + 2) = NONEXISTENT) as Hgrand.
  { intros q Hq Hcb.
    pose proof (ti_left _ _ Hinv q Hq). pose proof (ti_right _ _ Hinv q Hq).
    destruct Hcb as [-> | ->]; consts; lia. }
  rewrite Hfl in Hnd.
  assert (0 <= lvl_of b < DEPTH) as Hlb.
  { assert (valid b) as Hvb by (destruct Hside as [[-> ->]|[-> ->]]; consts; lia).
    apply lvl_of_range in Hvb. lia. }
  constructor.
  - pose proof (ti_root _ _ Hinv). destruct Hside as [[-> ->]|[-> ->]]; upd_cases.
  - intros q Hq. pose proof (ti_left _ _ Hinv q Hq).
    pose proof (Hgrand q Hq).
    destruct Hside as [[-> ->]|[-> ->]]; upd_cases.
  - intros q Hq. pose proof (ti_right _ _ Hinv q Hq).
    pose proof (Hgrand q Hq).
    destruct Hside as [[-> ->]|[-> ->]]; upd_cases.
  - intros i Hi. pose proof (ti_leaf _ _ Hinv i Hi).
    destruct Hside as [[-> ->]|[-> ->]]; upd_cases.
  - intros q Hq. pose proof (ti_buddy _ _ Hinv q Hq).
    destruct Hside as [[-> ->]|[-> ->]]; upd_cases.
  - intros l' i Hl'. unfold upd at 1. case_decide as Hd.
    + subst l'. rewrite elem_of_remove_mid by done. rewrite <- Hfl.
      rewrite (ti_free _ _ Hinv _ i Hl').
      destruct Hside as [[-> ->]|[-> ->]]; upd_cases.
    + rewrite (ti_free _ _ Hinv l' i Hl').
      destruct Hside as [[-> ->]|[-> ->]]; upd_cases.
Qed.

(** A used node whose buddy is not free is released. *)
Lemma tree_inv_release s fl c :
  tree_inv s fl -> valid c -> s c = USED ->
  (c = 0 \/ s (nb_of c) <> FREE) ->
  tree_inv (upd s c FREE) (upd fl (lvl_of c) (c :: fl (lvl_of c))).
Proof.
  intros Hinv Hvc Hsc Hnb.
  assert (0 <= c < HALF -> s (2 * c + 1) = NONEXISTENT /\ s (2 * c + 2) = NONEXISTENT) as Hkids.
  { intros Hc. pose proof (ti_left _ _ Hinv c Hc). pose proof (ti_right _ _ Hinv c Hc).
    consts; lia. }
  assert (0 <= lvl_of c < DEPTH) as Hlc by (apply lvl_of_range in Hvc; lia).
  constructor.
  - pose proof (ti_root _ _ Hinv). upd_cases.
  - intros q Hq. pose proof (ti_left _ _ Hinv q Hq). upd_cases.
  - intros q Hq. pose proof (ti_right _ _ Hinv q Hq). upd_cases.
  - intros i Hi. pose proof (ti_leaf _ _ Hinv i Hi). upd_cases.
  - intros q Hq. pose proof (ti_buddy _ _ Hinv q Hq).
    pose proof (nb_of_left q). pose proof (nb_of_right q).
    unfold upd; repeat case_decide; subst.
    + consts; lia.
    + rewrite nb_of_left in Hnb. consts. lia.
    + rewrite nb_of_right in Hnb. consts. lia.
    + consts; lia.
  - intros l' i Hl'. unfold upd at 1. case_decide as Hd.
    + subst l'. rewrite elem_of_cons. rewrite (ti_free _ _ Hinv _ i Hl'). upd_cases.
    + rewrite (ti_free _ _ Hinv l' i Hl'). upd_cases.
Qed.

(** ** Allocation *)

Lemma round_up_spec fuel : forall n p l,
  0 < n -> p = 2 ^ l -> 0 <= l -> (l = 0 \/ 2 ^ (l - 1) < n) ->
  n <= 2 ^ (l + Z.of_nat fuel - 1) ->
  exists l', round_up fuel n p l = Some (2 ^ l', l') /\
             l <= l' /\ n <= 2 ^ l' /\ (l' = 0 \/ 2 ^ (l' - 1) < n).
Proof.
  induction fuel as [|f IH]; intros n p l Hn Hp Hl Hlow Hhigh.
  - exfalso. destruct Hlow as [-> | Hlow].
    + simpl in Hhigh. lia.
    + replace (l + Z.of_nat 0 - 1) with (l - 1) in Hhigh by lia. lia.
  - simpl. destruct (p <? n) eqn:Hlt.
    + apply Z.ltb_lt in Hlt.
      destruct (IH n (p * 2) (l + 1)) as (l' & Hr & H1 & H2 & H3).
      * done.
      * subst p. rewrite Z.pow_add_r by lia. done.
      * lia.
      * right. replace (l + 1 - 1) with l by lia. by subst p.
      * replace (l + 1 + Z.of_nat f - 1) with (l + Z.of_nat (S f) - 1) by lia. done.
      * exists l'. repeat split; try done; lia.
    + apply Z.ltb_ge in Hlt. exists l. subst p. repeat split; try done; lia.
Qed.

Lemma round_up_valid n :
  0 < n <= 512 ->
  exists l, round_up FUEL n 1 0 = Some (2 ^ l, l) /\ 0 <= l <= 9 /\
            (n = 2 ^ l -> Z.log2 n = l) /\
            (n <> 2 ^ l -> forall k, 0 <= k -> n <> 2 ^ k).
Proof.
  intros Hn.
  destruct (round_up_spec FUEL n 1 0) as (l & Hr & H0 & Hle & Hgt);
    [lia | done | lia | by left | rewrite FUEL_eq; simpl; lia |].
  exists l. split; [done|].
  assert (l <= 9) as Hl9.
  { destruct Hgt as [-> | Hgt]; [lia|].
    assert (2 ^ (l - 1) < 2 ^ 9) as Hpow by (change (2 ^ 9) with 512; lia).
    apply Z.pow_lt_mono_r_iff in Hpow; lia. }
  split; [lia|]. split.
  - intros ->. apply Z.log2_pow2. lia.
  - intros Hne k Hk ->.
    destruct Hgt as [-> | Hgt].
    + change (2 ^ 0) with 1 in *. assert (2 ^ k  = 1) by lia. done.
    + assert (2 ^ k < 2 ^ l) as H1 by lia.
      apply Z.pow_lt_mono_r_iff in H1; [|lia|lia].
      apply Z.pow_lt_mono_r_iff in Hgt; [|lia|lia]. lia.
Qed.

Lemma scan_spec k : forall idx m,
  0 <= idx -> idx + Z.of_nat k = DEPTH ->
  exists r, scan k idx m = Done r m /\
    ((r = -1 /\ forall j, idx <= j < DEPTH -> sizes m !!! j <= 0) \/
     (idx <= r < DEPTH /\ 0 < sizes m !!! r /\ forall j, idx <= j < r -> sizes m !!! j <= 0)).
Proof.
  induction k as [|k IH]; intros idx m Hidx Hk.
  - exists (-1). split; [done|]. left. split; [done|]. intros j Hj. lia.
  - simpl. mstep. destruct (sizes m !!! idx >? 0) eqn:Hc.
    + exists idx. split; [done|]. right. apply Z.gtb_lt in Hc.
      split; [lia|]. split; [done|]. intros j Hj. lia.
    + destruct (IH (idx + 1) m) as (r & Hr & Hcase); [lia|lia|].
      exists r. split; [done|].
      assert (sizes m !!! idx <= 0) as H0.
      { destruct (Z.gtb_spec (sizes m !!! idx) 0); [done | lia]. }
      destruct Hcase as [[-> Hall] | (Hr1 & Hr2 & Hall)].
      * left. split; [done|]. intros j Hj.
        destruct (decide (j = idx)) as [->|]; [done|]. apply Hall. lia.
      * right. split; [lia|]. split; [done|]. intros j Hj.
        destruct (decide (j = idx)) as [->|]; [done|]. apply Hall. lia.
Qed.

Lemma shaped_children m c :
  shaped m -> valid c -> 0 < lvl_of c ->
  left_child (nd m c) = Some (2 * c + 1) /\ right_child (nd m c) = Some (2 * c + 2) /\
  valid (2 * c + 1) /\ valid (2 * c + 2) /\ 0 <= c < HALF.
Proof.
  intros Hs Hc Hl. destruct (shaped_fields m c Hs Hc) as (_ & _ & _ & Hlc & Hrc & _).
  apply lvl_of_pos in Hl; [|done].
  assert ((c <? HALF) = true) as Hlt by (apply Z.ltb_lt; lia).
  rewrite Hlt in Hlc, Hrc. repeat split; try done; zlia.
Qed.

Lemma split_sim k : forall fuel c m a level,
  (k < fuel)%nat -> shaped m -> holds m a -> valid c ->
  lvl_of c = level + Z.of_nat k -> 0 <= level ->
  tree_inv (upd (a_state a) c USED) (a_free a) ->
  exists m',
    split fuel level (Some c) m = Done (Some (spec_split k c a).2) m' /\
    shaped m' /\
    linked m' (a_free (spec_split k c a).1) /\
    (forall i, upd (states m') (spec_split k c a).2 USED i = a_state (spec_split k c a).1 i) /\
    tree_inv (a_state (spec_split k c a).1) (a_free (spec_split k c a).1) /\
    lock m' = lock m /\ console m' = console m /\
    (forall j, valid j -> lvl_of c <= lvl_of j ->
       prev (nd m' j) = prev (nd m j) /\ next (nd m' j) = next (nd m j)).
Proof.
  induction k as [|k IH]; intros fuel c m a level Hfuel Hs [Hst Hlk] Hc Hlvl Hlevel Hinv.
  - destruct fuel as [|fuel]; [lia|]. simpl.
    mstep. rewrite shaped_lvl by done.
    replace (lvl_of c >? level) with false by (symmetry; rewrite Z.gtb_ltb; apply Z.ltb_ge; lia).
    exists m. split; [done|]. split; [done|]. split; [done|].
    split; [|done].
    intros i. unfold upd. case_decide; [done|]. apply Hst.
  - destruct fuel as [|fuel]; [lia|]. simpl.
    mstep. rewrite shaped_lvl by done.
    replace (lvl_of c >? level) with true by (symmetry; rewrite Z.gtb_ltb; apply Z.ltb_lt; lia).
    destruct (shaped_children m c) as (Hlc & Hrc & Hvl & Hvr & Hhalf); [done..|lia|].
    mstep. mstep. rewrite Hrc.
    set (m1 := upd_node c (with_state 2) m).
    assert (shaped m1) as Hs1 by (by apply shaped_state).
    assert (linked m1 (a_free a)) as Hlk1 by (by apply linked_state).
    assert (lvl_of (2 * c + 2) = lvl_of c - 1) as Hlr by (apply lvl_of_right; lia).
    (* the right child is not on any list *)
    assert ((2 * c + 2) ∉ a_free a (lvl_of (2 * c + 2))) as Hnotin.
    { intros Hin. pose proof (lvl_of_range (2 * c + 2) Hvr) as Hrange.
      apply (ti_free _ _ Hinv (lvl_of (2 * c + 2)) (2 * c + 2)) in Hin as (_ & Hfree & _); [|lia].
      pose proof (ti_right _ _ Hinv c Hhalf) as HR. 
      revert Hfree HR. unfold upd.
      repeat case_decide; consts; lia. }
    destruct (linked_push m1 (a_free a) (2 * c + 2) Hs1 Hlk1 Hvr Hnotin)
      as (m2 & Hrun2 & Hs2 & Hlk2 & Hst2 & Hlock2 & Hcon2 & Hfr2).
    rewrite (bind_done _ _ _ _ _ Hrun2).
    assert (right_child (nd m2 c) = Some (2 * c + 2) /\ left_child (nd m2 c) = Some (2 * c + 1)) as [Hrc2 Hlc2].
    { destruct (shaped_children m2 c) as (? & ? & _); [done..|lia|]. done. }
    mstep. rewrite Hrc2. mstep. mstep. rewrite Hlc2.
    set (m3 := upd_node (2 * c + 2) (with_state 3) m2).
    set (a3 := mk_astate (upd (upd (a_state a) c INNER) (2 * c + 2) FREE)
                         (upd (a_free a) (lvl_of (2 * c + 2)) ((2 * c + 2) :: a_free a (lvl_of (2 * c + 2))))).
    destruct (IH fuel (2 * c + 1) m3 a3 level) as
      (m' & Hrun & Hs' & Hlk' & Hst' & Hinv' & Hlock' & Hcon' & Hfr'); try done.
    + lia.
    + by apply shaped_state.
    + split; [|by apply linked_state].
      intros i. subst m3 a3. simpl. rewrite states_upd_state.
      unfold upd. case_decide; [done|].
      unfold states. rewrite Hst2. subst m1. rewrite nd_upd_node.
      case_decide; [done|]. apply Hst.
    + rewrite lvl_of_left by lia. lia.
    + apply (tree_inv_ext
               (upd (upd (upd (upd (a_state a) c USED) c INNER) (2 * c + 2) FREE) (2 * c + 1) USED)
               _ (a_free a3) _).
      * intros i. subst a3. simpl. unfold upd. by repeat case_decide.
      * done.
      * apply (tree_inv_split _ _ c Hinv); [apply upd_eq | done].
    + exists m'. split; [done|]. split; [done|]. split; [done|]. split; [done|].
      split; [done|]. split; [rewrite Hlock'; subst m3 m1; msimpl; by rewrite Hlock2|].
      split; [rewrite Hcon'; subst m3 m1; msimpl; by rewrite Hcon2|].
      intros j Hvj Hlj.
      destruct (Hfr' j Hvj) as [-> ->]; [rewrite lvl_of_left by lia; lia|].
      subst m3. rewrite nd_upd_node.
      assert (j <> (2 * c + 2)) as Hjr by (intros ->; lia).
      rewrite decide_False by done.
      rewrite Hfr2 by (done || lia). subst m1.
      rewrite nd_upd_node. by case_decide; subst.
Qed.

Lemma spec_split_props k : forall c a,
  valid c -> Z.of_nat k <= lvl_of c ->
  tree_inv (upd (a_state a) c USED) (a_free a) ->
  valid (spec_split k c a).2 /\
  lvl_of (spec_split k c a).2 = lvl_of c - Z.of_nat k /\
  mem_of (spec_split k c a).2 = mem_of c /\
  tree_inv (a_state (spec_split k c a).1) (a_free (spec_split k c a).1) /\
  (forall i, a_state (spec_split k c a).1 i = USED <->
             i = (spec_split k c a).2 \/ (i <> c /\ a_state a i = USED)).
Proof.
  induction k as [|k IH]; intros c a Hc Hk Hinv.
  - simpl. split; [done|]. split; [lia|]. split; [done|]. split; [done|].
    intros i. unfold upd. case_decide; [|tauto]. subst. tauto.
  - assert (0 <= c < HALF) as Hhalf.
    { pose proof (proj1 (lvl_of_pos c Hc)). zlia. }
    assert (valid (2 * c + 1) /\ valid (2 * c + 2)) as [Hvl Hvr] by zlia.
    pose proof (ti_left _ _ Hinv c Hhalf) as HL.
    pose proof (ti_right _ _ Hinv c Hhalf) as HR.
    rewrite upd_eq in HL, HR.
    rewrite upd_ne in HL by lia. rewrite upd_ne in HR by lia.
    assert (a_state a (2 * c + 1) = NONEXISTENT) as Hl0 by (consts; lia).
    assert (a_state a (2 * c + 2) = NONEXISTENT) as Hr0 by (consts; lia).
    clear HL HR.
    cbn [spec_split].
    set (a3 := mk_astate (upd (upd (a_state a) c INNER) (2 * c + 2) FREE)
                         (upd (a_free a) (lvl_of (2 * c + 2))
                              ((2 * c + 2) :: a_free a (lvl_of (2 * c + 2))))).
    destruct (IH (2 * c + 1) a3) as (H1 & H2 & H3 & H4 & H5).
    + done.
    + rewrite lvl_of_left by lia. lia.
    + apply (tree_inv_ext
               (upd (upd (upd (upd (a_state a) c USED) c INNER) (2 * c + 2) FREE) (2 * c + 1) USED)
               _ (a_free a3) _).
      * intros i. subst a3. simpl. unfold upd. by repeat case_decide.
      * done.
      * apply (tree_inv_split _ _ c Hinv); [apply upd_eq | done].
    + split; [done|]. split; [rewrite H2, lvl_of_left by lia; lia|].
      split; [rewrite H3; apply mem_of_left; [lia | done]|].
      split; [done|].
      intros i. rewrite H5. subst a3. simpl. clear IH H1 H2 H3 H4 H5 Hinv. unfold upd.
      repeat case_decide; subst; consts; rewrite ?Hl0, ?Hr0; intuition (try lia; try congruence).
Qed.

Lemma spec_find_some k : forall l a sl,
  spec_find k l a = Some sl ->
  l <= sl < l + Z.of_nat k /\ a_free a sl <> [] /\
  forall j, l <= j < sl -> a_free a j = [].
Proof.
  induction k as [|k IH]; intros l a sl; simpl; [done|].
  destruct (a_free a l) eqn:Hfl.
  - intros Hf. apply IH in Hf as (H1 & H2 & H3).
    split; [lia|]. split; [done|]. intros j Hj.
    destruct (decide (j = l)) as [->|]; [done|]. apply H3. lia.
  - intros [= <-]. split; [lia|]. split; [by rewrite Hfl|]. intros j Hj. lia.
Qed.

Lemma spec_find_none k : forall l a,
  spec_find k l a = None -> forall j, l <= j < l + Z.of_nat k -> a_free a j = [].
Proof.
  induction k as [|k IH]; intros l a; simpl; [intros; lia|].
  destruct (a_free a l) eqn:Hfl; [|done].
  intros Hf j Hj. destruct (decide (j = l)) as [->|]; [done|].
  apply (IH (l + 1)); [done | lia].
Qed.

Lemma scan_find k : forall idx m a,
  linked m (a_free a) -> 0 <= idx -> idx + Z.of_nat k = DEPTH ->
  scan k idx m = Done (match spec_find k idx a with Some l => l | None => -1 end) m.
Proof.
  induction k as [|k IH]; intros idx m a Hlk Hidx Hk; [done|].
  simpl. mstep. destruct (proj1 Hlk idx) as (_ & _ & Hsz & _); [lia|].
  rewrite Hsz. destruct (a_free a idx) as [|x L]; simpl length.
  - change (Z.of_nat 0 >? 0) with false. cbv iota. apply IH; [done|lia|lia].
  - replace (Z.of_nat (S (length L)) >? 0) with true; [done|].
    symmetry. rewrite Z.gtb_ltb. apply Z.ltb_lt. lia.
Qed.

Lemma holds_log_lock o m a : holds m a -> holds (log_lock o m) a.
Proof. intros [H1 H2]. split; [exact H1|]. by apply (linked_ext m). Qed.

Lemma shaped_log_lock o m : shaped m -> shaped (log_lock o m).
Proof. intros H. exact H. Qed.

Lemma linked_log_lock o m fl : linked m fl -> linked (log_lock o m) fl.
Proof. by apply linked_ext. Qed.

Lemma buddy_alloc_reject n m :
  n <= 0 \/ 512 < n \/ (forall k, 0 <= k -> n <> 2 ^ k) ->
  buddy_alloc n m = Done 0 m.
Proof.
  intros Hn. unfold buddy_alloc.
  destruct ((n <=? 0) || (n >? 512)) eqn:Hb; [done|].
  apply orb_false_iff in Hb as [H1 H2].
  apply Z.leb_gt in H1. rewrite Z.gtb_ltb in H2. apply Z.ltb_ge in H2.
  destruct (round_up_valid n) as (l & -> & Hl & _ & Hne); [lia|].
  destruct (n =? 2 ^ l) eqn:Heq; [|done].
  apply Z.eqb_eq in Heq. exfalso.
  destruct Hn as [?|[?|Hn]]; [lia..|]. apply (Hn l); [lia | done].
Qed.

Lemma alloc_sim m a n level :
  shaped m -> holds m a -> tree_inv (a_state a) (a_free a) ->
  0 <= level <= 9 -> n = 2 ^ level ->
  match spec_alloc level a with
  | Some (a', c') =>
      exists m',
        buddy_alloc n m = Done (mem_of c') m' /\
        shaped m' /\ holds m' a' /\
        lock m' = Release :: Acquire :: lock m /\ console m' = console m /\
        (forall sl c0 rest,
           spec_find (Z.to_nat (DEPTH - level)) level a = Some sl ->
           a_free a sl = c0 :: rest ->
           prev (nd m' c0) = None /\ next (nd m' c0) = None)
  | None =>
      buddy_alloc n m =
      Done 0 (log_lock Release
                (log_console "cannot find a free node for allocation!"
                   (log_lock Acquire m)))
  end.
Proof.
  intros Hs Hh Hinv Hlevel Hn.
  assert (0 < n <= 512) as Hrange.
  { subst n. split; [apply Z.pow_pos_nonneg; lia|].
    change 512 with (2 ^ 9). apply Z.pow_le_mono_r; lia. }
  unfold buddy_alloc.
  replace ((n <=? 0) || (n >? 512)) with false.
  2:{ symmetry. apply orb_false_iff. split; [apply Z.leb_gt; lia|].
      rewrite Z.gtb_ltb. apply Z.ltb_ge. lia. }
  destruct (round_up_valid n Hrange) as (l & -> & Hl & Hlog & Hne).
  assert (l = level) as ->.
  { destruct (decide (n = 2 ^ l)) as [Heq|Hneq].
    - rewrite <- (Hlog Heq). subst n. apply Z.log2_pow2. lia.
    - exfalso. apply (Hne Hneq level); [lia | done]. }
  replace (n =? 2 ^ level) with true by (symmetry; by apply Z.eqb_eq).
  cbn [negb]. mstep.
  pose proof Hh as [Hst Hlk].
  erewrite bind_done;
    [|apply (scan_find _ _ _ a); [by apply linked_log_lock | lia | unfold DEPTH in *; lia]].
  unfold spec_alloc.
  destruct (spec_find (Z.to_nat (DEPTH - level)) level a) as [sl|] eqn:Hfind.
  - apply spec_find_some in Hfind as Hsl. destruct Hsl as (Hslr & Hne0 & Hmin).
    rewrite Z2Nat.id in Hslr by (unfold DEPTH; lia).
    replace (sl =? -1) with false by (symmetry; apply Z.eqb_neq; lia).
    destruct (a_free a sl) as [|c0 rest] eqn:Hfl; [done|].
    assert (0 <= sl < DEPTH) as Hslr' by lia.
    destruct (proj1 Hlk sl Hslr') as (Hhd & _ & _ & Hnd & Hmem).
    rewrite Hfl in Hhd, Hnd, Hmem.
    destruct (Hmem c0) as [Hvc0 Hlc0]; [by left|].
    mstep. rewrite Hhd. simpl head.
    destruct (linked_unlink (log_lock Acquire m) (a_free a) sl [] c0 rest)
      as (m1 & Hrun1 & Hs1 & Hlk1 & Hst1 & Hlock1 & Hcon1 & Hpv1 & Hnx1 & Hfr1);
      [done | by apply linked_log_lock | done | done |].
    rewrite (bind_done _ _ _ _ _ Hrun1). simpl app in Hlk1.
    set (a1 := mk_astate (a_state a) (upd (a_free a) sl rest)).
    assert (tree_inv (upd (a_state a1) c0 USED) (a_free a1)) as Hinv1.
    { apply (tree_inv_take _ _ sl [] c0 rest Hinv); [done | done | by rewrite Hfl]. }
    destruct (split_sim (Z.to_nat (sl - level)) FUEL c0 m1 a1 level)
      as (m2 & Hrun2 & Hs2 & Hlk2 & Hst2 & Hinv2 & Hlock2 & Hcon2 & Hfr2);
      [fuel_lia | done | | done | lia | lia | done |].
    { split; [|done]. intros i. unfold states. rewrite Hst1. apply Hst. }
    rewrite (bind_done _ _ _ _ _ Hrun2).
    destruct (spec_split_props (Z.to_nat (sl - level)) c0 a1) as (Hvc' & Hlc' & Hmc' & _ & _);
      [done | lia | done |].
    destruct (spec_split (Z.to_nat (sl - level)) c0 a1) as [a' c'] eqn:Hsplit.
    simpl in *.
    mstep. mstep. mstep.
    destruct (shaped_fields m2 c' Hs2 Hvc') as (_ & _ & _ & _ & _ & _ & _ & Hmem').
    rewrite Hmem'.
    eexists. split; [reflexivity|].
    split; [by apply shaped_log_lock, shaped_state|].
    split.
    { apply holds_log_lock. split; [|by apply linked_state].
      intros i. rewrite states_upd_state. apply Hst2. }
    split; [msimpl; by rewrite Hlock2, Hlock1|].
    split; [msimpl; by rewrite Hcon2, Hcon1|].
    intros sl' c0' rest' [= <-] Hfl'. rewrite Hfl in Hfl'. injection Hfl' as <- <-.
    rewrite !nd_log_lock, nd_upd_node.
    destruct (Hfr2 c0 Hvc0) as [Hp Hx]; [lia|].
    case_decide; subst; fields; by rewrite ?Hp, ?Hx.
  - replace (-1 =? -1) with true by done.
    mstep. mstep. done.
Qed.

(** ** Subtrees and their blocks *)

Lemma desc_le c u : 0 <= c -> desc c u -> c <= u.
Proof. intros Hc Hd. induction Hd; lia. Qed.

Lemma desc_trans a b c : desc a b -> desc b c -> desc a c.
Proof.
  intros Hab Hbc. induction Hab; [done | apply desc_left | apply desc_right]; auto.
Qed.

Lemma desc_root u : 0 <= u -> desc 0 u.
Proof.
  intros Hu. pattern u. apply Zlt_0_ind; [|done].
  clear u Hu. intros u IH Hu.
  destruct (decide (u = 0)) as [->|Hne]; [apply desc_refl|].
  destruct (parent_of_cases u) as [Hp Hcase]; [lia|].
  apply (desc_trans _ (parent_of u)); [apply IH; lia|].
  destruct Hcase as [Hc|Hc]; rewrite Hc at 2;
    [apply desc_left | apply desc_right]; apply desc_refl.
Qed.

Lemma PGSIZE_pos : 0 < PGSIZE.
Proof. done. Qed.

(** The block of a node lies inside the block of each of its ancestors. *)
Lemma desc_block c u :
  desc c u -> 0 <= c -> valid u ->
  mem_of c <= mem_of u /\
  mem_of u + size_of u * PGSIZE <= mem_of c + size_of c * PGSIZE.
Proof.
  intros Hd. induction Hd as [c | c u Hd IH | c u Hd IH]; intros Hc Hu; [lia| |].
  - assert (valid (2 * c + 1)) as Hv by (apply desc_le in Hd; zlia).
    destruct IH as [H1 H2]; [lia | done |].
    rewrite mem_of_left in H1, H2 by (done || lia).
    rewrite (size_of_parent c (2 * c + 1)) by (done || (apply lvl_of_left; lia)).
    pose proof (size_of_pos _ Hv). pose proof PGSIZE_pos. nia.
  - assert (valid (2 * c + 2)) as Hv by (apply desc_le in Hd; zlia).
    destruct IH as [H1 H2]; [lia | done |].
    rewrite mem_of_right in H1, H2 by (done || lia).
    rewrite (size_of_parent c (2 * c + 2)) by (done || (apply lvl_of_right; lia)).
    pose proof (size_of_pos _ Hv). pose proof PGSIZE_pos. nia.
Qed.

(** Every proper ancestor of a node that exists is an inner node. *)
Lemma desc_inner s fl c u :
  tree_inv s fl -> desc c u -> 0 <= c -> valid u -> c <> u ->
  s u <> NONEXISTENT -> s c = INNER.
Proof.
  intros Hinv Hd. induction Hd as [c | c u Hd IH | c u Hd IH]; intros Hc Hu Hne Hsu; [done| |].
  - assert (0 <= c < HALF) as Hh by (apply desc_le in Hd; zlia).
    apply (ti_left _ _ Hinv c Hh).
    destruct (decide (2 * c + 1 = u)) as [->|Hne']; [done|].
    rewrite IH; [done | lia | done | done | done].
  - assert (0 <= c < HALF) as Hh by (apply desc_le in Hd; zlia).
    apply (ti_right _ _ Hinv c Hh).
    destruct (decide (2 * c + 2 = u)) as [->|Hne']; [done|].
    rewrite IH; [done | lia | done | done | done].
Qed.

(** The descent finds the used node whose block contains the address. *)
Lemma spec_locate_used s fl pa u k : forall c,
  tree_inv s fl -> valid u -> s u = USED ->
  mem_of u <= pa < mem_of u + size_of u * PGSIZE ->
  desc c u -> 0 <= c -> lvl_of c < Z.of_nat k ->
  spec_locate k pa c s = u.
Proof.
  induction k as [|k IH]; intros c Hinv Hu Hsu Hpa Hd Hc Hk.
  - assert (valid c) as Hvc by (apply desc_le in Hd; zlia).
    apply lvl_of_range in Hvc. lia.
  - simpl. destruct (decide (c = u)) as [->|Hne].
    + rewrite decide_False; [done|]. rewrite Hsu. done.
    + assert (s c = INNER) as Hsc.
      { eapply desc_inner; eauto. rewrite Hsu. done. }
      rewrite decide_True by done.
      assert (0 <= c < HALF) as Hh.
      { assert (valid c) as Hvc by (apply desc_le in Hd; zlia).
        pose proof (ti_leaf _ _ Hinv c). zlia. }
      assert (valid (2 * c + 1) /\ valid (2 * c + 2)) as [Hvl Hvr] by zlia.
      pose proof (size_of_pos _ Hvl) as Hszl.
      assert (mem_of (2 * c + 1) + size_of (2 * c + 1) * PGSIZE = mem_of (2 * c + 2)) as Hmid.
      { rewrite mem_of_left, mem_of_right by (done || lia).
        unfold size_of. rewrite lvl_of_left, lvl_of_right by lia. done. }
      inversion Hd as [| c' u' Hd' | c' u' Hd']; subst; [done| |].
      * destruct (desc_block _ _ Hd') as [H1 H2]; [lia | done |].
        rewrite decide_True by lia.
        apply IH; try done; [lia|]. rewrite lvl_of_left by lia. lia.
      * destruct (desc_block _ _ Hd') as [H1 H2]; [lia | done |].
        rewrite decide_False by lia.
        apply IH; try done; [lia|]. rewrite lvl_of_right by lia. lia.
Qed.

(** ** Release *)

Lemma descend_sim pa m s k : forall c,
  shaped m -> (forall i, states m i = s i) ->
  (forall i, HALF <= i < NODES -> s i <> INNER) ->
  valid c -> lvl_of c < Z.of_nat k ->
  descend k pa (Some c) m = Done (Some (spec_locate k pa c s)) m /\
  valid (spec_locate k pa c s) /\ s (spec_locate k pa c s) <> INNER.
Proof.
  induction k as [|k IH]; intros c Hs Hst Hleaf Hc Hk.
  - apply lvl_of_range in Hc. lia.
  - simpl. mstep. fold (states m c). rewrite Hst.
    destruct (decide (s c = INNER)) as [Hin|Hin].
    + rewrite Hin. change (INNER =? 2) with true. cbv iota.
      assert (0 <= c < HALF) as Hh by (pose proof (Hleaf c); zlia).
      destruct (shaped_children m c) as (Hlc & Hrc & Hvl & Hvr & _);
        [done | done | apply lvl_of_pos; [done | lia] |].
      mstep. rewrite Hrc. mstep.
      destruct (shaped_fields m (2 * c + 2) Hs Hvr) as (_ & _ & _ & _ & _ & _ & _ & Hmem).
      rewrite Hmem.
      destruct (decide (pa < mem_of (2 * c + 2))) as [Hlt|Hge].
      * replace (mem_of (2 * c + 2) >? pa) with true
          by (symmetry; rewrite Z.gtb_ltb; by apply Z.ltb_lt).
        mstep. rewrite Hlc. apply IH; try done. rewrite lvl_of_left by lia. lia.
      * replace (mem_of (2 * c + 2) >? pa) with false
          by (symmetry; rewrite Z.gtb_ltb; apply Z.ltb_ge; lia).
        mstep. rewrite Hrc. apply IH; try done. rewrite lvl_of_right by lia. lia.
    + replace (s c =? 2) with false by (symmetry; by apply Z.eqb_neq).
      done.
Qed.

Lemma filter_all (P : Z -> Prop) `{!forall x, Decision (P x)} (L : list Z) :
  (forall x, x ∈ L -> P x) -> filter P L = L.
Proof.
  induction L as [|x L IH]; intros HP; [done|].
  rewrite filter_cons_True by (apply HP; by left).
  f_equal. apply IH. intros y Hy. apply HP. by right.
Qed.

Lemma filter_remove_mid (b : Z) L1 L2 :
  NoDup (L1 ++ b :: L2) -> filter (fun x => x <> b) (L1 ++ b :: L2) = L1 ++ L2.
Proof.
  intros Hnd. apply NoDup_app in Hnd as (_ & Hdisj & Hnd2).
  apply NoDup_cons in Hnd2 as [Hb _].
  rewrite filter_app, filter_cons_False by (intros H; by apply H).
  f_equal.
  - apply filter_all. intros x Hx ->. eapply Hdisj; [done|]. by left.
  - apply filter_all. by intros x Hx ->.
Qed.

Lemma nb_props c :
  1 <= c < NODES ->
  0 <= parent_of c < HALF /\ valid (nb_of c) /\ nb_of c <> c /\
  (c = 2 * parent_of c + 1 /\ nb_of c = 2 * parent_of c + 2 \/
   c = 2 * parent_of c + 2 /\ nb_of c = 2 * parent_of c + 1) /\
  lvl_of (nb_of c) = lvl_of c /\ lvl_of (parent_of c) = lvl_of c + 1.
Proof.
  intros Hc. destruct (parent_of_cases c) as [Hp Hcase]; [lia|].
  set (p := parent_of c) in *. clearbody p.
  destruct Hcase as [-> | ->].
  - rewrite nb_of_left, lvl_of_left, lvl_of_right by lia.
    repeat split; zlia.
  - rewrite nb_of_right, lvl_of_left, lvl_of_right by lia.
    repeat split; zlia.
Qed.

Lemma coalesce_sim k : forall c m a,
  shaped m -> holds m a -> valid c ->
  tree_inv (upd (a_state a) c USED) (a_free a) ->
  DEPTH - 1 - lvl_of c < Z.of_nat k ->
  exists m',
    coalesce k (Some c) m = Done (Some (spec_coalesce k c a).2) m' /\
    shaped m' /\ holds m' (spec_coalesce k c a).1 /\
    tree_inv (upd (a_state (spec_coalesce k c a).1) (spec_coalesce k c a).2 USED)
             (a_free (spec_coalesce k c a).1) /\
    valid (spec_coalesce k c a).2 /\
    ((spec_coalesce k c a).2 = 0 \/
     a_state (spec_coalesce k c a).1 (nb_of (spec_coalesce k c a).2) <> FREE) /\
    lock m' = lock m /\ console m' = console m /\
    (forall i, i <> (spec_coalesce k c a).2 ->
       (a_state (spec_coalesce k c a).1 i = USED <-> i <> c /\ a_state a i = USED)) /\
    ((spec_coalesce k c a).2 = c \/ a_state a (spec_coalesce k c a).2 = INNER).
Proof.
  induction k as [|k IH]; intros c m a Hs [Hst Hlk] Hc Hinv Hk.
  - pose proof (lvl_of_range c Hc). lia.
  - destruct (shaped_fields m c Hs Hc) as (Hid & _ & _ & _ & _ & Hpar & Hnb & _).
    cbn [coalesce spec_coalesce]. mstep. rewrite Hid.
    destruct (decide (c = 0)) as [->|Hc0].
    { change (0 =? 0) with true. cbv iota.
      rewrite decide_False by tauto. simpl.
      exists m. split; [done|]. split; [done|]. split; [by split|]. split; [done|].
      split; [done|]. split; [by left|]. split; [done|]. split; [done|].
      split; [tauto | by left]. }
    replace (c =? 0) with false in * by (symmetry; by apply Z.eqb_neq).
    destruct (nb_props c) as (Hp & Hvb & Hbc & Hside & Hlb & Hlp); [zlia|].
    mstep. rewrite Hnb. mstep. fold (states m (nb_of c)). rewrite Hst.
    destruct (decide (a_state a (nb_of c) = FREE)) as [Hfree|Hnfree].
    2:{ replace (a_state a (nb_of c) =? 3) with false by (symmetry; by apply Z.eqb_neq).
        rewrite decide_False by tauto. simpl.
        exists m. split; [done|]. split; [done|]. split; [by split|]. split; [done|].
        split; [done|]. split; [by right|]. split; [done|]. split; [done|].
        split; [tauto | by left]. }
    rewrite Hfree. change (FREE =? 3) with true. cbv iota.
    rewrite decide_True by done.
    remember (nb_of c) as b eqn:Hbdef. remember (parent_of c) as p eqn:Hpdef.
    (* the buddy sits on the list of its level *)
    assert (0 <= lvl_of b < DEPTH) as Hlbr by (apply lvl_of_range in Hvb; lia).
    assert (b ∈ a_free a (lvl_of b)) as Hbin.
    { apply (ti_free _ _ Hinv (lvl_of b) b Hlbr). rewrite upd_ne by done. done. }
    apply list_elem_of_split in Hbin as (L1 & L2 & Hfl).
    destruct (proj1 Hlk (lvl_of b) Hlbr) as (_ & _ & _ & Hnd & _).
    mstep. mstep. rewrite Hnb. mstep. mstep. rewrite Hnb.
    set (m2 := upd_node b (with_state 0) (upd_node c (with_state 0) m)).
    assert (shaped m2) as Hs2 by (by do 2 apply shaped_state).
    assert (linked m2 (a_free a)) as Hlk2 by (by do 2 apply linked_state).
    destruct (linked_unlink m2 (a_free a) (lvl_of b) L1 b L2)
      as (m3 & Hrun3 & Hs3 & Hlk3 & Hst3 & Hlock3 & Hcon3 & _ & _ & _); [done..|].
    rewrite (bind_done _ _ _ _ _ Hrun3).
    destruct (shaped_fields m3 c Hs3 Hc) as (_ & _ & _ & _ & _ & Hpar3 & _).
    replace (c =? 0) with false in * by (symmetry; by apply Z.eqb_neq).
    mstep. rewrite Hpar3, <- Hpdef.
    rewrite Hfl, filter_remove_mid by (by rewrite <- Hfl).
    set (a1 := mk_astate (upd (upd (a_state a) c NONEXISTENT) b NONEXISTENT)
                         (upd (a_free a) (lvl_of b) (L1 ++ L2))).
    assert (tree_inv (upd (a_state a1) p USED) (a_free a1)) as Hinv1.
    { apply (tree_inv_ext
               (upd (upd (upd (upd (a_state a) c USED) c NONEXISTENT) b NONEXISTENT) p USED)
               _ (upd (a_free a) (lvl_of b) (L1 ++ L2)) _).
      - intros i. subst a1. simpl. unfold upd. by repeat case_decide.
      - done.
      - apply (tree_inv_merge _ _ p c b L1 L2 Hinv); try done.
        + apply upd_eq.
        + by rewrite upd_ne. }
    destruct (IH p m3 a1)
      as (m' & Hrun & Hs' & Hh' & Hinv' & Hv' & Hstop & Hlock' & Hcon' & Hused & Hanc);
      [done | | zlia | done | lia |].
    { split; [|done]. intros i. unfold states. rewrite Hst3. subst m2 a1. simpl.
      rewrite !nd_upd_node. unfold upd.
      repeat case_decide; subst; fields; try done. apply Hst. }
    exists m'. split; [done|]. split; [done|]. split; [done|]. split; [done|].
    split; [done|]. split; [done|].
    split; [rewrite Hlock', Hlock3; subst m2; by msimpl|].
    split; [rewrite Hcon', Hcon3; subst m2; by msimpl|].
    assert (a_state a p = INNER) as Hsp.
    { pose proof (ti_left _ _ Hinv p Hp) as HL. pose proof (ti_right _ _ Hinv p Hp) as HR.
      revert HL HR. unfold upd. clear - Hside Hp.
      destruct Hside as [[-> _]|[-> _]]; repeat case_decide; consts; lia. }
    split.
    + intros i Hi. rewrite (Hused i Hi). subst a1. simpl.
      clear - Hsp Hfree Hbc Hp Hside. unfold upd.
      destruct Hside as [[-> ->]|[-> ->]];
        repeat case_decide; subst; consts; intuition (try lia; try congruence).
    + right. destruct Hanc as [->|Hanc]; [done|].
      revert Hanc. subst a1. simpl. unfold upd.
      repeat case_decide; consts; (done || lia).
Qed.

Lemma release_sim m a c :
  shaped m -> holds m a -> valid c ->
  tree_inv (upd (a_state a) c USED) (a_free a) ->
  (c = 0 \/ a_state a (nb_of c) <> FREE) ->
  exists m',
    (add_free_node (Some c);; store (with_state 3) (Some c);; release) m = Done tt m' /\
    shaped m' /\ holds m' (spec_release c a) /\
    tree_inv (a_state (spec_release c a)) (a_free (spec_release c a)) /\
    lock m' = Release :: lock m /\ console m' = console m.
Proof.
  intros Hs [Hst Hlk] Hc Hinv Hstop.
  assert (0 <= lvl_of c < DEPTH) as Hlc by (apply lvl_of_range in Hc; lia).
  assert (c ∉ a_free a (lvl_of c)) as Hnotin.
  { intros Hin. apply (ti_free _ _ Hinv (lvl_of c) c Hlc) in Hin as (_ & Hfree & _).
    rewrite upd_eq in Hfree. done. }
  destruct (linked_push m (a_free a) c Hs Hlk Hc Hnotin)
    as (m1 & Hrun1 & Hs1 & Hlk1 & Hst1 & Hlock1 & Hcon1 & _).
  rewrite (bind_done _ _ _ _ _ Hrun1). mstep. unfold release.
  eexists. split; [reflexivity|].
  split; [by apply shaped_log_lock, shaped_state|].
  split.
  { apply holds_log_lock. split; [|by apply linked_state].
    intros i. rewrite states_upd_state. simpl. unfold upd.
    case_decide; [done|]. unfold states. rewrite Hst1. apply Hst. }
  split.
  { simpl. apply (tree_inv_ext (upd (upd (a_state a) c USED) c FREE) _
                    (upd (a_free a) (lvl_of c) (c :: a_free a (lvl_of c))) _).
    - intros i. unfold upd. by repeat case_decide.
    - done.
    - apply tree_inv_release; [done | done | apply upd_eq |].
      destruct Hstop as [->|Hnf]; [by left|].
      destruct (decide (c = 0)) as [->|Hc0]; [by left|]. right.
      rewrite upd_ne; [done|]. destruct (nb_props c) as (_ & _ & ? & _); [zlia | done]. }
  split; [msimpl; by rewrite Hlock1 | msimpl; by rewrite Hcon1].
Qed.

Lemma free_sim m a pa :
  shaped m -> holds m a -> tree_inv (a_state a) (a_free a) ->
  if bad_address pa then buddy_free pa m = Panic "buddy_free" m
  else match spec_free pa a with
       | Some a' =>
           exists m',
             buddy_free pa m = Done tt m' /\ shaped m' /\ holds m' a' /\
             tree_inv (a_state a') (a_free a') /\
             lock m' = Release :: Acquire :: lock m /\ console m' = console m /\
             (forall i, a_state a' i = USED <->
                        i <> spec_locate FUEL pa 0 (a_state a) /\ a_state a i = USED)
       | None => buddy_free pa m = Panic "buddy_free" (log_lock Acquire m)
       end.
Proof.
  intros Hs Hh Hinv. unfold buddy_free. fold (bad_address pa).
  destruct (bad_address pa); [done|].
  pose proof Hh as [Hst Hlk].
  mstep.
  destruct (descend_sim pa (log_lock Acquire m) (a_state a) FUEL 0)
    as (Hrun & Hvc & Hnin); [by apply shaped_log_lock | done | apply Hinv | zlia | |].
  { rewrite lvl_of_root. fuel_lia. }
  rewrite (bind_done _ _ _ _ _ Hrun).
  unfold spec_free.
  set (c := spec_locate FUEL pa 0 (a_state a)) in *. clearbody c.
  destruct (shaped_fields m c Hs Hvc) as (Hid & _ & _ & _ & _ & _ & _ & Hmem).
  mstep. mstep. fold (states m c). rewrite Hst, Hmem.
  destruct (decide (a_state a c = USED /\ mem_of c = pa)) as [[Hused Hpa]|Hno].
  - rewrite Hused, Hpa, (Z.eqb_refl pa). change (USED =? 1) with true. cbn [negb orb].
    mstep. rewrite Hid.
    assert (tree_inv (upd (a_state a) c USED) (a_free a)) as Hinv0.
    { apply (tree_inv_ext (a_state a) _ (a_free a) _); [|done|done].
      intros i. unfold upd. case_decide; by subst. }
    destruct (decide (c = 0)) as [Hc0|Hc0].
    + rewrite Hc0. change (0 =? 0) with true. cbv iota.
      assert (spec_coalesce FUEL 0 a = (a, 0)) as ->.
      { assert (exists f, FUEL = S f) as [f ->] by (rewrite FUEL_eq; by exists 63%nat).
        cbn [spec_coalesce]. rewrite decide_False by tauto. done. }
      simpl. rewrite <- Hc0.
      destruct (release_sim (log_lock Acquire m) a c) as (m' & Hrun' & Hs' & Hh' & Hinv' & Hlock' & Hcon');
        [by apply shaped_log_lock | by apply holds_log_lock | done | done | by left |].
      exists m'. rewrite Hc0 in *. split; [done|]. split; [done|]. split; [done|].
      split; [done|]. split; [done|]. split; [done|].
      intros i. simpl. unfold upd. clear - Hused.
      case_decide; subst; consts; intuition (try lia; try congruence).
    + replace (c =? 0) with false by (symmetry; by apply Z.eqb_neq).
      destruct (coalesce_sim FUEL c (log_lock Acquire m) a)
        as (m1 & Hrun1 & Hs1 & Hh1 & Hinv1 & Hv1 & Hstop1 & Hlock1 & Hcon1 & Hkeep & Hanc);
        [by apply shaped_log_lock | by apply holds_log_lock | done | done | |].
      { pose proof (lvl_of_range c Hvc). fuel_lia. }
      rewrite (bind_done _ _ _ _ _ Hrun1).
      destruct (release_sim m1 _ _ Hs1 Hh1 Hv1 Hinv1 Hstop1)
        as (m' & Hrun' & Hs' & Hh' & Hinv' & Hlock' & Hcon').
      exists m'. split; [done|]. split; [done|]. split; [done|]. split; [done|].
      split; [by rewrite Hlock', Hlock1|]. split; [by rewrite Hcon', Hcon1|].
      intros i. simpl. unfold upd. case_decide as Hi.
      * subst i. clear - Hanc Hused.
        destruct Hanc as [->|Hanc]; consts; intuition (try lia; try congruence).
      * by apply Hkeep.
  - replace (negb (a_state a c =? 1) || negb (mem_of c =? pa)) with true; [done|].
    symmetry. apply orb_true_iff.
    destruct (decide (a_state a c = USED)) as [Hu|Hu].
    + right. apply negb_true_iff, Z.eqb_neq. tauto.
    + left. apply negb_true_iff, Z.eqb_neq. done.
Qed.

(** ** The invariant *)

(** Two used nodes whose blocks share an address are the same node. *)
Lemma used_unique s fl u1 u2 pa :
  tree_inv s fl -> valid u1 -> valid u2 -> s u1 = USED -> s u2 = USED ->
  mem_of u1 <= pa < mem_of u1 + size_of u1 * PGSIZE ->
  mem_of u2 <= pa < mem_of u2 + size_of u2 * PGSIZE ->
  u1 = u2.
Proof.
  intros Hinv Hv1 Hv2 Hs1 Hs2 Hp1 Hp2.
  assert (lvl_of 0 < Z.of_nat FUEL) as Hfuel by (rewrite lvl_of_root; fuel_lia).
  assert (spec_locate FUEL pa 0 s = u1) as <-.
  { apply (spec_locate_used s fl pa u1 FUEL 0); try done. apply desc_root. zlia. }
  apply (spec_locate_used s fl pa u2 FUEL 0); try done. apply desc_root. zlia.
Qed.

Lemma spec_split_desc k : forall c a, desc c (spec_split k c a).2.
Proof.
  induction k as [|k IH]; intros c a; [apply desc_refl|].
  cbn [spec_split]. apply desc_left. apply IH.
Qed.

Lemma spec_alloc_props level a a' c' :
  tree_inv (a_state a) (a_free a) ->
  (forall l, 0 <= l < DEPTH -> NoDup (a_free a l)) ->
  0 <= level < DEPTH ->
  spec_alloc level a = Some (a', c') ->
  tree_inv (a_state a') (a_free a') /\ valid c' /\ lvl_of c' = level /\
  (forall i, a_state a' i = USED <-> i = c' \/ a_state a i = USED) /\
  a_state a c' <> USED /\
  exists sl c0 rest,
    spec_find (Z.to_nat (DEPTH - level)) level a = Some sl /\
    level <= sl < DEPTH /\
    a_free a sl = c0 :: rest /\ mem_of c' = mem_of c0 /\
    (a', c') = spec_split (Z.to_nat (sl - level)) c0
                 (mk_astate (a_state a) (upd (a_free a) sl rest)).
Proof.
  intros Hinv Hnd Hlevel. unfold spec_alloc.
  destruct (spec_find (Z.to_nat (DEPTH - level)) level a) as [sl|] eqn:Hfind; [|done].
  apply spec_find_some in Hfind as Hsl. destruct Hsl as (Hslr & _ & _).
  rewrite Z2Nat.id in Hslr by lia.
  destruct (a_free a sl) as [|c0 rest] eqn:Hfl; [done|].
  intros [= Hsplit].
  assert (0 <= sl < DEPTH) as Hslr' by lia.
  assert (valid c0 /\ a_state a c0 = FREE /\ lvl_of c0 = sl) as (Hvc0 & Hsc0 & Hlc0).
  { apply (ti_free _ _ Hinv sl c0 Hslr'). rewrite Hfl. by left. }
  set (a1 := mk_astate (a_state a) (upd (a_free a) sl rest)) in *.
  assert (tree_inv (upd (a_state a1) c0 USED) (a_free a1)) as Hinv1.
  { apply (tree_inv_take _ _ sl [] c0 rest Hinv); [done | done |]. by apply Hnd. }
  destruct (spec_split_props (Z.to_nat (sl - level)) c0 a1) as (Hvc' & Hlc' & Hmc' & Hinv' & Hused);
    [done | lia | done |].
  pose proof (spec_split_desc (Z.to_nat (sl - level)) c0 a1) as Hdesc.
  rewrite Hsplit in *. simpl in *.
  assert (a_state a c' <> USED) as Hnew.
  { intros Hu. destruct (decide (c0 = c')) as [<-|Hne].
    - rewrite Hsc0 in Hu. done.
    - assert (a_state a c0 = INNER) as Hi.
      { apply (desc_inner _ _ c0 c' Hinv); try done; [zlia|]. rewrite Hu. done. }
      rewrite Hsc0 in Hi. done. }
  split; [done|]. split; [done|]. split; [lia|]. split.
  { intros i. rewrite Hused. split.
    - intros [->|[_ Hi]]; [by left | by right].
    - intros [->|Hi]; [by left|].
      destruct (decide (i = c')) as [->|Hic]; [by left|].
      right. split; [|done]. intros ->. rewrite Hsc0 in Hi. done. }
  split; [done|].
  exists sl, c0, rest. repeat split; (done || lia).
Qed.

Lemma good_init m0 m : buddy_init m0 = Done tt m -> good m [].
Proof.
  intros Hrun.
  destruct (buddy_init_post m0) as (m1 & Hrun1 & Hs & Hst & Hls & _).
  rewrite Hrun in Hrun1. injection Hrun1 as <-.
  split; [done|].
  exists (fun l => if decide (l = DEPTH - 1) then [0] else []).
  assert (forall i, valid i -> states m i = if i =? 0 then FREE else NONEXISTENT) as Hst'.
  { intros i Hi. by destruct (Hst i Hi) as (? & _). }
  split; [|split; [|split]].
  - split; [|intros j Hj _; by destruct (Hst j Hj) as (_ & ? & ?)].
    intros l Hl. destruct (Hls l Hl) as [Hl1 Hl2]. rewrite Hl1, Hl2.
    case_decide as Hd.
    + subst l. rewrite Z.eqb_refl.
      destruct (Hst 0) as (_ & Hp & Hn); [zlia|].
      split; [done|]. split; [simpl; by rewrite Hp, Hn|]. split; [done|].
      split; [apply NoDup_singleton|].
      intros i ->%list_elem_of_singleton. split; [zlia | apply lvl_of_root].
    + replace (l =? DEPTH - 1) with false by (symmetry; by apply Z.eqb_neq).
      split; [done|]. split; [done|]. split; [done|]. split; [apply NoDup_nil_2|].
      intros i Hi. by apply elem_of_nil in Hi.
  - constructor.
    + rewrite Hst' by zlia. done.
    + intros p Hp. rewrite !Hst' by zlia.
      replace (2 * p + 1 =? 0) with false by (symmetry; apply Z.eqb_neq; lia).
      destruct (p =? 0); done.
    + intros p Hp. rewrite !Hst' by zlia.
      replace (2 * p + 2 =? 0) with false by (symmetry; apply Z.eqb_neq; lia).
      destruct (p =? 0); done.
    + intros i Hi. rewrite Hst' by zlia. destruct (i =? 0); done.
    + intros p Hp. rewrite !Hst' by zlia.
      replace (2 * p + 1 =? 0) with false by (symmetry; apply Z.eqb_neq; lia).
      intros [? _]. done.
    + intros l i Hl. case_decide as Hd.
      * subst l. rewrite list_elem_of_singleton. split.
        -- intros ->. rewrite Hst' by zlia. repeat split; try done; zlia.
        -- intros (Hv & Hf & _). rewrite Hst' in Hf by done.
           destruct (Z.eqb_spec i 0); done.
      * split; [by intros ?%elem_of_nil|].
        intros (Hv & Hf & Hlv). rewrite Hst' in Hf by done.
        destruct (Z.eqb_spec i 0) as [->|]; [|done]. rewrite lvl_of_root in Hlv. done.
  - intros i Hi Hu. rewrite Hst' in Hu by done. destruct (i =? 0); done.
  - split; [apply NoDup_nil_2|]. intros a n Hin. by apply elem_of_nil in Hin.
Qed.

Lemma holds_self m fl : linked m fl -> holds m (mk_astate (states m) fl).
Proof. intros Hlk. split; [done | done]. Qed.

(** The three ways a call of [buddy_alloc] can go. *)
Lemma alloc_cases m n fl :
  shaped m -> linked m fl -> tree_inv (states m) fl ->
  ((n <= 0 \/ 512 < n \/ (forall k, 0 <= k -> n <> 2 ^ k)) /\
   buddy_alloc n m = Done 0 m) \/
  (exists level,
     0 <= level <= 9 /\ n = 2 ^ level /\
     spec_alloc level (mk_astate (states m) fl) = None /\
     buddy_alloc n m =
     Done 0 (log_lock Release
               (log_console "cannot find a free node for allocation!"
                  (log_lock Acquire m)))) \/
  (exists level a' c' m',
     0 <= level <= 9 /\ n = 2 ^ level /\
     spec_alloc level (mk_astate (states m) fl) = Some (a', c') /\
     buddy_alloc n m = Done (mem_of c') m' /\
     shaped m' /\ holds m' a' /\
     lock m' = Release :: Acquire :: lock m /\ console m' = console m /\
     (forall sl c0 rest,
        spec_find (Z.to_nat (DEPTH - level)) level (mk_astate (states m) fl) = Some sl ->
        fl sl = c0 :: rest ->
        prev (nd m' c0) = None /\ next (nd m' c0) = None)).
Proof.
  intros Hs Hlk Hinv.
  destruct (decide (0 < n <= 512)) as [Hn|Hn].
  2:{ left. split; [lia|]. apply buddy_alloc_reject. lia. }
  destruct (round_up_valid n Hn) as (l & _ & Hl & Hlog & Hne).
  destruct (decide (n = 2 ^ l)) as [Heq|Hneq].
  2:{ left. split; [by auto|]. apply buddy_alloc_reject. by auto. }
  right.
  pose proof (alloc_sim m (mk_astate (states m) fl) n l Hs (holds_self m fl Hlk) Hinv Hl Heq) as Hsim.
  destruct (spec_alloc l (mk_astate (states m) fl)) as [[a' c']|] eqn:Hspec.
  - right. destruct Hsim as (m' & Hrun & Hs' & Hh' & Hlock & Hcon & Hc0).
    exists l, a', c', m'. done.
  - left. exists l. done.
Qed.

Lemma linked_NoDup m fl l : linked m fl -> 0 <= l < DEPTH -> NoDup (fl l).
Proof. intros Hlk Hl. by destruct (proj1 Hlk l Hl) as (_ & _ & _ & ? & _). Qed.

Lemma tracked_weaken s s' out :
  (forall u, valid u -> s u = USED -> s' u = USED) -> tracked s out -> tracked s' out.
Proof.
  intros Hmono [Hnd Hin]. split; [done|].
  intros a n Han. destruct (Hin a n Han) as (Ha & u & Hv & Hu & Hm & Hsz).
  split; [done|]. exists u. auto.
Qed.

Lemma good_log m out m' :
  (forall j, nd m' j = nd m j) -> lists m' = lists m -> sizes m' = sizes m ->
  good m out -> good m' out.
Proof.
  intros Hnd Hl Hsz (Hs & fl & Hlk & Hinv & Hcap & Htr).
  assert (forall i, states m' i = states m i) as Hst by (intros i; unfold states; by rewrite Hnd).
  split.
  - apply (shaped_ext m); [|done]. intros j _. by rewrite Hnd.
  - exists fl. split; [|split; [|split]].
    + apply (linked_ext m); try done. intros j. by rewrite Hnd.
    + by apply (tree_inv_ext (states m) _ fl _).
    + intros i Hi. rewrite Hst. by apply Hcap.
    + apply (tracked_weaken (states m)); [|done]. intros u _. by rewrite Hst.
Qed.

Lemma size_of_pow2 c level : lvl_of c = level -> size_of c = 2 ^ level.
Proof. intros <-. done. Qed.

Lemma good_alloc m out n r m' :
  good m out -> buddy_alloc n m = Done r m' ->
  good m' (if decide (r = 0) then out else (r, n) :: out).
Proof.
  intros Hgood Hrun. pose proof Hgood as (Hs & fl & Hlk & Hinv & Hcap & Htr).
  destruct (alloc_cases m n fl Hs Hlk Hinv)
    as [[_ Hrej] | [(level & _ & _ & _ & Hoom) |
        (level & a' & c' & m1 & Hlevel & Hn & Hspec & Hok & Hs1 & [Hst1 Hlk1] & _)]].
  - rewrite Hrej in Hrun. injection Hrun as <- <-. by rewrite decide_True.
  - rewrite Hoom in Hrun. injection Hrun as <- <-. rewrite decide_True by done.
    by apply (good_log m).
  - rewrite Hok in Hrun. injection Hrun as <- <-.
    destruct (spec_alloc_props level (mk_astate (states m) fl) a' c' Hinv) as (Hinv' & Hvc' & Hlc' & Hused & Hnew & _);
      [intros l Hl; by apply (linked_NoDup m) | unfold DEPTH; lia | done |].
    simpl in Hused, Hnew.
    assert (tree_inv (states m1) (a_free a')) as Hinv1
      by (by apply (tree_inv_ext (a_state a') _ (a_free a') _)).
    assert (forall i, states m1 i = USED <-> i = c' \/ states m i = USED) as Hused1.
    { intros i. rewrite Hst1. apply Hused. }
    split; [done|]. exists (a_free a').
    split; [done|]. split; [done|]. split.
    { intros i Hi Hu. apply Hused1 in Hu as [->|Hu]; [lia | by apply Hcap]. }
    assert (tracked (states m1) out) as Htr1.
    { apply (tracked_weaken (states m)); [|done]. intros u _ Hu. apply Hused1. by right. }
    case_decide as Hr; [done|].
    destruct Htr1 as [Hnd Hin]. split.
    + rewrite fmap_cons. apply NoDup_cons. split; [|done]. simpl.
      intros Hdup. apply list_elem_of_fmap in Hdup as ([a n'] & Ha & Hain). simpl in Ha. subst a.
      destruct (Hin _ _ Hain) as (_ & u & Hvu & Hsu & Hmu & Hszu).
      pose proof (size_of_pos u Hvu). pose proof (size_of_pos c' Hvc'). pose proof PGSIZE_pos.
      assert (u = c') as ->.
      { apply (used_unique (states m1) (a_free a') u c' (mem_of c')); try done.
        - apply Hused1. by left.
        - rewrite Hmu. nia.
        - nia. }
      apply Hnew. destruct Htr as [_ Hin0].
      destruct (Hin0 _ _ Hain) as (_ & u' & Hvu' & Hsu' & Hmu' & _).
      assert (u' = c') as <-; [|done].
      pose proof (size_of_pos u' Hvu').
      apply (used_unique (states m1) (a_free a') u' c' (mem_of c')); try done.
      * apply Hused1. by right.
      * rewrite Hmu'. nia.
      * nia.
    + intros a n' [[= -> ->]|Han]%elem_of_cons; [|by apply Hin].
      split; [done|]. exists c'. split; [done|]. split; [apply Hused1; by left|]. split; [done|].
      rewrite Hn. by apply size_of_pow2.
Qed.

(** The three ways a call of [buddy_free] can go. *)
Lemma free_cases m pa fl :
  shaped m -> linked m fl -> tree_inv (states m) fl ->
  (bad_address pa = true /\ buddy_free pa m = Panic "buddy_free" m) \/
  (bad_address pa = false /\
   ~ (states m (spec_locate FUEL pa 0 (states m)) = USED /\
      mem_of (spec_locate FUEL pa 0 (states m)) = pa) /\
   buddy_free pa m = Panic "buddy_free" (log_lock Acquire m)) \/
  (bad_address pa = false /\
   states m (spec_locate FUEL pa 0 (states m)) = USED /\
   mem_of (spec_locate FUEL pa 0 (states m)) = pa /\
   exists a' m',
     spec_free pa (mk_astate (states m) fl) = Some a' /\
     buddy_free pa m = Done tt m' /\ shaped m' /\ holds m' a' /\
     tree_inv (a_state a') (a_free a') /\
     lock m' = Release :: Acquire :: lock m /\ console m' = console m /\
     (forall i, a_state a' i = USED <->
                i <> spec_locate FUEL pa 0 (states m) /\ states m i = USED)).
Proof.
  intros Hs Hlk Hinv.
  pose proof (free_sim m (mk_astate (states m) fl) pa Hs (holds_self m fl Hlk) Hinv) as Hsim.
  destruct (bad_address pa) eqn:Hbad; [by left|]. right.
  unfold spec_free in *. simpl in *.
  destruct (decide (states m (spec_locate FUEL pa 0 (states m)) = USED /\
                    mem_of (spec_locate FUEL pa 0 (states m)) = pa)) as [[Hu Hm]|Hno].
  - right. destruct Hsim as (m' & Hrun & Hrest). split; [done|]. split; [done|]. split; [done|].
    eexists _, m'. split; [reflexivity|]. split; [done|]. done.
  - left. done.
Qed.

Lemma good_free m out pa m' :
  good m out -> buddy_free pa m = Done tt m' ->
  good m' (filter (fun e => e.1 <> pa) out).
Proof.
  intros (Hs & fl & Hlk & Hinv & Hcap & Htr) Hrun.
  destruct (free_cases m pa fl Hs Hlk Hinv)
    as [[_ Hp] | [(_ & _ & Hp) |
        (_ & Hu & Hm & a' & m1 & _ & Hok & Hs1 & [Hst1 Hlk1] & Hinv1 & _ & _ & Hused)]];
    [by rewrite Hp in Hrun | by rewrite Hp in Hrun |].
  rewrite Hok in Hrun. injection Hrun as <-.
  split; [done|]. exists (a_free a').
  split; [done|]. split; [by apply (tree_inv_ext (a_state a') _ (a_free a') _)|].
  split.
  { intros i Hi Hui. rewrite Hst1 in Hui. apply Hused in Hui as [_ Hui]. by apply Hcap. }
  destruct Htr as [Hnd Hin]. split.
  - eapply sublist_NoDup; [exact Hnd|]. apply fmap_sublist, sublist_filter.
  - intros a n [Hne Han]%list_elem_of_filter. simpl in Hne.
    destruct (Hin a n Han) as (Ha & u & Hvu & Hsu & Hmu & Hszu).
    split; [done|]. exists u. split; [done|]. split; [|done].
    rewrite Hst1. apply Hused. split; [|done]. intros ->. congruence.
Qed.

Lemma reach_good m out : reach m out -> good m out.
Proof.
  induction 1 as [m0 m Hrun | m out n a m' _ IH Hrun Ha | m out n m' _ IH Hrun
                 | m out pa m' _ IH Hrun].
  - by apply (good_init m0).
  - pose proof (good_alloc _ _ _ _ _ IH Hrun) as Hg. by rewrite decide_False in Hg.
  - pose proof (good_alloc _ _ _ _ _ IH Hrun) as Hg. by rewrite decide_True in Hg.
  - by apply (good_free m).
Qed.

(** ** Addresses *)

Lemma PGROUNDUP_div x : PGROUNDUP x = (x + 4095) / 4096 * 4096.
Proof.
  unfold PGROUNDUP, PGSIZE. replace (x + 4096 - 1) with (x + 4095) by lia.
  change (4096 - 1) with (Z.ones 12).
  rewrite <- Z.ldiff_land, Z.ldiff_ones_r by lia.
  rewrite Z.shiftr_div_pow2, Z.shiftl_mul_pow2 by lia. reflexivity.
Qed.

Lemma PGROUNDUP_ge x : x <= PGROUNDUP x.
Proof. rewrite PGROUNDUP_div. Z.to_euclidean_division_equations. lia. Qed.

Lemma PGROUNDUP_aligned x : PGROUNDUP x mod PGSIZE = 0.
Proof. rewrite PGROUNDUP_div. unfold PGSIZE. apply Z.mod_mul. lia. Qed.

Lemma mem_of_root : mem_of 0 = PGROUNDUP end_.
Proof. unfold mem_of. rewrite offset_of_root. lia. Qed.

Lemma mem_of_bounds c :
  valid c ->
  PGROUNDUP end_ <= mem_of c /\
  mem_of c + size_of c * PGSIZE <= PGROUNDUP end_ + PAGES * PGSIZE /\
  mem_of c mod PGSIZE = 0.
Proof.
  intros Hc.
  destruct (desc_block 0 c) as [H1 H2]; [apply desc_root; zlia | lia | done |].
  rewrite mem_of_root, size_of_root in *.
  split; [done|]. split; [done|].
  unfold mem_of. rewrite Z.mod_add by done. apply PGROUNDUP_aligned.
Qed.

Lemma bad_address_false pa :
  bad_address pa = false <->
  pa <> 0 /\ pa mod PGSIZE = 0 /\ end_ <= pa /\ pa < PHYSTOP.
Proof.
  unfold bad_address. rewrite !orb_false_iff, negb_false_iff.
  rewrite Z.eqb_neq, Z.eqb_eq, Z.ltb_ge, Z.geb_leb, Z.leb_gt. tauto.
Qed.

Lemma bad_address_true pa :
  bad_address pa = true <->
  pa = 0 \/ pa mod PGSIZE <> 0 \/ pa < end_ \/ PHYSTOP <= pa.
Proof.
  unfold bad_address. rewrite !orb_true_iff, negb_true_iff.
  rewrite Z.eqb_neq, Z.eqb_eq, Z.ltb_lt, Z.geb_leb, Z.leb_le. tauto.
Qed.

(** ** Reading the lists off the machine *)

Lemma walk_dll m L : forall pv fuel,
  dll m pv L -> (length L <= fuel)%nat -> walk fuel m (head L) = L.
Proof.
  induction L as [|i L IH]; intros pv fuel Hd Hlen.
  - by destruct fuel.
  - destruct fuel as [|fuel]; [simpl in Hlen; lia|].
    simpl in *. destruct Hd as (_ & Hn & Hd). rewrite Hn.
    f_equal. apply (IH (Some i)); [done | lia].
Qed.

Lemma length_valid (L : list Z) :
  NoDup L -> (forall i, i ∈ L -> valid i) -> (length L <= Z.to_nat NODES)%nat.
Proof.
  intros Hnd Hv. rewrite <- (length_seqZ 0 NODES).
  apply submseteq_length, NoDup_submseteq; [done|].
  intros x Hx. apply elem_of_seqZ. apply Hv in Hx. zlia.
Qed.

Lemma linked_free_list m fl l :
  linked m fl -> 0 <= l < DEPTH -> free_list m l = fl l.
Proof.
  intros [Hlk _] Hl. destruct (Hlk l Hl) as (Hhd & Hd & _ & Hnd & Hmem).
  unfold free_list. rewrite Hhd. apply (walk_dll m _ None); [done|].
  apply length_valid; [done|]. intros i Hi. by apply Hmem.
Qed.

Lemma linked_fl_ext m fl fl' :
  (forall l, fl' l = fl l) -> linked m fl -> linked m fl'.
Proof.
  intros He [Hlk Htd]. split.
  - intros l Hl. rewrite He. by apply Hlk.
  - intros j Hj. rewrite He. by apply Htd.
Qed.

Lemma dll_next_prev m L : forall pv i j,
  dll m pv L -> NoDup L -> i ∈ L -> next (nd m i) = Some j ->
  j ∈ L /\ prev (nd m j) = Some i.
Proof.
  induction L as [|x L IH]; intros pv i j Hd Hnd Hi Hn; [by apply elem_of_nil in Hi|].
  simpl in Hd. destruct Hd as (Hp & Hx & Hd).
  apply NoDup_cons in Hnd as [Hx' Hnd].
  apply elem_of_cons in Hi as [->|Hi].
  - rewrite Hx in Hn. destruct L as [|y L]; simplify_eq/=.
    split; [right; by left|]. by destruct Hd as (? & _).
  - destruct (IH _ _ _ Hd Hnd Hi Hn) as [Hj Hpj]. split; [by right | done].
Qed.

(** ** Allocating and releasing again *)

Lemma parent_of_left c : parent_of (2 * c + 1) = c.
Proof. unfold parent_of. Z.to_euclidean_division_equations. lia. Qed.

Lemma parent_of_right c : parent_of (2 * c + 2) = c.
Proof. unfold parent_of. Z.to_euclidean_division_equations. lia. Qed.

(** Coalescing undoes the splits one by one, up to the node that was taken
    off its list. *)
Lemma coalesce_split k : forall c a b fuel,
  valid c -> Z.of_nat k <= lvl_of c ->
  tree_inv (upd (a_state a) c USED) (a_free a) ->
  (forall i, a_state b i = a_state (spec_split k c a).1 i) ->
  (forall l, a_free b l = a_free (spec_split k c a).1 l) ->
  exists b',
    spec_coalesce (k + fuel) (spec_split k c a).2 b = spec_coalesce fuel c b' /\
    (forall i, i <> c -> a_state b' i = a_state a i) /\
    (forall l, a_free b' l = a_free a l).
Proof.
  induction k as [|k IH]; intros c a b fuel Hc Hk Hinv Hbs Hbf.
  - exists b. split; [done|]. split; [|done].
    intros i Hi. rewrite Hbs. simpl. by rewrite upd_ne.
  - assert (0 <= c < HALF) as Hhalf.
    { pose proof (proj1 (lvl_of_pos c Hc)). zlia. }
    assert (valid (2 * c + 1) /\ valid (2 * c + 2)) as [Hvl Hvr] by zlia.
    pose proof (ti_left _ _ Hinv c Hhalf) as HL.
    pose proof (ti_right _ _ Hinv c Hhalf) as HR.
    rewrite upd_eq in HL, HR.
    rewrite upd_ne in HL by lia. rewrite upd_ne in HR by lia.
    assert (a_state a (2 * c + 1) = NONEXISTENT) as Hl0 by (consts; lia).
    assert (a_state a (2 * c + 2) = NONEXISTENT) as Hr0 by (consts; lia).
    clear HL HR.
    assert (2 * c + 2 ∉ a_free a (lvl_of (2 * c + 2))) as Hnotin.
    { intros Hin. pose proof (lvl_of_range _ Hvr).
      apply (ti_free _ _ Hinv (lvl_of (2 * c + 2))) in Hin as (_ & Hf & _); [|lia].
      rewrite upd_ne in Hf by lia. rewrite Hr0 in Hf. done. }
    cbn [spec_split] in *.
    set (a3 := mk_astate (upd (upd (a_state a) c INNER) (2 * c + 2) FREE)
                         (upd (a_free a) (lvl_of (2 * c + 2))
                              ((2 * c + 2) :: a_free a (lvl_of (2 * c + 2))))) in *.
    destruct (IH (2 * c + 1) a3 b (S fuel)) as (b1 & Hco & Hb1s & Hb1f); try done.
    { rewrite lvl_of_left by lia. lia. }
    { apply (tree_inv_ext
               (upd (upd (upd (upd (a_state a) c USED) c INNER) (2 * c + 2) FREE) (2 * c + 1) USED)
               _ (a_free a3) _).
      - intros i. subst a3. simpl. unfold upd. by repeat case_decide.
      - done.
      - apply (tree_inv_split _ _ c Hinv); [apply upd_eq | done]. }
    replace (S k + fuel)%nat with (k + S fuel)%nat by lia.
    rewrite Hco. cbn [spec_coalesce].
    rewrite nb_of_left, parent_of_left.
    assert (a_state b1 (2 * c + 2) = FREE) as Hfree.
    { rewrite Hb1s by lia. subst a3. simpl. by rewrite upd_eq. }
    rewrite decide_True by (split; [lia | done]).
    eexists. split; [reflexivity|]. simpl. split.
    + intros i Hi. unfold upd at 1 2. repeat case_decide; subst; try done.
      rewrite Hb1s by done. subst a3. simpl. unfold upd. by repeat case_decide.
    + intros l. unfold upd at 1. case_decide as Hd.
      * subst l. rewrite Hb1f. subst a3. simpl. rewrite upd_eq.
        rewrite filter_cons_False by (intros H; by apply H).
        apply filter_all. by intros x Hx ->.
      * rewrite Hb1f. subst a3. simpl. by rewrite upd_ne.
Qed.

(** Releasing the block that [alloc] has just returned restores the states
    and the free lists. *)
Lemma spec_round_trip a level a' c' b :
  tree_inv (a_state a) (a_free a) ->
  (forall l, 0 <= l < DEPTH -> NoDup (a_free a l)) ->
  0 <= level < DEPTH ->
  spec_alloc level a = Some (a', c') ->
  (forall i, a_state b i = a_state a' i) ->
  (forall l, a_free b l = a_free a' l) ->
  (forall i, a_state (spec_release (spec_coalesce FUEL c' b).2 (spec_coalesce FUEL c' b).1) i
             = a_state a i) /\
  (forall l, a_free (spec_release (spec_coalesce FUEL c' b).2 (spec_coalesce FUEL c' b).1) l
             = a_free a l).
Proof.
  intros Hinv Hnd Hlevel Hspec Hbs Hbf.
  destruct (spec_alloc_props level a a' c' Hinv Hnd Hlevel Hspec)
    as (_ & _ & _ & _ & _ & sl & c0 & rest & Hfind & Hsl & Hfl & _ & Hsplit).
  assert (0 <= sl < DEPTH) as Hslr by lia.
  assert (valid c0 /\ a_state a c0 = FREE /\ lvl_of c0 = sl) as (Hvc0 & Hsc0 & Hlc0).
  { apply (ti_free _ _ Hinv sl c0 Hslr). rewrite Hfl. by left. }
  set (a1 := mk_astate (a_state a) (upd (a_free a) sl rest)) in *.
  assert (tree_inv (upd (a_state a1) c0 USED) (a_free a1)) as Hinv1.
  { apply (tree_inv_take _ _ sl [] c0 rest Hinv); [done | done |]. by apply Hnd. }
  set (k := Z.to_nat (sl - level)) in *.
  assert (a' = (spec_split k c0 a1).1 /\ c' = (spec_split k c0 a1).2) as [-> ->]
    by (by rewrite <- Hsplit).
  destruct (coalesce_split k c0 a1 b (FUEL - k)) as (b' & Hco & Hb's & Hb'f);
    [done | lia | done | done | done |].
  replace (k + (FUEL - k))%nat with FUEL in Hco by fuel_lia.
  rewrite Hco.
  assert (exists f, (FUEL - k)%nat = S f) as [f ->].
  { exists (FUEL - k - 1)%nat. fuel_lia. }
  cbn [spec_coalesce].
  rewrite decide_False.
  2:{ intros [Hc0 Hnb]. destruct (nb_props c0) as (Hp & _ & Hne & Hside & _); [zlia|].
      rewrite Hb's in Hnb by done. simpl in Hnb.
      pose proof (ti_buddy _ _ Hinv _ Hp) as HB. apply HB.
      destruct Hside as [[H1 H2]|[H1 H2]]; rewrite <- H1, <- H2; done. }
  simpl. split.
  - intros i. unfold upd. case_decide as Hd; [by subst|]. by rewrite Hb's.
  - intros l. unfold upd at 1. case_decide as Hd.
    + subst l. rewrite Hb'f. simpl. rewrite Hlc0, upd_eq. done.
    + rewrite Hb'f. simpl. rewrite upd_ne by lia. done.
Qed.

Lemma spec_split_free_above k : forall c a l,
  valid c -> Z.of_nat k <= lvl_of c -> lvl_of c <= l ->
  a_free (spec_split k c a).1 l = a_free a l.
Proof.
  induction k as [|k IH]; intros c a l Hc Hk Hl; [done|].
  assert (0 <= c < HALF) as Hhalf.
  { pose proof (proj1 (lvl_of_pos c Hc)). zlia. }
  cbn [spec_split]. rewrite IH; [| zlia | rewrite lvl_of_left by lia; lia ..].
  simpl. rewrite upd_ne; [done|]. rewrite lvl_of_right by lia. lia.
Qed.

Lemma spec_coalesce_stop k : forall c a,
  valid c -> DEPTH - 1 - lvl_of c < Z.of_nat k ->
  (spec_coalesce k c a).2 = 0 \/
  a_state (spec_coalesce k c a).1 (nb_of (spec_coalesce k c a).2) <> FREE.
Proof.
  induction k as [|k IH]; intros c a Hc Hk.
  - pose proof (lvl_of_range c Hc). lia.
  - cbn [spec_coalesce]. case_decide as Hd.
    + destruct Hd as [Hc0 _].
      destruct (nb_props c) as (Hp & _ & _ & _ & _ & Hlp); [zlia|].
      apply IH; [zlia | lia].
    + simpl. destruct (decide (c = 0)); [by left|]. right. tauto.
Qed.

(** ** The short run *)

Lemma run_done {A : Type} (c : M A) m a m' : c m = Done a m' -> run c m = m'.
Proof. unfold run. by intros ->. Qed.

Lemma result_done {A : Type} (d : A) (c : M A) m a m' :
  c m = Done a m' -> result d c m = a.
Proof. unfold result. by intros ->. Qed.

Lemma outstanding_in_arena m out a n :
  reach m out -> (a, n) ∈ out ->
  PGROUNDUP end_ <= a /\ a + n * PGSIZE <= PGROUNDUP end_ + PAGES * PGSIZE.
Proof.
  intros Hreach Hin. apply reach_good in Hreach as (_ & fl & _ & _ & _ & _ & Htr).
  destruct (Htr a n Hin) as (_ & u & Hv & _ & <- & <-).
  by destruct (mem_of_bounds u Hv) as (? & ? & _).
Qed.

Lemma outstanding_below m out a n :
  PGROUNDUP end_ + PAGES * PGSIZE <= PHYSTOP ->
  reach m out -> (a, n) ∈ out -> a < PHYSTOP.
Proof.
  intros Hfit Hreach Hin. apply reach_good in Hreach as (_ & fl & _ & _ & _ & _ & Htr).
  destruct (Htr a n Hin) as (_ & u & Hv & _ & <- & _).
  destruct (mem_of_bounds u Hv) as (_ & Hhi & _).
  pose proof (size_of_pos u Hv). pose proof PGSIZE_pos. nia.
Qed.

Lemma children_share_parent m out p :
  reach m out -> 0 <= p < HALF ->
  parent (nd m (2 * p + 1)) = parent (nd m (2 * p + 2)).
Proof.
  intros Hreach Hp. apply reach_good in Hreach as (Hs & _).
  destruct (shaped_fields m (2 * p + 1) Hs) as (_ & _ & _ & _ & _ & -> & _); [zlia|].
  destruct (shaped_fields m (2 * p + 2) Hs) as (_ & _ & _ & _ & _ & -> & _); [zlia|].
  replace (2 * p + 1 =? 0) with false by (symmetry; apply Z.eqb_neq; lia).
  replace (2 * p + 2 =? 0) with false by (symmetry; apply Z.eqb_neq; lia).
  by rewrite parent_of_left, parent_of_right.
Qed.

(** A request for a block of [2 ^ level] pages is served as soon as some level
    from [level] up has a free block. *)
Lemma alloc_succeeds m out level l :
  reach m out -> 0 < end_ -> 0 <= level <= 9 -> level <= l < DEPTH ->
  0 < sizes m !!! l ->
  exists a m', buddy_alloc (2 ^ level) m = Done a m' /\ a <> 0.
Proof.
  intros Hreach Hend Hlevel Hl Hsz.
  apply reach_good in Hreach as (Hs & fl & Hlk & Hinv & _).
  pose proof (alloc_sim m (mk_astate (states m) fl) (2 ^ level) level Hs
                (holds_self m fl Hlk) Hinv Hlevel eq_refl) as Hsim.
  destruct (spec_alloc level (mk_astate (states m) fl)) as [[a' c']|] eqn:Hspec.
  - destruct Hsim as (m' & Hrun & _). exists (mem_of c'), m'. split; [done|].
    destruct (spec_alloc_props level (mk_astate (states m) fl) a' c' Hinv)
      as (_ & Hvc' & _);
      [intros j Hj; by apply (linked_NoDup m) | unfold DEPTH; lia | done |].
    destruct (mem_of_bounds c' Hvc') as (Hlo & _). pose proof (PGROUNDUP_ge end_). lia.
  - exfalso. unfold spec_alloc in Hspec.
    destruct (spec_find (Z.to_nat (DEPTH - level)) level _) as [sl|] eqn:Hfind.
    + apply spec_find_some in Hfind as (_ & Hne & _). by destruct (a_free _ sl).
    + pose proof (spec_find_none _ _ _ Hfind l) as Hnone.
      rewrite Z2Nat.id in Hnone by (unfold DEPTH; lia). simpl in Hnone.
      destruct (proj1 Hlk l) as (_ & _ & Hszl & _); [lia|].
      rewrite Hszl, Hnone in Hsz by lia. simpl in Hsz. lia.
Qed.

Lemma spec_split_keeps k : forall c a l,
  a_free a l <> [] -> a_free (spec_split k c a).1 l <> [].
Proof.
  induction k as [|k IH]; intros c a l Hl; [done|].
  cbn [spec_split]. apply IH. simpl. unfold upd. by case_decide.
Qed.

(** A block that had to be split leaves a free block behind. *)
Lemma alloc_leaves_free m out level a m' :
  reach m out -> 0 <= level <= 9 ->
  buddy_alloc (2 ^ level) m = Done a m' -> a <> 0 ->
  sizes m !!! level = 0 ->
  exists l, level <= l < DEPTH /\ 0 < sizes m' !!! l.
Proof.
  intros Hreach Hlevel Hrun Ha Hzero.
  apply reach_good in Hreach as (Hs & fl & Hlk & Hinv & _).
  destruct (alloc_cases m (2 ^ level) fl Hs Hlk Hinv)
    as [[_ Hrej] | [(lv & _ & _ & _ & Hoom) |
        (lv & a' & c' & m1 & Hlv & Hn & Hspec & Hok & _ & [_ Hlk1] & _)]].
  { rewrite Hrej in Hrun. by injection Hrun as <- <-. }
  { rewrite Hoom in Hrun. by injection Hrun as <- <-. }
  rewrite Hok in Hrun. injection Hrun as <- <-.
  apply Z.pow_inj_r in Hn; [|lia..]. subst lv.
  destruct (spec_alloc_props level (mk_astate (states m) fl) a' c' Hinv)
    as (_ & _ & _ & _ & _ & sl & c0 & rest & _ & Hsl & Hfl & _ & Hsplit);
    [intros j Hj; by apply (linked_NoDup m) | unfold DEPTH; lia | done |].
  simpl in Hfl, Hsplit.
  assert (0 <= sl < DEPTH) as Hslr by lia.
  destruct (proj1 Hlk sl Hslr) as (_ & _ & _ & _ & Hmemb).
  destruct (Hmemb c0) as [Hvc0 Hlc0]; [rewrite Hfl; by left|].
  assert (sl <> level) as Hne.
  { intros ->. destruct (proj1 Hlk level) as (_ & _ & Hsz & _); [unfold DEPTH; lia|].
    rewrite Hsz, Hfl in Hzero. simpl in Hzero. lia. }
  assert (exists k, Z.to_nat (sl - level) = S k) as [k Hk].
  { exists (Z.to_nat (sl - level - 1)). lia. }
  rewrite Hk in Hsplit. cbn [spec_split] in Hsplit.
  assert (a_free a' (sl - 1) <> []) as Hfree.
  { replace a' with (a', c').1 by done. rewrite Hsplit.
    apply spec_split_keeps. simpl.
    rewrite lvl_of_right, Hlc0 by zlia. by rewrite upd_eq. }
  exists (sl - 1). split; [lia|].
  destruct (proj1 Hlk1 (sl - 1)) as (_ & _ & Hsz1 & _); [lia|].
  rewrite Hsz1. destruct (a_free a' (sl - 1)); [done | simpl; lia].
Qed.

Lemma boot_run : buddy_init empty_machine = Done tt boot.
Proof.
  destruct (buddy_init_post empty_machine) as (m & Hrun & _).
  unfold boot. rewrite (run_done buddy_init empty_machine tt m Hrun). exact Hrun.
Qed.

Lemma reach_boot : reach boot [].
Proof. exact (reach_init empty_machine boot boot_run). Qed.

Lemma boot_sizes l :
  0 <= l < DEPTH -> sizes boot !!! l = (if l =? DEPTH - 1 then 1 else 0).
Proof.
  intros Hl. destruct (buddy_init_post empty_machine) as (m & Hrun & _ & _ & Hls & _).
  unfold boot. rewrite (run_done buddy_init empty_machine tt m Hrun).
  exact (proj2 (Hls l Hl)).
Qed.

Lemma alloc1_run : 0 < end_ -> buddy_alloc 1 boot = Done page1 after1 /\ page1 <> 0.
Proof.
  intros Hend.
  destruct (alloc_succeeds boot [] 0 (DEPTH - 1) reach_boot Hend)
    as (a & m' & Hrun & Ha); [lia | unfold DEPTH; lia | |].
  { rewrite boot_sizes by (unfold DEPTH; lia). by rewrite Z.eqb_refl. }
  change (2 ^ 0) with 1 in Hrun. unfold page1, after1.
  rewrite (result_done 0 (buddy_alloc 1) boot a m' Hrun).
  rewrite (run_done (buddy_alloc 1) boot a m' Hrun).
  split; assumption.
Qed.

Lemma reach_after1 : 0 < end_ -> reach after1 [(page1, 1)].
Proof.
  intros Hend. destruct (alloc1_run Hend) as [Hrun Ha].
  exact (reach_alloc boot [] 1 page1 after1 reach_boot Hrun Ha).
Qed.

Lemma alloc2_run : 0 < end_ -> buddy_alloc 1 after1 = Done page2 after2 /\ page2 <> 0.
Proof.
  intros Hend. destruct (alloc1_run Hend) as [Hrun1 Ha1].
  destruct (alloc_leaves_free boot [] 0 page1 after1 reach_boot) as (l & Hl & Hsz);
    [lia | exact Hrun1 | exact Ha1 | by rewrite boot_sizes by (unfold DEPTH; lia) |].
  destruct (alloc_succeeds after1 [(page1, 1)] 0 l (reach_after1 Hend) Hend)
    as (a & m' & Hrun & Ha); [lia | exact Hl | exact Hsz |].
  change (2 ^ 0) with 1 in Hrun. unfold page2, after2.
  rewrite (result_done 0 (buddy_alloc 1) after1 a m' Hrun).
  rewrite (run_done (buddy_alloc 1) after1 a m' Hrun).
  split; assumption.
Qed.

Lemma reach_after2 : 0 < end_ -> reach after2 [(page2, 1); (page1, 1)].
Proof.
  intros Hend. destruct (alloc2_run Hend) as [Hrun Ha].
  exact (reach_alloc after1 [(page1, 1)] 1 page2 after2 (reach_after1 Hend) Hrun Ha).
Qed.

(** * The claims of the specification *)

(** C6.  Initialisation: after [buddy_init], whatever the memory held before,
    node 0 is FREE, has [lvl = DEPTH - 1], [size = PAGES],
    [memory = PGROUNDUP(end)] and points to itself as parent and neighbour; it
    is the only element of the free list of level [DEPTH - 1], whose count is
    1, and every other level has an empty list and count 0.  Every node
    [i >= 1] is NONEXISTENT, one level below its parent [(i-1)/2] and half its
    size, starts where the parent starts if [i] is odd and [size] pages
    further if [i] is even, has its neighbour at [i+1] (odd) or [i-1] (even),
    and has children exactly when [2i + 2 < NODES]. *)
Theorem buddy_init_postcondition m0 :
  exists m,
    buddy_init m0 = Done tt m /\
    state (nd m 0) = FREE /\ id (nd m 0) = 0 /\
    lvl (nd m 0) = DEPTH - 1 /\ size (nd m 0) = PAGES /\
    memory (nd m 0) = PGROUNDUP end_ /\
    parent (nd m 0) = Some 0 /\ neighbour (nd m 0) = Some 0 /\
    left_child (nd m 0) = Some 1 /\ right_child (nd m 0) = Some 2 /\
    prev (nd m 0) = None /\ next (nd m 0) = None /\
    lists m !!! (DEPTH - 1) = Some 0 /\ free_list m (DEPTH - 1) = [0] /\
    sizes m !!! (DEPTH - 1) = 1 /\
    (forall l, 0 <= l < DEPTH - 1 ->
       lists m !!! l = None /\ free_list m l = [] /\ sizes m !!! l = 0) /\
    forall i, 1 <= i < NODES ->
      state (nd m i) = NONEXISTENT /\ id (nd m i) = i /\
      parent (nd m i) = Some ((i - 1) / 2) /\
      lvl (nd m i) = lvl (nd m ((i - 1) / 2)) - 1 /\
      size (nd m i) = size (nd m ((i - 1) / 2)) / 2 /\
      memory (nd m i) =
        (if Z.odd i then memory (nd m ((i - 1) / 2))
         else memory (nd m ((i - 1) / 2)) + size (nd m i) * PGSIZE) /\
      neighbour (nd m i) = Some (if Z.odd i then i + 1 else i - 1) /\
      left_child (nd m i) = (if 2 * i + 2 <? NODES then Some (2 * i + 1) else None) /\
      right_child (nd m i) = (if 2 * i + 2 <? NODES then Some (2 * i + 2) else None) /\
      prev (nd m i) = None /\ next (nd m i) = None.
Proof.
  destruct (buddy_init_post m0) as (m & Hrun & Hs & Hst & Hls & _).
  exists m. split; [done|].
  destruct (Hst 0) as (Hst0 & Hp0 & Hn0); [zlia|].
  destruct (Hls (DEPTH - 1)) as [Hl14 Hs14]; [zlia|]. rewrite Z.eqb_refl in Hl14, Hs14.
  assert (skel (nd m 0) = skel_of 0) as Hroot by (apply Hs; zlia).
  rewrite skel_of_root in Hroot. unfold skel in Hroot.
  injection Hroot as -> -> -> -> -> -> -> ->.
  repeat (split; [done|]).
  split.
  { unfold free_list. rewrite Hl14. apply (walk_dll m [0] None).
    - simpl. by rewrite Hn0.
    - simpl. zlia. }
  split; [done|]. split.
  { intros l Hl. destruct (Hls l) as [H1 H2]; [zlia|].
    replace (l =? DEPTH - 1) with false in * by (symmetry; apply Z.eqb_neq; lia).
    split; [done|]. split; [|done].
    unfold free_list. rewrite H1. by destruct (Z.to_nat NODES). }
  intros i Hi.
  destruct (parent_of_cases i) as [Hp Hcase]; [lia|]. fold (parent_of i).
  assert (valid i) as Hvi by zlia.
  assert (valid (parent_of i)) as Hvp by zlia.
  destruct (shaped_fields m i Hs Hvi) as (-> & -> & -> & -> & -> & -> & -> & ->).
  destruct (shaped_fields m _ Hs Hvp) as (_ & -> & -> & _ & _ & _ & _ & ->).
  destruct (Hst i Hvi) as (-> & -> & ->).
  replace (i =? 0) with false by (symmetry; apply Z.eqb_neq; lia).
  replace (2 * i + 2 <? NODES) with (i <? HALF).
  2:{ destruct (Z.ltb_spec i HALF), (Z.ltb_spec (2 * i + 2) NODES); try done; zlia. }
  set (p := parent_of i) in *. clearbody p.
  assert (lvl_of i = lvl_of p - 1) as Hlv.
  { destruct Hcase as [-> | ->]; [apply lvl_of_left | apply lvl_of_right]; lia. }
  assert (size_of p = 2 * size_of i) as Hsz by (by apply size_of_parent).
  repeat (split; [done|]).
  split; [|split; [|split; [|done]]].
  - rewrite Hsz. rewrite Z.mul_comm, Z.div_mul; lia.
  - destruct Hcase as [-> | ->].
    + replace (Z.odd (2 * p + 1)) with true
        by (replace (2 * p + 1) with (1 + 2 * p) by lia; by rewrite Z.odd_add_mul_2).
      apply mem_of_left; [lia | done].
    + replace (Z.odd (2 * p + 2)) with false
        by (replace (2 * p + 2) with (0 + 2 * (p + 1)) by lia; by rewrite Z.odd_add_mul_2).
      apply mem_of_right; [lia | done].
  - done.
Qed.

(** C7.  Free-list consistency: in every reachable state and for every level
    [l], the list that starts at [lists[l]] holds exactly the nodes that are
    FREE and have [lvl = l], each once; it is doubly linked (the [prev] of an
    element's [next] points back to the element, the head's [prev] is null);
    and [sizes[l]] is its length. *)
Theorem free_list_consistency m out l :
  reach m out -> 0 <= l < DEPTH ->
  lists m !!! l = head (free_list m l) /\
  NoDup (free_list m l) /\
  (forall i, i ∈ free_list m l <->
             valid i /\ state (nd m i) = FREE /\ lvl (nd m i) = l) /\
  dll m None (free_list m l) /\
  (forall i j, i ∈ free_list m l -> next (nd m i) = Some j ->
               j ∈ free_list m l /\ prev (nd m j) = Some i) /\
  (forall i, head (free_list m l) = Some i -> prev (nd m i) = None) /\
  sizes m !!! l = Z.of_nat (length (free_list m l)).
Proof.
  intros Hreach Hl. apply reach_good in Hreach as (Hs & fl & Hlk & Hinv & _).
  rewrite (linked_free_list m fl l Hlk Hl).
  destruct (proj1 Hlk l Hl) as (Hhd & Hd & Hsz & Hnd & Hmem).
  split; [done|]. split; [done|]. split.
  { intros i. rewrite (ti_free _ _ Hinv l i Hl). unfold states. split.
    - intros (Hv & Hf & Hlv). by rewrite shaped_lvl.
    - intros (Hv & Hf & Hlv). by rewrite shaped_lvl in Hlv. }
  split; [done|].
  split; [intros i j Hi Hn; by apply (dll_next_prev m (fl l) None i j)|]. split; [|done].
  intros i Hi. destruct (fl l) as [|x L]; simplify_eq/=. by destruct Hd.
Qed.

(** C9.  Eager coalescing: in every reachable state no two nodes with the
    same parent are both FREE. *)
Theorem eager_coalescing m out i j :
  reach m out -> valid i -> valid j -> i <> j ->
  parent (nd m i) = parent (nd m j) ->
  ~ (state (nd m i) = FREE /\ state (nd m j) = FREE).
Proof.
  intros Hreach Hi Hj Hne Hpar [Hfi Hfj].
  apply reach_good in Hreach as (Hs & fl & _ & Hinv & _).
  destruct (shaped_fields m i Hs Hi) as (_ & _ & _ & _ & _ & Hpi & _).
  destruct (shaped_fields m j Hs Hj) as (_ & _ & _ & _ & _ & Hpj & _).
  rewrite Hpi, Hpj in Hpar. injection Hpar as Hpar.
  fold (states m i) in Hfi. fold (states m j) in Hfj.
  assert (forall a b, valid a -> valid b -> a <> b -> a <> 0 ->
            states m a = FREE -> states m b = FREE ->
            (if b =? 0 then 0 else parent_of b) = parent_of a -> False) as Hcase.
  { intros a b Ha Hb Hab Ha0 Hfa Hfb Hp.
    destruct (parent_of_cases a) as [Hpa Hca]; [zlia|].
    assert (0 <= parent_of a < HALF) as Hh by zlia.
    destruct (Z.eqb_spec b 0) as [->|Hb0].
    - pose proof (ti_left _ _ Hinv 0) as HL. pose proof (ti_right _ _ Hinv 0) as HR.
      rewrite <- Hp in Hca. simpl in Hca.
      destruct Hca as [-> | ->]; consts; lia.
    - destruct (parent_of_cases b) as [Hpb Hcb]; [zlia|]. rewrite Hp in Hcb.
      pose proof (ti_buddy _ _ Hinv _ Hh) as HB.
      apply HB. destruct Hca as [Hca|Hca], Hcb as [Hcb|Hcb];
        rewrite <- ?Hca, <- ?Hcb; try done; lia. }
  destruct (Z.eqb_spec i 0) as [->|Hi0].
  - assert (j <> 0) as Hj0 by lia.
    apply (Hcase j 0); try done. simpl.
    destruct (Z.eqb_spec j 0); done.
  - apply (Hcase i j); done.
Qed.

(** C1.  Disjointness: in every reachable state, two outstanding allocations
    with addresses [a1], [a2] and requested sizes [n1], [n2] occupy disjoint
    byte ranges [[a, a + n * PGSIZE)]. *)
Theorem disjointness m out i j a1 n1 a2 n2 :
  reach m out -> i <> j ->
  out !! i = Some (a1, n1) -> out !! j = Some (a2, n2) ->
  a1 + n1 * PGSIZE <= a2 \/ a2 + n2 * PGSIZE <= a1.
Proof.
  intros Hreach Hij H1 H2.
  apply reach_good in Hreach as (Hs & fl & _ & Hinv & _ & Hnd & Hin).
  destruct (Hin a1 n1) as (_ & u1 & Hv1 & Hu1 & Hm1 & Hz1); [by eapply list_elem_of_lookup_2|].
  destruct (Hin a2 n2) as (_ & u2 & Hv2 & Hu2 & Hm2 & Hz2); [by eapply list_elem_of_lookup_2|].
  assert (a1 <> a2) as Hne.
  { intros ->. apply Hij. eapply NoDup_lookup; [exact Hnd | |].
    - rewrite list_lookup_fmap, H1. done.
    - rewrite list_lookup_fmap, H2. done. }
  pose proof (size_of_pos u1 Hv1). pose proof (size_of_pos u2 Hv2). pose proof PGSIZE_pos.
  destruct (decide (a1 + n1 * PGSIZE <= a2 \/ a2 + n2 * PGSIZE <= a1)) as [|Hover]; [done|].
  exfalso. apply Hne. rewrite <- Hm1, <- Hm2. f_equal.
  apply (used_unique (states m) fl u1 u2 (Z.max a1 a2)); try done; subst; nia.
Qed.

(** C10.  In every reachable state a USED node has level at most 9; the root
    is never USED, so the node that the descent of [buddy_free] locates is
    never the root in state USED, and the branch of [buddy_free] that
    releases the root is not taken. *)
Theorem used_below_cap m out :
  reach m out ->
  (forall i, valid i -> state (nd m i) = USED -> lvl (nd m i) <= 9) /\
  state (nd m 0) <> USED /\
  (forall pa c m1,
     descend FUEL pa (Some 0) (log_lock Acquire m) = Done (Some c) m1 ->
     state (nd m1 c) = USED -> id (nd m1 c) <> 0).
Proof.
  intros Hreach. apply reach_good in Hreach as (Hs & fl & Hlk & Hinv & Hcap & _).
  assert (state (nd m 0) <> USED) as Hroot.
  { intros Hu. apply Hcap in Hu; [|zlia]. rewrite lvl_of_root in Hu. unfold DEPTH in Hu. lia. }
  split; [|split; [done|]].
  - intros i Hi Hu. rewrite shaped_lvl by done. by apply Hcap.
  - intros pa c m1 Hrun Hu.
    destruct (descend_sim pa (log_lock Acquire m) (states m) FUEL 0)
      as (Hrun' & Hvc & _); [by apply shaped_log_lock | done | apply Hinv | zlia | |].
    { rewrite lvl_of_root. fuel_lia. }
    rewrite Hrun' in Hrun. injection Hrun as <- <-.
    rewrite nd_log_lock in *.
    destruct (shaped_fields m _ Hs Hvc) as (-> & _).
    intros Hc0. rewrite Hc0 in Hu. done.
Qed.

(** C5.  [buddy_free] panics exactly when the address is null, not
    page-aligned, below [end] or not below [PHYSTOP], or when the node that
    the descent locates is not USED or does not start at the address; and no
    node, list or count has changed when it panics. *)
Theorem free_fatal m out pa :
  reach m out ->
  exists c,
    descend FUEL pa (Some 0) (log_lock Acquire m) = Done (Some c) (log_lock Acquire m) /\
    valid c /\
    ((exists msg m', buddy_free pa m = Panic msg m') <->
     (pa = 0 \/ pa mod PGSIZE <> 0 \/ pa < end_ \/ PHYSTOP <= pa \/
      state (nd m c) <> USED \/ memory (nd m c) <> pa)) /\
    (forall msg m', buddy_free pa m = Panic msg m' ->
       nodes m' = nodes m /\ lists m' = lists m /\ sizes m' = sizes m).
Proof.
  intros Hreach. apply reach_good in Hreach as (Hs & fl & Hlk & Hinv & _).
  destruct (descend_sim pa (log_lock Acquire m) (states m) FUEL 0)
    as (Hrun & Hvc & _); [by apply shaped_log_lock | done | apply Hinv | zlia | |].
  { rewrite lvl_of_root. fuel_lia. }
  exists (spec_locate FUEL pa 0 (states m)). split; [done|]. split; [done|].
  destruct (shaped_fields m _ Hs Hvc) as (_ & _ & _ & _ & _ & _ & _ & Hmem).
  rewrite Hmem. fold (states m (spec_locate FUEL pa 0 (states m))).
  destruct (free_cases m pa fl Hs Hlk Hinv)
    as [[Hbad Hp] | [(Hbad & Hno & Hp) | (Hbad & Hu & Hm & a' & m1 & _ & Hok & _)]].
  - split.
    + split; [|by eauto]. intros _. apply bad_address_true in Hbad. tauto.
    + intros msg m'. rewrite Hp. by intros [= _ <-].
  - split.
    + split; [|by eauto]. intros _.
      destruct (decide (states m (spec_locate FUEL pa 0 (states m)) = USED)); tauto.
    + intros msg m'. rewrite Hp. by intros [= _ <-].
  - split.
    + split.
      * intros (msg & m' & Hp). by rewrite Hok in Hp.
      * apply bad_address_false in Hbad. destruct Hbad as (? & ? & ? & ?).
        intros [?|[?|[?|[?|[?|?]]]]]; try done; lia.
    + intros msg m'. by rewrite Hok.
Qed.

(** C2.  A successful [buddy_alloc(n)], for [n] a power of two and
    [lvl = log2 n]: [split_lvl] is the smallest level [>= lvl] with a positive
    count; the head [c0] of its free list is removed, its [prev]/[next] are
    cleared and the count of that level goes down by one; then the machine
    holds what the splitting of the specification produces from [c0] (each
    node above level [lvl] marked INNER, its right child marked FREE and put
    on the list of its level, descent into the left child, the node reached
    at level [lvl] marked USED); the address returned is the [memory] of that
    node, which is also the [memory] of [c0]. *)
Theorem alloc_algorithm m out n a m' :
  reach m out -> buddy_alloc n m = Done a m' -> a <> 0 ->
  exists fl sl c0 rest,
    n = 2 ^ Z.log2 n /\ 0 <= Z.log2 n <= sl /\ sl < DEPTH /\
    0 < sizes m !!! sl /\ (forall j, Z.log2 n <= j < sl -> sizes m !!! j = 0) /\
    linked m fl /\ fl sl = c0 :: rest /\ lists m !!! sl = Some c0 /\
    sizes m' !!! sl = sizes m !!! sl - 1 /\
    prev (nd m' c0) = None /\ next (nd m' c0) = None /\
    let r := spec_split (Z.to_nat (sl - Z.log2 n)) c0
               (mk_astate (states m) (upd fl sl rest)) in
    holds m' r.1 /\
    lvl (nd m' r.2) = Z.log2 n /\ state (nd m' r.2) = USED /\
    a = memory (nd m' r.2) /\ a = memory (nd m c0).
Proof.
  intros Hreach Hrun Ha.
  apply reach_good in Hreach as (Hs & fl & Hlk & Hinv & _).
  destruct (alloc_cases m n fl Hs Hlk Hinv)
    as [[_ Hrej] | [(level & _ & _ & _ & Hoom) |
        (level & a' & c' & m1 & Hlevel & Hn & Hspec & Hok & Hs1 & Hh1 & _ & _ & Hc0)]].
  { rewrite Hrej in Hrun. by injection Hrun as <- <-. }
  { rewrite Hoom in Hrun. by injection Hrun as <- <-. }
  rewrite Hok in Hrun. injection Hrun as <- <-.
  assert (Z.log2 n = level) as Hlog by (subst n; apply Z.log2_pow2; lia).
  rewrite Hlog.
  destruct (spec_alloc_props level (mk_astate (states m) fl) a' c' Hinv)
    as (Hinv' & Hvc' & Hlc' & Hused & _ & sl & c0 & rest & Hfind & Hsl & Hfl & Hmem & Hsplit);
    [intros l Hl; by apply (linked_NoDup m) | unfold DEPTH; lia | done |].
  simpl in Hfl, Hsplit.
  apply spec_find_some in Hfind as Hmin. destruct Hmin as (_ & _ & Hmin).
  assert (0 <= sl < DEPTH) as Hslr by lia.
  destruct (proj1 Hlk sl Hslr) as (Hhd & _ & Hsz & Hnd & Hmemb).
  rewrite Hfl in Hhd, Hsz, Hmemb.
  destruct (Hmemb c0) as [Hvc0 Hlc0]; [by left|].
  exists fl, sl, c0, rest.
  split; [done|]. split; [lia|]. split; [lia|].
  split; [rewrite Hsz; simpl; lia|].
  split.
  { intros j Hj. destruct (proj1 Hlk j) as (_ & _ & Hszj & _); [lia|].
    rewrite Hszj. specialize (Hmin j Hj). simpl in Hmin. by rewrite Hmin. }
  split; [done|]. split; [done|]. split; [done|].
  destruct Hh1 as [Hst1 Hlk1].
  split.
  { destruct (proj1 Hlk1 sl Hslr) as (_ & _ & Hsz1 & _).
    rewrite Hsz1, Hsz.
    assert (a' = (spec_split (Z.to_nat (sl - level)) c0
                    (mk_astate (states m) (upd fl sl rest))).1) as -> by (by rewrite <- Hsplit).
    rewrite spec_split_free_above by (done || lia). simpl. rewrite upd_eq. simpl. lia. }
  split; [by apply (Hc0 sl c0 rest)|]. split; [by apply (Hc0 sl c0 rest)|].
  rewrite <- Hsplit. simpl.
  split; [done|].
  destruct (shaped_fields m1 c' Hs1 Hvc') as (_ & _ & -> & _ & _ & _ & _ & ->).
  destruct (shaped_fields m c0 Hs Hvc0) as (_ & _ & _ & _ & _ & _ & _ & ->).
  split; [done|]. split; [|done].
  fold (states m1 c'). rewrite Hst1. apply Hused. by left.
Qed.

(** C3.  [buddy_free] on the address [pa] of an outstanding allocation that
    lies below [PHYSTOP]: the descent from the root (left child
    exactly when the right child's [memory] lies strictly above [pa]) arrives
    at the only USED node whose [memory] is [pa]; the call returns, and the
    machine then holds what the coalescing of the specification produces:
    while the current node is not the root and its neighbour is FREE, both
    become NONEXISTENT, the neighbour leaves the list of its level and the
    walk goes up to the parent; the node at which the loop ends is marked
    FREE and put on the list of its level.  Every node that has left a list
    this way has null [prev] and [next]. *)
Theorem free_algorithm m out pa n :
  reach m out -> (pa, n) ∈ out -> pa < PHYSTOP ->
  exists u fl m',
    descend FUEL pa (Some 0) (log_lock Acquire m) = Done (Some u) (log_lock Acquire m) /\
    u = spec_locate FUEL pa 0 (states m) /\
    valid u /\ state (nd m u) = USED /\ memory (nd m u) = pa /\
    (forall v, valid v -> state (nd m v) = USED -> memory (nd m v) = pa -> v = u) /\
    linked m fl /\
    buddy_free pa m = Done tt m' /\
    let r := spec_coalesce FUEL u (mk_astate (states m) fl) in
    (r.2 = 0 \/ a_state r.1 (nb_of r.2) <> FREE) /\
    holds m' (spec_release r.2 r.1) /\
    (forall b, valid b -> state (nd m b) = FREE -> state (nd m' b) <> FREE ->
               prev (nd m' b) = None /\ next (nd m' b) = None).
Proof.
  intros Hreach Hin Hfit.
  apply reach_good in Hreach as (Hs & fl & Hlk & Hinv & _ & _ & Htr).
  destruct (Htr pa n Hin) as (Hpa0 & u & Hvu & Hsu & Hmu & Hszu).
  pose proof (size_of_pos u Hvu) as Hszpos. pose proof PGSIZE_pos as Hpg.
  assert (spec_locate FUEL pa 0 (states m) = u) as Hloc.
  { apply (spec_locate_used _ fl);
      first [done | nia | apply desc_root; zlia | rewrite lvl_of_root; fuel_lia]. }
  destruct (descend_sim pa (log_lock Acquire m) (states m) FUEL 0)
    as (Hrun & _ & _); [by apply shaped_log_lock | done | apply Hinv | zlia | |].
  { rewrite lvl_of_root. fuel_lia. }
  rewrite Hloc in Hrun.
  destruct (shaped_fields m u Hs Hvu) as (_ & _ & _ & _ & _ & _ & _ & Hmemu).
  exists u, fl.
  destruct (free_cases m pa fl Hs Hlk Hinv)
    as [[Hbad _] | [(_ & Hno & _) |
        (_ & _ & _ & a' & m1 & Hspec & Hok & Hs1 & [Hst1 Hlk1] & Hinv1 & _)]].
  - exfalso. apply bad_address_true in Hbad.
    destruct (mem_of_bounds u Hvu) as (Hlo & Hhi & Hal). rewrite Hmu in *.
    pose proof (PGROUNDUP_ge end_). nia.
  - exfalso. apply Hno. by rewrite Hloc.
  - exists m1. split; [done|]. split; [done|]. split; [done|]. split; [done|].
    split; [by rewrite Hmemu|]. split.
    { intros v Hv Hsv Hmv.
      destruct (shaped_fields m v Hs Hv) as (_ & _ & _ & _ & _ & _ & _ & Hmemv).
      rewrite Hmemv in Hmv. pose proof (size_of_pos v Hv).
      apply (used_unique (states m) fl v u pa); try done; nia. }
    split; [done|]. split; [done|].
    unfold spec_free in Hspec. simpl in Hspec. rewrite Hloc in Hspec.
    rewrite decide_True in Hspec by done. injection Hspec as <-.
    split.
    { apply spec_coalesce_stop; [done|].
      pose proof (lvl_of_range u Hvu). fuel_lia. }
    split; [done|].
    intros b Hvb _ Hnf. apply (proj2 Hlk1 b Hvb).
    intros Hbin. apply Hnf.
    pose proof (lvl_of_range b Hvb).
    apply (ti_free _ _ Hinv1 (lvl_of b) b) in Hbin as (_ & Hf & _); [|lia].
    fold (states m1 b). by rewrite Hst1.
Qed.

(** C4, as the code has it: [buddy_alloc(n)] always returns, and it returns
    null if and only if [n <= 0], or [n > 512], or [n] is not a power of two,
    or no level from [log2 n] up to [DEPTH - 1] has a positive count (the
    arena starting above address 0); a call that returns null leaves the
    nodes, the lists and the counts as they were; and when [n] itself is
    refused the lock is not touched. *)
Theorem alloc_failure m out n :
  reach m out -> 0 < end_ ->
  (exists r m', buddy_alloc n m = Done r m') /\
  ((exists m', buddy_alloc n m = Done 0 m') <-> refused 512 n \/ exhausted m n) /\
  (forall m', buddy_alloc n m = Done 0 m' ->
     nodes m' = nodes m /\ lists m' = lists m /\ sizes m' = sizes m) /\
  (refused 512 n ->
   forall r m', buddy_alloc n m = Done r m' -> lock m' = lock m).
Proof.
  intros Hreach Hend. unfold refused, exhausted.
  apply reach_good in Hreach as (Hs & fl & Hlk & Hinv & _).
  destruct (alloc_cases m n fl Hs Hlk Hinv)
    as [[Hn Hrej] | [(level & Hlevel & Hn & Hspec & Hoom) |
        (level & a' & c' & m1 & Hlevel & Hn & Hspec & Hok & _)]].
  - rewrite Hrej. split; [by eauto|]. split; [|split].
    + split; [tauto | by eauto].
    + by intros m' [= <-].
    + by intros _ r m' [= _ <-].
  - assert (Z.log2 n = level) as Hlog by (subst n; apply Z.log2_pow2; lia).
    assert (0 < n <= 512) as Hrange.
    { subst n. split; [apply Z.pow_pos_nonneg; lia|].
      change 512 with (2 ^ 9). apply Z.pow_le_mono_r; lia. }
    rewrite Hoom. split; [by eauto|]. split; [|split].
    + split; [|by eauto]. intros _. right.
      intros l Hl. rewrite Hlog in Hl.
      unfold spec_alloc in Hspec.
      destruct (spec_find (Z.to_nat (DEPTH - level)) level _) as [sl|] eqn:Hfind.
      * apply spec_find_some in Hfind as (_ & Hne & _).
        by destruct (a_free _ sl).
      * pose proof (spec_find_none _ _ _ Hfind l) as Hnone.
        rewrite Z2Nat.id in Hnone by (unfold DEPTH; lia). simpl in Hnone.
        destruct (proj1 Hlk l) as (_ & _ & Hsz & _); [lia|].
        rewrite Hsz, Hnone by lia. done.
    + by intros m' [= <-].
    + intros [?|[?|Hnp]]; [lia | lia |]. exfalso. apply (Hnp level); [lia | done].
  - assert (Z.log2 n = level) as Hlog by (subst n; apply Z.log2_pow2; lia).
    assert (0 < n <= 512) as Hrange.
    { subst n. split; [apply Z.pow_pos_nonneg; lia|].
      change 512 with (2 ^ 9). apply Z.pow_le_mono_r; lia. }
    destruct (spec_alloc_props level (mk_astate (states m) fl) a' c' Hinv)
      as (_ & Hvc' & _ & _ & _ & sl & c0 & rest & _ & Hsl & Hfl & _);
      [intros l Hl; by apply (linked_NoDup m) | unfold DEPTH; lia | done |].
    simpl in Hfl.
    assert (mem_of c' <> 0) as Hnz.
    { destruct (mem_of_bounds c' Hvc') as (Hlo & _). pose proof (PGROUNDUP_ge end_). lia. }
    rewrite Hok. split; [by eauto|]. split; [|split].
    + split.
      * intros (m' & [= Hz _]). done.
      * intros [[?|[?|Hnp]]|Hnone]; [lia | lia | |].
        -- exfalso. apply (Hnp level); [lia | done].
        -- exfalso. specialize (Hnone sl). rewrite Hlog in Hnone.
           destruct (proj1 Hlk sl) as (_ & _ & Hsz & _); [lia|].
           rewrite Hsz, Hfl in Hnone. simpl in Hnone. lia.
    + intros m' [= Hz _]. done.
    + intros [?|[?|Hnp]]; [lia | lia |]. exfalso. apply (Hnp level); [lia | done].
Qed.

(** C8.  Round trip: when [buddy_alloc(n)] succeeds in a reachable state and
    the address it returns lies below [PHYSTOP], [buddy_free] of that address
    returns and restores, on every level, the free list (the same nodes, even
    in the same order), its count and the state of every node. *)
Theorem round_trip m out n a m1 :
  reach m out -> buddy_alloc n m = Done a m1 -> a <> 0 -> a < PHYSTOP ->
  exists m2,
    buddy_free a m1 = Done tt m2 /\
    (forall l, 0 <= l < DEPTH ->
       free_list m2 l ≡ₚ free_list m l /\ free_list m2 l = free_list m l /\
       sizes m2 !!! l = sizes m !!! l) /\
    (forall i, state (nd m2 i) = state (nd m i)).
Proof.
  intros Hreach Hrun Ha Hfit.
  apply reach_good in Hreach as (Hs & fl & Hlk & Hinv & _).
  destruct (alloc_cases m n fl Hs Hlk Hinv)
    as [[_ Hrej] | [(level & _ & _ & _ & Hoom) |
        (level & a' & c' & m1' & Hlevel & Hn & Hspec & Hok & Hs1 & [Hst1 Hlk1] & _)]].
  { rewrite Hrej in Hrun. by injection Hrun as <- <-. }
  { rewrite Hoom in Hrun. by injection Hrun as <- <-. }
  rewrite Hok in Hrun. injection Hrun as <- <-.
  assert (forall l, 0 <= l < DEPTH -> NoDup (fl l)) as Hnd
    by (intros l Hl; by apply (linked_NoDup m)).
  destruct (spec_alloc_props level (mk_astate (states m) fl) a' c' Hinv Hnd) as (Hinv' & Hvc' & Hlc' & Hused & _);
    [unfold DEPTH; lia | done |].
  simpl in Hused.
  assert (tree_inv (states m1') (a_free a')) as Hinv1
    by (by apply (tree_inv_ext (a_state a') _ (a_free a') _)).
  assert (states m1' c' = USED) as Hsc' by (rewrite Hst1; apply Hused; by left).
  pose proof (size_of_pos c' Hvc') as Hszpos. pose proof PGSIZE_pos as Hpg.
  assert (spec_locate FUEL (mem_of c') 0 (states m1') = c') as Hloc.
  { apply (spec_locate_used _ (a_free a'));
      first [done | nia | apply desc_root; zlia | rewrite lvl_of_root; fuel_lia]. }
  destruct (free_cases m1' (mem_of c') (a_free a') Hs1 Hlk1 Hinv1)
    as [[Hbad _] | [(_ & Hno & _) |
        (_ & _ & _ & a2 & m2 & Hspec2 & Hok2 & Hs2 & [Hst2 Hlk2] & _)]].
  - exfalso. apply bad_address_true in Hbad.
    destruct (mem_of_bounds c' Hvc') as (Hlo & Hhi & Hal).
    pose proof (PGROUNDUP_ge end_). nia.
  - exfalso. apply Hno. by rewrite Hloc.
  - exists m2. split; [done|].
    unfold spec_free in Hspec2. simpl in Hspec2. rewrite Hloc in Hspec2.
    rewrite decide_True in Hspec2 by done. injection Hspec2 as <-.
    destruct (spec_round_trip (mk_astate (states m) fl) level a' c'
                (mk_astate (states m1') (a_free a')))
      as [Hback_s Hback_f]; [exact Hinv | exact Hnd | unfold DEPTH; lia | exact Hspec | exact Hst1 | by intros l |].
    simpl in Hback_s, Hback_f.
    assert (linked m2 fl) as Hlk2'.
    { eapply linked_fl_ext; [|exact Hlk2]. intros l. symmetry. apply Hback_f. }
    split.
    + intros l Hl.
      rewrite (linked_free_list m2 fl l Hlk2' Hl), (linked_free_list m fl l Hlk Hl).
      split; [done|]. split; [done|].
      destruct (proj1 Hlk2' l Hl) as (_ & _ & -> & _).
      by destruct (proj1 Hlk l Hl) as (_ & _ & -> & _).
    + intros i. fold (states m2 i). rewrite Hst2. apply Hback_s.
Qed.

(** * Further properties of the allocator *)

(** ** Helper lemmas *)

Lemma mem_of_aligned u :
  valid u -> (mem_of u - PGROUNDUP end_) mod (size_of u * PGSIZE) = 0.
Proof.
  intros Hu. pose proof (size_of_pos u Hu). pose proof PGSIZE_pos.
  unfold mem_of.
  replace (PGROUNDUP end_ + offset_of u * PGSIZE - PGROUNDUP end_)
    with (offset_of u * PGSIZE) by lia.
  unfold offset_of.
  replace ((u + 1 - 2 ^ Z.log2 (u + 1)) * size_of u * PGSIZE)
    with ((u + 1 - 2 ^ Z.log2 (u + 1)) * (size_of u * PGSIZE)) by lia.
  apply Z.mod_mul. lia.
Qed.

Lemma states_log_lock o m i : states (log_lock o m) i = states m i.
Proof. reflexivity. Qed.

Lemma states_log_console s m i : states (log_console s m) i = states m i.
Proof. reflexivity. Qed.

Lemma reach_accounted m out :
  0 < end_ -> reach m out -> accounted (states m) out.
Proof.
  intros Hend.
  induction 1 as [m0 m Hrun | m out n a m' Hreach IH Hrun Ha | m out n m' Hreach IH Hrun
                 | m out pa m' Hreach IH Hrun].
  - destruct (buddy_init_post m0) as (m1 & Hrun1 & _ & Hst & _).
    rewrite Hrun in Hrun1. injection Hrun1 as <-.
    intros u Hu Hused. unfold states in Hused.
    destruct (Hst u Hu) as (Hsu & _). rewrite Hsu in Hused.
    destruct (u =? 0); discriminate Hused.
  - pose proof (reach_good _ _ Hreach) as (Hs & fl & Hlk & Hinv & _).
    destruct (alloc_cases m n fl Hs Hlk Hinv)
      as [[_ Hrej] | [(level & _ & _ & _ & Hoom) |
          (level & a' & c' & m1 & Hlevel & Hn & Hspec & Hok & _ & [Hst1 _] & _)]].
    { rewrite Hrej in Hrun. injection Hrun as <- <-. by destruct Ha. }
    { rewrite Hoom in Hrun. injection Hrun as <- <-. by destruct Ha. }
    rewrite Hok in Hrun. injection Hrun as <- <-.
    destruct (spec_alloc_props level (mk_astate (states m) fl) a' c' Hinv)
      as (_ & Hvc' & Hlc' & Hused & _);
      [intros l Hl; by apply (linked_NoDup m) | unfold DEPTH; lia | done |].
    simpl in Hused.
    intros u Hu Hsu. rewrite Hst1 in Hsu. apply Hused in Hsu as [-> | Hsu].
    + rewrite (size_of_pow2 c' level Hlc'), <- Hn. by left.
    + right. by apply IH.
  - pose proof (reach_good _ _ Hreach) as (Hs & fl & Hlk & Hinv & _).
    destruct (alloc_cases m n fl Hs Hlk Hinv)
      as [[_ Hrej] | [(level & _ & _ & _ & Hoom) |
          (level & a' & c' & m1 & Hlevel & Hn & Hspec & Hok & _)]].
    { rewrite Hrej in Hrun. injection Hrun as <-. exact IH. }
    { rewrite Hoom in Hrun. injection Hrun as <-. exact IH. }
    exfalso. rewrite Hok in Hrun. injection Hrun as Hz _.
    destruct (spec_alloc_props level (mk_astate (states m) fl) a' c' Hinv)
      as (_ & Hvc' & _);
      [intros l Hl; by apply (linked_NoDup m) | unfold DEPTH; lia | done |].
    destruct (mem_of_bounds c' Hvc') as (Hlo & _). pose proof (PGROUNDUP_ge end_). lia.
  - pose proof (reach_good _ _ Hreach) as (Hs & fl & Hlk & Hinv & _).
    destruct (free_cases m pa fl Hs Hlk Hinv)
      as [[_ Hp] | [(_ & _ & Hp) |
          (_ & Hu0 & Hm0 & a' & m1 & _ & Hok & _ & [Hst1 _] & _ & _ & _ & Hused)]];
      [by rewrite Hp in Hrun | by rewrite Hp in Hrun |].
    rewrite Hok in Hrun. injection Hrun as <-.
    pose proof (proj1 (proj2 (descend_sim pa (log_lock Acquire m) (states m) FUEL 0
                  (shaped_log_lock _ _ Hs) (fun i => eq_refl) (ti_leaf _ _ Hinv)
                  ltac:(zlia) ltac:(rewrite lvl_of_root; fuel_lia)))) as Hv0.
    intros u Hu Hsu. rewrite Hst1 in Hsu. apply Hused in Hsu as [Hne Hsu].
    apply list_elem_of_filter. split; [|by apply IH].
    simpl. intros Hmem. apply Hne.
    pose proof (size_of_pos u Hu). pose proof (size_of_pos _ Hv0). pose proof PGSIZE_pos.
    apply (used_unique (states m) fl u _ pa); try done; nia.
Qed.

(** Releasing an address that is not outstanding is fatal. *)
Lemma free_unknown m out pa :
  0 < end_ -> reach m out -> pa ∉ out.*1 ->
  exists m', buddy_free pa m = Panic "buddy_free" m'.
Proof.
  intros Hend Hreach Hnot.
  pose proof (reach_accounted m out Hend Hreach) as Hacc.
  pose proof (reach_good _ _ Hreach) as (Hs & fl & Hlk & Hinv & _).
  destruct (free_cases m pa fl Hs Hlk Hinv)
    as [[_ Hp] | [(_ & _ & Hp) | (_ & Hu0 & Hm0 & _)]]; [by eauto | by eauto |].
  exfalso. apply Hnot.
  pose proof (proj1 (proj2 (descend_sim pa (log_lock Acquire m) (states m) FUEL 0
                (shaped_log_lock _ _ Hs) (fun i => eq_refl) (ti_leaf _ _ Hinv)
                ltac:(zlia) ltac:(rewrite lvl_of_root; fuel_lia)))) as Hv0.
  pose proof (Hacc _ Hv0 Hu0) as Hin. rewrite Hm0 in Hin.
  apply list_elem_of_fmap. by exists (pa, size_of (spec_locate FUEL pa 0 (states m))).
Qed.

(** ** Counting pages *)

Lemma free_pages_upto_ext k f g :
  (forall l, 0 <= l < Z.of_nat k -> f l = g l) ->
  free_pages_upto k f = free_pages_upto k g.
Proof.
  induction k as [|k IH]; intros Hfg; [done|].
  cbn [free_pages_upto]. rewrite IH by (intros l Hl; apply Hfg; lia).
  rewrite Hfg by lia. done.
Qed.

Lemma free_pages_upto_upd k f l v :
  0 <= l ->
  free_pages_upto k (upd f l v) =
  free_pages_upto k f + (if decide (l < Z.of_nat k) then (v - f l) * 2 ^ l else 0).
Proof.
  intros Hl. induction k as [|k IH].
  - simpl. rewrite decide_False by lia. lia.
  - cbn [free_pages_upto]. rewrite IH.
    rewrite !Z.shiftl_mul_pow2 by lia.
    destruct (decide (l = Z.of_nat k)) as [->|Hne].
    + rewrite upd_eq. repeat case_decide; lia.
    + rewrite upd_ne by lia. repeat case_decide; lia.
Qed.

Lemma free_in_upd fl l L :
  0 <= l < DEPTH ->
  free_in (upd fl l L) =
  free_in fl + (Z.of_nat (length L) - Z.of_nat (length (fl l))) * 2 ^ l.
Proof.
  intros Hl. unfold free_in.
  rewrite (free_pages_upto_ext _ _
             (upd (fun x => Z.of_nat (length (fl x))) l (Z.of_nat (length L)))).
  2:{ intros x _. unfold upd. by case_decide. }
  rewrite free_pages_upto_upd by lia.
  rewrite decide_True by (unfold DEPTH in *; lia). done.
Qed.

Lemma linked_free_pages m fl : linked m fl -> free_pages m = free_in fl.
Proof.
  intros Hlk. unfold free_pages, free_in. apply free_pages_upto_ext.
  intros l Hl. destruct (proj1 Hlk l) as (_ & _ & Hsz & _); [unfold DEPTH in *; lia | done].
Qed.

Lemma pow2_half l : 0 < l -> 2 ^ l = 2 * 2 ^ (l - 1).
Proof. intros Hl. rewrite <- Z.pow_succ_r by lia. f_equal. lia. Qed.

(** Splitting a block of level [sl] down to level [sl - k] leaves the pages of
    the block on the lists, short of the part handed out. *)
Lemma spec_split_pages k : forall c a,
  valid c -> Z.of_nat k <= lvl_of c ->
  free_in (a_free (spec_split k c a).1) =
  free_in (a_free a) + 2 ^ lvl_of c - 2 ^ (lvl_of c - Z.of_nat k).
Proof.
  induction k as [|k IH]; intros c a Hc Hk.
  - simpl. rewrite Z.sub_0_r. lia.
  - assert (0 <= c < HALF) as Hhalf.
    { pose proof (proj1 (lvl_of_pos c Hc)). zlia. }
    assert (valid (2 * c + 1) /\ valid (2 * c + 2)) as [Hvl Hvr] by zlia.
    pose proof (lvl_of_range c Hc) as Hlr.
    cbn [spec_split]. rewrite IH; [| done | rewrite lvl_of_left by lia; lia].
    simpl a_free. rewrite free_in_upd by (rewrite lvl_of_right by lia; lia).
    rewrite lvl_of_left, lvl_of_right by lia.
    simpl length. rewrite (pow2_half (lvl_of c)) by lia.
    replace (lvl_of c - 1 - Z.of_nat k) with (lvl_of c - Z.of_nat (S k)) by lia.
    lia.
Qed.

Lemma spec_alloc_pages level a a' c' :
  tree_inv (a_state a) (a_free a) ->
  (forall l, 0 <= l < DEPTH -> NoDup (a_free a l)) ->
  0 <= level < DEPTH ->
  spec_alloc level a = Some (a', c') ->
  free_in (a_free a') = free_in (a_free a) - 2 ^ level.
Proof.
  intros Hinv Hnd Hlevel Hspec.
  destruct (spec_alloc_props level a a' c' Hinv Hnd Hlevel Hspec)
    as (_ & _ & _ & _ & _ & sl & c0 & rest & _ & Hsl & Hfl & _ & Hsplit).
  assert (0 <= sl < DEPTH) as Hslr by lia.
  assert (valid c0 /\ a_state a c0 = FREE /\ lvl_of c0 = sl) as (Hvc0 & _ & Hlc0).
  { apply (ti_free _ _ Hinv sl c0 Hslr). rewrite Hfl. by left. }
  replace a' with (a', c').1 by done. rewrite Hsplit.
  rewrite spec_split_pages by (done || lia).
  simpl a_free. rewrite free_in_upd by done. rewrite Hfl, Hlc0. simpl length.
  replace (sl - Z.of_nat (Z.to_nat (sl - level))) with level by lia. lia.
Qed.

(** Coalescing takes the buddies off the lists; their pages are the pages of
    the node it ends at, short of the block it started from. *)
Lemma spec_coalesce_pages k : forall c a,
  valid c ->
  tree_inv (upd (a_state a) c USED) (a_free a) ->
  (forall l, 0 <= l < DEPTH -> NoDup (a_free a l)) ->
  valid (spec_coalesce k c a).2 /\
  free_in (a_free (spec_coalesce k c a).1) + 2 ^ lvl_of (spec_coalesce k c a).2 =
  free_in (a_free a) + 2 ^ lvl_of c.
Proof.
  induction k as [|k IH]; intros c a Hc Hinv Hnd; [done|].
  cbn [spec_coalesce]. case_decide as Hd; [|done].
  destruct Hd as [Hc0 Hfree].
  destruct (nb_props c) as (Hp & Hvb & Hbc & Hside & Hlb & Hlp); [zlia|].
  remember (nb_of c) as b eqn:Hbdef. remember (parent_of c) as p eqn:Hpdef.
  assert (0 <= lvl_of b < DEPTH) as Hlbr by (apply lvl_of_range in Hvb; lia).
  assert (b ∈ a_free a (lvl_of b)) as Hbin.
  { apply (ti_free _ _ Hinv (lvl_of b) b Hlbr). rewrite upd_ne by done. done. }
  apply list_elem_of_split in Hbin as (L1 & L2 & Hfl).
  pose proof (Hnd (lvl_of b) Hlbr) as Hndb.
  rewrite Hfl, filter_remove_mid by (by rewrite <- Hfl).
  set (a1 := mk_astate (upd (upd (a_state a) c NONEXISTENT) b NONEXISTENT)
                       (upd (a_free a) (lvl_of b) (L1 ++ L2))).
  assert (tree_inv (upd (a_state a1) p USED) (a_free a1)) as Hinv1.
  { apply (tree_inv_ext
             (upd (upd (upd (upd (a_state a) c USED) c NONEXISTENT) b NONEXISTENT) p USED)
             _ (upd (a_free a) (lvl_of b) (L1 ++ L2)) _).
    - intros i. subst a1. simpl. unfold upd. by repeat case_decide.
    - done.
    - apply (tree_inv_merge _ _ p c b L1 L2 Hinv); try done.
      + apply upd_eq.
      + by rewrite upd_ne. }
  assert (forall l, 0 <= l < DEPTH -> NoDup (a_free a1 l)) as Hnd1.
  { intros l Hl. subst a1. simpl. unfold upd. case_decide as Hdl; [|by apply Hnd].
    rewrite Hfl in Hndb. apply NoDup_app in Hndb as (H1 & H2 & H3).
    apply NoDup_cons in H3 as [_ H3]. apply NoDup_app. split; [done|].
    split; [|done]. intros x Hx Hx2. apply (H2 x Hx). by right. }
  destruct (IH p a1) as [Hv Hsum]; [zlia | done | done |].
  split; [exact Hv|]. rewrite Hsum. subst a1. simpl a_free.
  rewrite free_in_upd by done. rewrite Hfl, Hlp, Hlb.
  rewrite !length_app. simpl length.
  pose proof (lvl_of_range c Hc).
  rewrite (pow2_half (lvl_of c + 1)) by lia.
  replace (lvl_of c + 1 - 1) with (lvl_of c) by lia. lia.
Qed.

Lemma pages_out_nonneg out :
  (forall a n, (a, n) ∈ out -> 0 < n) -> 0 <= pages_out out.
Proof.
  induction out as [|[a n] out IH]; intros Hpos; [done|]. simpl.
  assert (0 < n) by (apply (Hpos a); by left).
  assert (0 <= pages_out out); [|lia].
  apply IH. intros a' n' Hin. apply (Hpos a'). by right.
Qed.

Lemma filter_other (out : list (Z * Z)) pa :
  pa ∉ out.*1 -> filter (fun e => e.1 <> pa) out = out.
Proof.
  induction out as [|[a k] out IH]; intros Hnotin; [done|].
  rewrite fmap_cons in Hnotin. apply not_elem_of_cons in Hnotin as [Hne Hnotin].
  rewrite filter_cons_True by (simpl in *; congruence).
  f_equal. by apply IH.
Qed.

Lemma pages_out_filter out pa n :
  NoDup (out.*1) -> (pa, n) ∈ out ->
  pages_out (filter (fun e => e.1 <> pa) out) = pages_out out - n.
Proof.
  induction out as [|[a k] out IH]; intros Hnd Hin; [by apply elem_of_nil in Hin|].
  rewrite fmap_cons in Hnd. apply NoDup_cons in Hnd as [Hnotin Hnd]. simpl in Hnotin.
  apply elem_of_cons in Hin as [[= <- <-] | Hin].
  - rewrite filter_cons_False by (simpl; intros H; by apply H).
    rewrite filter_other by done. simpl. lia.
  - assert (a <> pa) as Hne.
    { intros ->. apply Hnotin. apply list_elem_of_fmap. by exists (pa, n). }
    rewrite filter_cons_True by done. simpl. rewrite IH by done. lia.
Qed.

(** No page is lost: the pages on the free lists and the pages of the
    outstanding allocations make up the arena. *)
Lemma reach_pages m out :
  0 < end_ -> reach m out -> free_pages m + pages_out out = PAGES.
Proof.
  intros Hend Hreach.
  induction Hreach as [m0 m Hrun | m out n a m' Hreach IH Hrun Ha
                      | m out n m' Hreach IH Hrun | m out pa m' Hreach IH Hrun].
  - destruct (buddy_init_post m0) as (m1 & Hrun1 & _ & _ & Hls & _).
    rewrite Hrun in Hrun1. injection Hrun1 as <-.
    unfold free_pages.
    rewrite (free_pages_upto_ext _ _ (fun l => if l =? DEPTH - 1 then 1 else 0)).
    + reflexivity.
    + intros l Hl. apply Hls. unfold DEPTH in *. lia.
  - pose proof (reach_good _ _ Hreach) as (Hs & fl & Hlk & Hinv & _).
    destruct (alloc_cases m n fl Hs Hlk Hinv)
      as [[_ Hrej] | [(level & _ & _ & _ & Hoom) |
          (level & a' & c' & m1 & Hlevel & Hn & Hspec & Hok & _ & [_ Hlk1] & _)]].
    { rewrite Hrej in Hrun. injection Hrun as <- <-. by destruct Ha. }
    { rewrite Hoom in Hrun. injection Hrun as <- <-. by destruct Ha. }
    rewrite Hok in Hrun. injection Hrun as <- <-.
    rewrite (linked_free_pages m1 _ Hlk1).
    rewrite (spec_alloc_pages level (mk_astate (states m) fl) a' c' Hinv);
      [| intros l Hl; by apply (linked_NoDup m) | unfold DEPTH; lia | done].
    simpl a_free. rewrite <- (linked_free_pages m fl Hlk). simpl. lia.
  - pose proof (reach_good _ _ Hreach) as (Hs & fl & Hlk & Hinv & _).
    destruct (alloc_cases m n fl Hs Hlk Hinv)
      as [[_ Hrej] | [(level & _ & _ & _ & Hoom) |
          (level & a' & c' & m1 & Hlevel & Hn & Hspec & Hok & _)]].
    { rewrite Hrej in Hrun. injection Hrun as <-. exact IH. }
    { rewrite Hoom in Hrun. injection Hrun as <-. exact IH. }
    exfalso. rewrite Hok in Hrun. injection Hrun as Hz _.
    destruct (spec_alloc_props level (mk_astate (states m) fl) a' c' Hinv)
      as (_ & Hvc' & _);
      [intros l Hl; by apply (linked_NoDup m) | unfold DEPTH; lia | done |].
    destruct (mem_of_bounds c' Hvc') as (Hlo & _). pose proof (PGROUNDUP_ge end_). lia.
  - pose proof (reach_accounted m out Hend Hreach) as Hacc.
    pose proof (reach_good _ _ Hreach) as (Hs & fl & Hlk & Hinv & _ & Hnd & _).
    destruct (free_cases m pa fl Hs Hlk Hinv)
      as [[_ Hp] | [(_ & _ & Hp) |
          (_ & Hu0 & Hm0 & a' & m1 & Hspec & Hok & _ & [_ Hlk1] & _)]];
      [by rewrite Hp in Hrun | by rewrite Hp in Hrun |].
    rewrite Hok in Hrun. injection Hrun as <-.
    pose proof (proj1 (proj2 (descend_sim pa (log_lock Acquire m) (states m) FUEL 0
                  (shaped_log_lock _ _ Hs) (fun i => eq_refl) (ti_leaf _ _ Hinv)
                  ltac:(zlia) ltac:(rewrite lvl_of_root; fuel_lia)))) as Hv0.
    remember (spec_locate FUEL pa 0 (states m)) as u eqn:Hudef.
    unfold spec_free in Hspec. simpl in Hspec. rewrite <- Hudef in Hspec.
    rewrite decide_True in Hspec by done. injection Hspec as <-.
    destruct (spec_coalesce_pages FUEL u (mk_astate (states m) fl) Hv0) as [Hvr Hsum].
    { apply (tree_inv_ext (states m) _ fl _); [|done|done].
      intros i. simpl. unfold upd. case_decide; [by subst|done]. }
    { intros l Hl. by apply (linked_NoDup m). }
    simpl a_free in Hsum.
    rewrite (linked_free_pages m1 _ Hlk1). unfold spec_release. simpl a_free.
    pose proof (lvl_of_range _ Hvr) as Hlr.
    rewrite free_in_upd by lia. simpl length.
    rewrite (pages_out_filter out pa (size_of u) Hnd).
    2:{ rewrite <- Hm0. by apply Hacc. }
    rewrite (linked_free_pages m fl Hlk) in IH. unfold size_of. lia.
Qed.

Lemma free_pages_upto_nonneg k f :
  (forall l, 0 <= l < Z.of_nat k -> 0 <= f l) -> 0 <= free_pages_upto k f.
Proof.
  induction k as [|k IH]; intros Hf; [done|].
  cbn [free_pages_upto].
  assert (0 <= free_pages_upto k f) by (apply IH; intros l Hl; apply Hf; lia).
  assert (0 <= Z.shiftl (f (Z.of_nat k)) (Z.of_nat k))
    by (apply Z.shiftl_nonneg, Hf; lia).
  lia.
Qed.

(** ** [print_cur_info] *)

Lemma low_levels_run r : forall k loc free m,
  Z.of_nat k + Z.of_nat r <= DEPTH ->
  exists loc',
    low_levels r (Z.of_nat k) loc free m =
      Done (loc', free + (free_pages_upto (k + r) (fun l => sizes m !!! l)
                          - free_pages_upto k (fun l => sizes m !!! l))) m /\
    (forall x, loc' x = if decide (Z.of_nat k <= x < Z.of_nat k + Z.of_nat r)
                        then sizes m !!! x else loc x).
Proof.
  induction r as [|r IH]; intros k loc free m Hk.
  - exists loc. split.
    + simpl. rewrite Nat.add_0_r. unfold ret. do 2 f_equal. lia.
    + intros x. rewrite decide_False by lia. done.
  - cbn [low_levels]. mstep. mstep.
    replace (Z.of_nat k + 1) with (Z.of_nat (S k)) by lia.
    destruct (IH (S k) (upd loc (Z.of_nat k) (sizes m !!! Z.of_nat k))
                (free + Z.shiftl (sizes m !!! Z.of_nat k) (Z.of_nat k)) m)
      as (loc' & Hrun & Hloc); [lia|].
    exists loc'. split.
    + rewrite Hrun. do 2 f_equal.
      replace (k + S r)%nat with (S k + r)%nat by lia.
      cbn [free_pages_upto]. lia.
    + intros x. rewrite Hloc. unfold upd.
      repeat case_decide; subst; (done || lia).
Qed.

Lemma high_levels_run r : forall k loc free m,
  Z.of_nat k + Z.of_nat r <= DEPTH ->
  exists loc',
    high_levels r (Z.of_nat k) loc free m =
      Done (loc', free + (free_pages_upto (k + r) (fun l => sizes m !!! l)
                          - free_pages_upto k (fun l => sizes m !!! l))) m /\
    loc' 9 = loc 9 + top_blocks r (Z.of_nat k) (fun l => sizes m !!! l) /\
    (forall x, x <> 9 -> loc' x = loc x).
Proof.
  induction r as [|r IH]; intros k loc free m Hk.
  - exists loc. split; [|split; [simpl; lia | done]].
    simpl. rewrite Nat.add_0_r. unfold ret. do 2 f_equal. lia.
  - cbn [high_levels]. mstep. mstep.
    replace (Z.of_nat k + 1) with (Z.of_nat (S k)) by lia.
    destruct (IH (S k)
                (upd loc 9 (loc 9 + Z.shiftl (sizes m !!! Z.of_nat k) (Z.of_nat k - 9)))
                (free + Z.shiftl (sizes m !!! Z.of_nat k) (Z.of_nat k)) m)
      as (loc' & Hrun & H9 & Hloc); [lia|].
    exists loc'. split; [|split].
    + rewrite Hrun. do 2 f_equal.
      replace (k + S r)%nat with (S k + r)%nat by lia.
      cbn [free_pages_upto]. lia.
    + rewrite H9, upd_eq. cbn [top_blocks].
      replace (Z.of_nat k + 1) with (Z.of_nat (S k)) by lia. lia.
    + intros x Hx. rewrite Hloc by done. by rewrite upd_ne.
Qed.

(** ** The values of [state] *)

Lemma spec_split_range k : forall c a,
  (forall i, valid i -> 0 <= a_state a i <= 3) ->
  forall i, valid i -> 0 <= a_state (spec_split k c a).1 i <= 3.
Proof.
  induction k as [|k IH]; intros c a Ha i Hi.
  - simpl. unfold upd. case_decide; [unfold USED; lia | by apply Ha].
  - cbn [spec_split]. apply IH; [|done]. intros j Hj. simpl. unfold upd.
    repeat case_decide; try (unfold INNER, FREE; lia). by apply Ha.
Qed.

Lemma spec_coalesce_range k : forall c a,
  (forall i, valid i -> 0 <= a_state a i <= 3) ->
  forall i, valid i -> 0 <= a_state (spec_coalesce k c a).1 i <= 3.
Proof.
  induction k as [|k IH]; intros c a Ha i Hi; [by apply Ha|].
  cbn [spec_coalesce]. case_decide; [|by apply Ha].
  apply IH; [|done]. intros j Hj. simpl. unfold upd.
  repeat case_decide; try (unfold NONEXISTENT; lia). by apply Ha.
Qed.

Lemma reach_range m out :
  reach m out -> forall i, valid i -> 0 <= states m i <= 3.
Proof.
  induction 1 as [m0 m Hrun | m out n a m' Hreach IH Hrun _ | m out n m' Hreach IH Hrun
                 | m out pa m' Hreach IH Hrun]; intros i Hi.
  - destruct (buddy_init_post m0) as (m1 & Hrun1 & _ & Hst & _).
    rewrite Hrun in Hrun1. injection Hrun1 as <-.
    unfold states. destruct (Hst i Hi) as (-> & _).
    destruct (i =? 0); unfold FREE, NONEXISTENT; lia.
  - pose proof (reach_good _ _ Hreach) as (Hs & fl & Hlk & Hinv & _).
    destruct (alloc_cases m n fl Hs Hlk Hinv)
      as [[_ Hrej] | [(level & _ & _ & _ & Hoom) |
          (level & a' & c' & m1 & Hlevel & Hn & Hspec & Hok & _ & [Hst1 _] & _)]].
    { rewrite Hrej in Hrun. injection Hrun as _ <-. by apply IH. }
    { rewrite Hoom in Hrun. injection Hrun as _ <-. by apply IH. }
    rewrite Hok in Hrun. injection Hrun as _ <-.
    destruct (spec_alloc_props level (mk_astate (states m) fl) a' c' Hinv)
      as (_ & _ & _ & _ & _ & sl & c0 & rest & _ & _ & _ & _ & Hsplit);
      [intros l Hl; by apply (linked_NoDup m) | unfold DEPTH; lia | done |].
    rewrite Hst1. replace a' with (a', c').1 by done. rewrite Hsplit.
    by apply spec_split_range.
  - pose proof (reach_good _ _ Hreach) as (Hs & fl & Hlk & Hinv & _).
    destruct (alloc_cases m n fl Hs Hlk Hinv)
      as [[_ Hrej] | [(level & _ & _ & _ & Hoom) |
          (level & a' & c' & m1 & Hlevel & Hn & Hspec & Hok & _ & [Hst1 _] & _)]].
    { rewrite Hrej in Hrun. injection Hrun as <-. by apply IH. }
    { rewrite Hoom in Hrun. injection Hrun as <-. by apply IH. }
    rewrite Hok in Hrun. injection Hrun as _ <-.
    destruct (spec_alloc_props level (mk_astate (states m) fl) a' c' Hinv)
      as (_ & _ & _ & _ & _ & sl & c0 & rest & _ & _ & _ & _ & Hsplit);
      [intros l Hl; by apply (linked_NoDup m) | unfold DEPTH; lia | done |].
    rewrite Hst1. replace a' with (a', c').1 by done. rewrite Hsplit.
    by apply spec_split_range.
  - pose proof (reach_good _ _ Hreach) as (Hs & fl & Hlk & Hinv & _).
    destruct (free_cases m pa fl Hs Hlk Hinv)
      as [[_ Hp] | [(_ & _ & Hp) |
          (_ & Hu0 & Hm0 & a' & m1 & Hspec & Hok & _ & [Hst1 _] & _)]];
      [by rewrite Hp in Hrun | by rewrite Hp in Hrun |].
    rewrite Hok in Hrun. injection Hrun as <-.
    unfold spec_free in Hspec. simpl in Hspec.
    rewrite decide_True in Hspec by done. injection Hspec as <-.
    rewrite Hst1. unfold spec_release. simpl. unfold upd.
    case_decide; [unfold FREE; lia|]. by apply spec_coalesce_range.
Qed.

(** With nothing in use no node is split. *)
Lemma idle_no_inner s fl :
  tree_inv s fl -> (forall i, valid i -> 0 <= s i <= 3) ->
  (forall i, valid i -> s i <> USED) ->
  forall k i, valid i -> lvl_of i = Z.of_nat k -> s i <> INNER.
Proof.
  intros Hinv Hrange Hnu. induction k as [|k IH]; intros i Hi Hlv.
  - apply (ti_leaf _ _ Hinv). pose proof (lvl_of_pos i Hi). zlia.
  - intros Hin.
    assert (0 <= i < HALF) as Hh by (pose proof (proj1 (lvl_of_pos i Hi)); zlia).
    assert (valid (2 * i + 1) /\ valid (2 * i + 2)) as [Hvl Hvr] by zlia.
    pose proof (proj1 (ti_left _ _ Hinv i Hh) Hin) as Hl.
    pose proof (proj1 (ti_right _ _ Hinv i Hh) Hin) as Hr.
    pose proof (IH _ Hvl ltac:(rewrite lvl_of_left by lia; lia)) as Hl2.
    pose proof (IH _ Hvr ltac:(rewrite lvl_of_right by lia; lia)) as Hr2.
    pose proof (Hnu _ Hvl) as Hl1. pose proof (Hnu _ Hvr) as Hr1.
    pose proof (Hrange _ Hvl) as Hl3. pose proof (Hrange _ Hvr) as Hr3.
    apply (ti_buddy _ _ Hinv i Hh).
    clear - Hl Hl1 Hl2 Hl3 Hr Hr1 Hr2 Hr3.
    unfold NONEXISTENT, USED, INNER, FREE in *. lia.
Qed.

(** After a request and the release of its block the machine holds the states
    and the lists it held before. *)
Lemma round_trip_holds m fl n a m1 :
  shaped m -> linked m fl -> tree_inv (states m) fl ->
  buddy_alloc n m = Done a m1 -> a <> 0 -> a < PHYSTOP ->
  exists level a' c' m2,
    0 <= level <= 9 /\ n = 2 ^ level /\
    spec_alloc level (mk_astate (states m) fl) = Some (a', c') /\ a = mem_of c' /\
    buddy_free a m1 = Done tt m2 /\
    shaped m2 /\ linked m2 fl /\ (forall i, states m2 i = states m i).
Proof.
  intros Hs Hlk Hinv Hrun Ha Hfit.
  destruct (alloc_cases m n fl Hs Hlk Hinv)
    as [[_ Hrej] | [(level & _ & _ & _ & Hoom) |
        (level & a' & c' & m1' & Hlevel & Hn & Hspec & Hok & Hs1 & [Hst1 Hlk1] & _)]].
  { rewrite Hrej in Hrun. by injection Hrun as <- <-. }
  { rewrite Hoom in Hrun. by injection Hrun as <- <-. }
  rewrite Hok in Hrun. injection Hrun as <- <-.
  assert (forall l, 0 <= l < DEPTH -> NoDup (fl l)) as Hnd
    by (intros l Hl; by apply (linked_NoDup m)).
  destruct (spec_alloc_props level (mk_astate (states m) fl) a' c' Hinv Hnd)
    as (Hinv' & Hvc' & Hlc' & Hused & _); [unfold DEPTH; lia | done |].
  simpl in Hused.
  assert (tree_inv (states m1') (a_free a')) as Hinv1
    by (by apply (tree_inv_ext (a_state a') _ (a_free a') _)).
  assert (states m1' c' = USED) as Hsc' by (rewrite Hst1; apply Hused; by left).
  pose proof (size_of_pos c' Hvc') as Hszpos. pose proof PGSIZE_pos as Hpg.
  assert (spec_locate FUEL (mem_of c') 0 (states m1') = c') as Hloc.
  { apply (spec_locate_used _ (a_free a'));
      first [done | nia | apply desc_root; zlia | rewrite lvl_of_root; fuel_lia]. }
  destruct (free_cases m1' (mem_of c') (a_free a') Hs1 Hlk1 Hinv1)
    as [[Hbad _] | [(_ & Hno & _) |
        (_ & _ & _ & a2 & m2 & Hspec2 & Hok2 & Hs2 & [Hst2 Hlk2] & _)]].
  - exfalso. apply bad_address_true in Hbad.
    destruct (mem_of_bounds c' Hvc') as (Hlo & Hhi & Hal).
    pose proof (PGROUNDUP_ge end_). nia.
  - exfalso. apply Hno. by rewrite Hloc.
  - exists level, a', c', m2.
    split; [done|]. split; [done|]. split; [done|]. split; [done|]. split; [done|].
    split; [done|].
    unfold spec_free in Hspec2. simpl in Hspec2. rewrite Hloc in Hspec2.
    rewrite decide_True in Hspec2 by done. injection Hspec2 as <-.
    destruct (spec_round_trip (mk_astate (states m) fl) level a' c'
                (mk_astate (states m1') (a_free a')))
      as [Hback_s Hback_f];
      [exact Hinv | exact Hnd | unfold DEPTH; lia | exact Hspec | exact Hst1
      | by intros l |].
    simpl in Hback_s, Hback_f. split.
    + eapply linked_fl_ext; [|exact Hlk2]. intros l. symmetry. apply Hback_f.
    + intros i. rewrite Hst2. apply Hback_s.
Qed.

Lemma free1_run :
  0 < end_ -> page1 < PHYSTOP -> buddy_free page1 after1 = Done tt freed1.
Proof.
  intros Hend Hfit. destruct (alloc1_run Hend) as [Hrun Ha].
  pose proof (reach_good _ _ reach_boot) as (Hs & fl & Hlk & Hinv & _).
  destruct (round_trip_holds boot fl 1 page1 after1 Hs Hlk Hinv Hrun Ha Hfit)
    as (level & a' & c' & m2 & _ & _ & _ & _ & Hfree & _).
  unfold freed1. rewrite (run_done (buddy_free page1) after1 tt m2 Hfree).
  exact Hfree.
Qed.

Lemma boot_state i :
  valid i -> state (nd boot i) = (if i =? 0 then FREE else NONEXISTENT).
Proof.
  intros Hi. destruct (buddy_init_post empty_machine) as (m & Hrun & _ & Hst & _).
  unfold boot. rewrite (run_done buddy_init empty_machine tt m Hrun).
  exact (proj1 (Hst i Hi)).
Qed.

Lemma node_ext (n1 n2 : node) :
  skel n1 = skel n2 -> state n1 = state n2 -> prev n1 = prev n2 -> next n1 = next n2 ->
  n1 = n2.
Proof.
  destruct n1, n2. unfold skel. simpl. intros [= -> -> -> -> -> -> -> ->] -> -> ->. done.
Qed.

Lemma reboot_run : buddy_init after1 = Done tt reboot.
Proof.
  destruct (buddy_init_post after1) as (m & Hrun & _).
  unfold reboot. rewrite (run_done buddy_init after1 tt m Hrun). exact Hrun.
Qed.

Lemma free_pages_upto_term k f l :
  (forall x, 0 <= x < Z.of_nat k -> 0 <= f x) -> 0 <= l < Z.of_nat k ->
  Z.shiftl (f l) l <= free_pages_upto k f.
Proof.
  induction k as [|k IH]; intros Hf Hl; [lia|].
  cbn [free_pages_upto].
  assert (0 <= free_pages_upto k f)
    by (apply free_pages_upto_nonneg; intros x Hx; apply Hf; lia).
  assert (0 <= Z.shiftl (f (Z.of_nat k)) (Z.of_nat k))
    by (apply Z.shiftl_nonneg, Hf; lia).
  destruct (decide (l = Z.of_nat k)) as [->|Hne]; [lia|].
  assert (Z.shiftl (f l) l <= free_pages_upto k f); [|lia].
  apply IH; [|lia]. intros x Hx. apply Hf. lia.
Qed.

(** ** The theorems *)

(** X1.  The structural fields that [buddy_init] writes are never written
    again: in every reachable state node [i] has [id = i], its level is
    [DEPTH - 1 - log2 (i + 1)], its size is two to the power of its level, its
    children are [2i + 1] and [2i + 2] when [2i + 2 < NODES] and null
    otherwise, its parent is [(i - 1) / 2] and its neighbour [i + 1] or
    [i - 1] (the root is its own parent and neighbour), and its block starts
    [(i + 1 - 2 ^ log2 (i + 1)) * size] pages above [PGROUNDUP(end)]. *)
Theorem structure_fixed m out i :
  reach m out -> valid i ->
  id (nd m i) = i /\
  lvl (nd m i) = DEPTH - 1 - Z.log2 (i + 1) /\
  size (nd m i) = 2 ^ lvl (nd m i) /\
  left_child (nd m i) = (if 2 * i + 2 <? NODES then Some (2 * i + 1) else None) /\
  right_child (nd m i) = (if 2 * i + 2 <? NODES then Some (2 * i + 2) else None) /\
  parent (nd m i) = Some (if i =? 0 then 0 else (i - 1) / 2) /\
  neighbour (nd m i) = Some (if i =? 0 then 0 else if Z.odd i then i + 1 else i - 1) /\
  memory (nd m i) =
    PGROUNDUP end_ + (i + 1 - 2 ^ Z.log2 (i + 1)) * size (nd m i) * PGSIZE.
Proof.
  intros Hreach Hi. apply reach_good in Hreach as (Hs & _).
  destruct (shaped_fields m i Hs Hi) as (-> & -> & -> & -> & -> & -> & -> & ->).
  replace (2 * i + 2 <? NODES) with (i <? HALF).
  2:{ destruct (Z.ltb_spec i HALF), (Z.ltb_spec (2 * i + 2) NODES); try done; zlia. }
  repeat (split; [reflexivity|]). reflexivity.
Qed.

(** X2.  The states of the nodes form a tree of blocks in every reachable
    state: the root exists; a node that has children is INNER exactly when its
    left child exists and exactly when its right child exists, so the children
    of a FREE, USED or NONEXISTENT node are both NONEXISTENT; and a node
    without children is never INNER. *)
Theorem tree_shape m out :
  reach m out ->
  state (nd m 0) <> NONEXISTENT /\
  (forall p, 0 <= p -> 2 * p + 2 < NODES ->
     (state (nd m p) = INNER <-> state (nd m (2 * p + 1)) <> NONEXISTENT) /\
     (state (nd m p) = INNER <-> state (nd m (2 * p + 2)) <> NONEXISTENT)) /\
  (forall i, valid i -> NODES <= 2 * i + 2 -> state (nd m i) <> INNER).
Proof.
  intros Hreach. apply reach_good in Hreach as (_ & fl & _ & Hinv & _).
  split; [exact (ti_root _ _ Hinv)|]. split.
  - intros p Hp0 Hp. assert (0 <= p < HALF) as Hh by zlia.
    split; [exact (ti_left _ _ Hinv p Hh) | exact (ti_right _ _ Hinv p Hh)].
  - intros i Hi Hleaf. apply (ti_leaf _ _ Hinv). zlia.
Qed.

(** X3.  A block that [buddy_alloc(n)] returns lies inside the arena of
    [PAGES] pages that starts at [PGROUNDUP(end)], starts on a page boundary,
    and its offset in the arena is a multiple of its own size. *)
Theorem alloc_in_arena m out n a m' :
  reach m out -> buddy_alloc n m = Done a m' -> a <> 0 ->
  PGROUNDUP end_ <= a /\
  a + n * PGSIZE <= PGROUNDUP end_ + PAGES * PGSIZE /\
  a mod PGSIZE = 0 /\
  (a - PGROUNDUP end_) mod (n * PGSIZE) = 0.
Proof.
  intros Hreach Hrun Ha.
  pose proof (reach_alloc m out n a m' Hreach Hrun Ha) as Hreach'.
  apply reach_good in Hreach' as (_ & fl & _ & _ & _ & _ & Htr).
  destruct (Htr a n) as (_ & u & Hu & _ & <- & <-); [by left|].
  destruct (mem_of_bounds u Hu) as (Hlo & Hhi & Hal).
  split; [exact Hlo|]. split; [exact Hhi|]. split; [exact Hal|].
  by apply mem_of_aligned.
Qed.

(** X4.  What a call of [buddy_alloc] does to the lock and the console, the
    arena starting above address 0: a request refused for its [n] touches
    nothing at all; a request that finds no free block takes the lock, prints
    one line and gives the lock back, and changes nothing else; a request that
    is served takes the lock and gives it back and prints nothing. *)
Theorem alloc_effects m out n a m' :
  reach m out -> 0 < end_ -> buddy_alloc n m = Done a m' ->
  (refused 512 n -> a = 0 /\ m' = m) /\
  (~ refused 512 n -> a = 0 ->
   m' = log_lock Release
          (log_console "cannot find a free node for allocation!"
             (log_lock Acquire m))) /\
  (a <> 0 -> lock m' = Release :: Acquire :: lock m /\ console m' = console m).
Proof.
  intros Hreach Hend Hrun. unfold refused.
  apply reach_good in Hreach as (Hs & fl & Hlk & Hinv & _).
  destruct (alloc_cases m n fl Hs Hlk Hinv)
    as [[Hn Hrej] | [(level & Hlevel & Hn & _ & Hoom) |
        (level & a' & c' & m1 & Hlevel & Hn & Hspec & Hok & _ & _ & Hlock & Hcon & _)]].
  - rewrite Hrej in Hrun. injection Hrun as <- <-.
    split; [done|]. split; [by intros Hno | by intros Hne].
  - assert (0 < n <= 512) as Hrange.
    { subst n. split; [apply Z.pow_pos_nonneg; lia|].
      change 512 with (2 ^ 9). apply Z.pow_le_mono_r; lia. }
    rewrite Hoom in Hrun. injection Hrun as <- <-.
    split; [|split; [done | by intros Hne]].
    intros [?|[?|Hnp]]; [lia | lia |]. exfalso. apply (Hnp level); [lia | done].
  - assert (0 < n <= 512) as Hrange.
    { subst n. split; [apply Z.pow_pos_nonneg; lia|].
      change 512 with (2 ^ 9). apply Z.pow_le_mono_r; lia. }
    destruct (spec_alloc_props level (mk_astate (states m) fl) a' c' Hinv)
      as (_ & Hvc' & _);
      [intros l Hl; by apply (linked_NoDup m) | unfold DEPTH; lia | done |].
    destruct (mem_of_bounds c' Hvc') as (Hlo & _). pose proof (PGROUNDUP_ge end_).
    rewrite Hok in Hrun. injection Hrun as <- <-.
    split; [|split; [intros _ Hz; lia | done]].
    intros [?|[?|Hnp]]; [lia | lia |]. exfalso. apply (Hnp level); [lia | done].
Qed.

(** X5.  In a reachable state [buddy_free] reads and writes only inside its
    arrays and its loops end: the call either returns, having taken the lock
    and given it back and printed nothing, or panics with "buddy_free" before
    it has touched the lock (the address is null, unaligned, below [end] or
    not below [PHYSTOP]), or panics with "buddy_free" while it holds the lock,
    which it never gives back. *)
Theorem free_outcomes m out pa :
  reach m out ->
  (exists m', buddy_free pa m = Done tt m' /\
              lock m' = Release :: Acquire :: lock m /\ console m' = console m) \/
  ((pa = 0 \/ pa mod PGSIZE <> 0 \/ pa < end_ \/ PHYSTOP <= pa) /\
   buddy_free pa m = Panic "buddy_free" m) \/
  (~ (pa = 0 \/ pa mod PGSIZE <> 0 \/ pa < end_ \/ PHYSTOP <= pa) /\
   buddy_free pa m = Panic "buddy_free" (log_lock Acquire m)).
Proof.
  intros Hreach. apply reach_good in Hreach as (Hs & fl & Hlk & Hinv & _).
  destruct (free_cases m pa fl Hs Hlk Hinv)
    as [[Hbad Hp] | [(Hbad & _ & Hp) |
        (_ & _ & _ & a' & m1 & _ & Hok & _ & _ & _ & Hlock & Hcon & _)]].
  - right. left. split; [by apply bad_address_true | exact Hp].
  - right. right. split; [|exact Hp].
    apply bad_address_false in Hbad. destruct Hbad as (? & ? & ? & ?).
    intros [?|[?|[?|?]]]; try done; lia.
  - left. exists m1. done.
Qed.

(** X6.  The nodes in use are exactly the outstanding allocations, the arena
    starting above address 0: in every reachable state each USED node is the
    block of an outstanding allocation (its [memory] the address returned,
    its [size] the number of pages asked for), each outstanding allocation is
    a USED node, and no address is outstanding twice. *)
Theorem used_is_outstanding m out :
  reach m out -> 0 < end_ ->
  (forall u, valid u -> state (nd m u) = USED ->
             (memory (nd m u), size (nd m u)) ∈ out) /\
  (forall a n, (a, n) ∈ out ->
     exists u, valid u /\ state (nd m u) = USED /\
               memory (nd m u) = a /\ size (nd m u) = n) /\
  NoDup (out.*1).
Proof.
  intros Hreach Hend.
  pose proof (reach_accounted m out Hend Hreach) as Hacc.
  apply reach_good in Hreach as (Hs & fl & _ & _ & _ & Hnd & Hin).
  split; [|split; [|exact Hnd]].
  - intros u Hu Hsu.
    destruct (shaped_fields m u Hs Hu) as (_ & -> & _ & _ & _ & _ & _ & ->).
    by apply Hacc.
  - intros a n Han. destruct (Hin a n Han) as (_ & u & Hu & Hsu & Hmu & Hzu).
    exists u. destruct (shaped_fields m u Hs Hu) as (_ & -> & _ & _ & _ & _ & _ & ->).
    done.
Qed.

(** X7.  [buddy_free(pa)] returns exactly for the addresses that are
    outstanding and lie below [PHYSTOP] (the arena starting above address 0);
    for every other address it panics. *)
Theorem free_returns_iff m out pa :
  reach m out -> 0 < end_ ->
  ((exists m', buddy_free pa m = Done tt m') <-> pa ∈ out.*1 /\ pa < PHYSTOP) /\
  ((exists m', buddy_free pa m = Panic "buddy_free" m') <->
   ~ (pa ∈ out.*1 /\ pa < PHYSTOP)).
Proof.
  intros Hreach Hend.
  assert (pa ∈ out.*1 -> pa < PHYSTOP -> exists m', buddy_free pa m = Done tt m') as Hret.
  { intros Hin Hlt. apply list_elem_of_fmap in Hin as ([a n] & -> & Hin). simpl in *.
    pose proof (reach_good _ _ Hreach) as (Hs & fl & Hlk & Hinv & _ & _ & Htr).
    destruct (Htr a n Hin) as (Ha0 & u & Hvu & Hsu & Hmu & _).
    pose proof (size_of_pos u Hvu) as Hszpos. pose proof PGSIZE_pos as Hpg.
    assert (spec_locate FUEL a 0 (states m) = u) as Hloc.
    { apply (spec_locate_used _ fl);
        first [done | nia | apply desc_root; zlia | rewrite lvl_of_root; fuel_lia]. }
    destruct (free_cases m a fl Hs Hlk Hinv)
      as [[Hbad _] | [(_ & Hno & _) | (_ & _ & _ & a' & m1 & _ & Hok & _)]].
    - exfalso. apply bad_address_true in Hbad.
      destruct (mem_of_bounds u Hvu) as (Hlo & Hhi & Hal). rewrite Hmu in *.
      pose proof (PGROUNDUP_ge end_). nia.
    - exfalso. apply Hno. by rewrite Hloc.
    - by exists m1. }
  assert (~ (pa ∈ out.*1 /\ pa < PHYSTOP) ->
          exists m', buddy_free pa m = Panic "buddy_free" m') as Hpanic.
  { intros Hno. destruct (decide (pa ∈ out.*1)) as [Hin|Hnin].
    - pose proof (reach_good _ _ Hreach) as (Hs & fl & Hlk & Hinv & _).
      destruct (free_cases m pa fl Hs Hlk Hinv)
        as [[_ Hp] | [(_ & _ & Hp) | (Hbad & _)]]; [by eauto | by eauto |].
      exfalso. apply Hno. split; [done|]. apply bad_address_false in Hbad. tauto.
    - by apply (free_unknown m out). }
  split; split.
  - intros [m' Hrun]. destruct (decide (pa ∈ out.*1 /\ pa < PHYSTOP)) as [|Hno]; [done|].
    destruct (Hpanic Hno) as [m2 Hp]. by rewrite Hp in Hrun.
  - intros [Hin Hlt]. by apply Hret.
  - intros [m' Hp] [Hin Hlt]. destruct (Hret Hin Hlt) as [m2 Hrun]. by rewrite Hp in Hrun.
  - exact Hpanic.
Qed.

(** X8.  Releasing a block twice is fatal: after [buddy_free(pa)] has
    returned, the block is no longer outstanding and a second
    [buddy_free(pa)] panics (the arena starting above address 0). *)
Theorem double_free_panics m out pa m1 :
  reach m out -> 0 < end_ -> buddy_free pa m = Done tt m1 ->
  reach m1 (filter (fun e => e.1 <> pa) out) /\
  exists m2, buddy_free pa m1 = Panic "buddy_free" m2.
Proof.
  intros Hreach Hend Hrun.
  pose proof (reach_free m out pa m1 Hreach Hrun) as Hreach1.
  split; [exact Hreach1|].
  apply (free_unknown m1 (filter (fun e => e.1 <> pa) out) pa Hend Hreach1).
  intros Hin. apply list_elem_of_fmap in Hin as ([a n] & Ha & Hin).
  apply list_elem_of_filter in Hin as [Hne _]. simpl in *. by subst.
Qed.

(** X9.  A block that has been released is the block the same request gets
    next: when [buddy_alloc(n)] has returned [a] (below [PHYSTOP]) and
    [buddy_free(a)] follows at once, the call returns and a second
    [buddy_alloc(n)] returns [a] again. *)
Theorem alloc_free_alloc m out n a m1 :
  reach m out -> buddy_alloc n m = Done a m1 -> a <> 0 -> a < PHYSTOP ->
  exists m2 m3,
    buddy_free a m1 = Done tt m2 /\ buddy_alloc n m2 = Done a m3.
Proof.
  intros Hreach Hrun Ha Hfit.
  apply reach_good in Hreach as (Hs & fl & Hlk & Hinv & _).
  destruct (round_trip_holds m fl n a m1 Hs Hlk Hinv Hrun Ha Hfit)
    as (level & a' & c' & m2 & Hlevel & Hn & Hspec & Hmem & Hfree & Hs2 & Hlk2 & Hst2).
  pose proof (alloc_sim m2 (mk_astate (states m) fl) n level Hs2
                (conj Hst2 Hlk2) Hinv Hlevel Hn) as Hsim.
  rewrite Hspec in Hsim. destruct Hsim as (m3 & Hrun3 & _).
  exists m2, m3. split; [exact Hfree|]. by rewrite Hmem.
Qed.

(** X10.  [add_free_node] on a node that is not FREE, in a reachable state:
    the node becomes the head of the free list of its level, in front of the
    nodes that were there, and the count of that level goes up by one; the
    lists and counts of the other levels, the states of all nodes, the lock
    and the console stay as they were. *)
Theorem add_free_node_pushes m out i :
  reach m out -> valid i -> state (nd m i) <> FREE ->
  exists m',
    add_free_node (Some i) m = Done tt m' /\
    lists m' !!! lvl (nd m i) = Some i /\
    free_list m' (lvl (nd m i)) = i :: free_list m (lvl (nd m i)) /\
    sizes m' !!! lvl (nd m i) = sizes m !!! lvl (nd m i) + 1 /\
    (forall l, 0 <= l < DEPTH -> l <> lvl (nd m i) ->
       free_list m' l = free_list m l /\ sizes m' !!! l = sizes m !!! l) /\
    (forall j, state (nd m' j) = state (nd m j)) /\
    lock m' = lock m /\ console m' = console m.
Proof.
  intros Hreach Hi Hnf. apply reach_good in Hreach as (Hs & fl & Hlk & Hinv & _).
  pose proof (lvl_of_range i Hi) as Hlr.
  assert (0 <= lvl_of i < DEPTH) as Hl by lia.
  assert (i ∉ fl (lvl_of i)) as Hnotin.
  { intros Hin. apply (ti_free _ _ Hinv (lvl_of i) i Hl) in Hin as (_ & Hf & _). done. }
  destruct (linked_push m fl i Hs Hlk Hi Hnotin)
    as (m' & Hrun & Hs' & Hlk' & Hst' & Hlock & Hcon & _).
  rewrite (shaped_lvl m i Hs Hi).
  exists m'. split; [exact Hrun|].
  destruct (proj1 Hlk' (lvl_of i) Hl) as (Hhd' & _ & Hsz' & _).
  destruct (proj1 Hlk (lvl_of i) Hl) as (_ & _ & Hsz & _).
  rewrite upd_eq in Hhd', Hsz'.
  split; [exact Hhd'|]. split.
  { rewrite (linked_free_list m' _ (lvl_of i) Hlk' Hl), upd_eq.
    by rewrite (linked_free_list m fl (lvl_of i) Hlk Hl). }
  split; [rewrite Hsz', Hsz; simpl length; lia|].
  split; [|done].
  intros l Hlr' Hne.
  rewrite (linked_free_list m' _ l Hlk' Hlr'), (linked_free_list m fl l Hlk Hlr').
  rewrite upd_ne by done. split; [done|].
  destruct (proj1 Hlk' l Hlr') as (_ & _ & -> & _).
  destruct (proj1 Hlk l Hlr') as (_ & _ & -> & _).
  by rewrite upd_ne.
Qed.

(** X11.  No page is lost or counted twice (the arena starting above address
    0): in every reachable state the pages on the free lists, each level's
    count shifted left by its level as [print_cur_info] adds them up, and the
    pages of the outstanding allocations are [PAGES] together; so neither
    number is negative or above [PAGES]. *)
Theorem pages_conserved m out :
  reach m out -> 0 < end_ ->
  free_pages m + pages_out out = PAGES /\
  0 <= free_pages m <= PAGES /\ 0 <= pages_out out <= PAGES.
Proof.
  intros Hreach Hend. pose proof (reach_pages m out Hend Hreach) as Hsum.
  pose proof (reach_good _ _ Hreach) as (_ & fl & Hlk & _ & _ & _ & Htr).
  assert (0 <= free_pages m) as Hfree.
  { rewrite (linked_free_pages m fl Hlk). apply free_pages_upto_nonneg. intros; lia. }
  assert (0 <= pages_out out) as Hout.
  { apply pages_out_nonneg. intros a n Hin.
    destruct (Htr a n Hin) as (_ & u & Hu & _ & _ & <-). by apply size_of_pos. }
  lia.
Qed.

(** X12.  What [print_cur_info] prints in a reachable state (the arena
    starting above address 0), whatever its local array held: first the pages
    in use, which are the pages of the outstanding allocations, and the free
    pages, which are the rest of [PAGES]; then the counts of the levels 0 to
    8; last the count of level 9 with the blocks of the levels 10 to 14 added,
    each shifted left by its level less 9.  It changes nothing but the console
    and does not touch the lock. *)
Theorem print_cur_info_reports m out junk :
  reach m out -> 0 < end_ ->
  exists m',
    print_cur_info junk m = Done tt m' /\
    nodes m' = nodes m /\ lists m' = lists m /\ sizes m' = sizes m /\
    lock m' = lock m /\
    console m' =
      pretty (sizes m !!! 9 + Z.shiftl (sizes m !!! 10) 1 + Z.shiftl (sizes m !!! 11) 2
              + Z.shiftl (sizes m !!! 12) 3 + Z.shiftl (sizes m !!! 13) 4
              + Z.shiftl (sizes m !!! 14) 5) ::
      rev (map (fun i => pretty (sizes m !!! i) +:+ ", ") [0; 1; 2; 3; 4; 5; 6; 7; 8]) ++
      ("used = " +:+ pretty (pages_out out) +:+ ", free = "
       +:+ pretty (PAGES - pages_out out) +:+ ", sizes: ") :: console m.
Proof.
  intros Hreach Hend.
  pose proof (reach_pages m out Hend Hreach) as Hpages.
  destruct (low_levels_run 10 0 junk 0 m) as (loc1 & Hrun1 & Hloc1); [unfold DEPTH; lia|].
  destruct (high_levels_run 5 10 loc1
              (0 + (free_pages_upto (0 + 10) (fun l => sizes m !!! l)
                    - free_pages_upto 0 (fun l => sizes m !!! l))) m)
    as (loc2 & Hrun2 & Hloc9 & Hloc2); [unfold DEPTH; lia|].
  unfold print_cur_info.
  change (Z.of_nat 0) with 0 in Hrun1. change (Z.of_nat 10) with 10 in Hrun2.
  rewrite (bind_done _ _ _ _ _ Hrun1). cbn [fst snd].
  change (Z.to_nat (DEPTH - 10)) with 5%nat.
  rewrite (bind_done _ _ _ _ _ Hrun2). cbn [fst snd].
  replace (0 + (free_pages_upto (0 + 10) (fun l => sizes m !!! l)
                - free_pages_upto 0 (fun l => sizes m !!! l))
           + (free_pages_upto (10 + 5) (fun l => sizes m !!! l)
              - free_pages_upto 10 (fun l => sizes m !!! l)))
    with (free_pages m).
  2:{ unfold free_pages. change (Z.to_nat DEPTH) with 15%nat.
      change (0 + 10)%nat with 10%nat. change (10 + 5)%nat with 15%nat.
      change (free_pages_upto 0 (fun l => sizes m !!! l)) with 0. lia. }
  replace (PAGES - free_pages m) with (pages_out out) by lia.
  replace (free_pages m) with (PAGES - pages_out out) by lia.
  assert (forall x, 0 <= x < 9 -> loc2 x = sizes m !!! x) as Hlow.
  { intros x Hx. rewrite Hloc2, Hloc1 by lia. rewrite decide_True by lia. done. }
  assert (loc2 9 = sizes m !!! 9 + Z.shiftl (sizes m !!! 10) 1 + Z.shiftl (sizes m !!! 11) 2
                   + Z.shiftl (sizes m !!! 12) 3 + Z.shiftl (sizes m !!! 13) 4
                   + Z.shiftl (sizes m !!! 14) 5) as Htop.
  { rewrite Hloc9, Hloc1. rewrite decide_True by lia.
    cbn [top_blocks]. change (Z.of_nat 10) with 10.
    change (10 - 9) with 1. change (10 + 1 - 9) with 2. change (10 + 1 + 1 - 9) with 3.
    change (10 + 1 + 1 + 1 - 9) with 4. change (10 + 1 + 1 + 1 + 1 - 9) with 5.
    change (10 + 1) with 11. change (11 + 1) with 12. change (12 + 1) with 13.
    change (13 + 1) with 14. lia. }
  mstep. cbn [for_]. do 9 mstep. unfold printf.
  eexists. split; [reflexivity|].
  do 4 (split; [reflexivity|]).
  msimpl. rewrite Htop, !Hlow by lia. reflexivity.
Qed.

(** X13.  The first block handed out is the start of the arena: right after
    [buddy_init], a request for [2 ^ level] pages with [level] from 0 to 9
    returns [PGROUNDUP(end)]. *)
Theorem first_alloc_base m0 m level :
  buddy_init m0 = Done tt m -> 0 <= level <= 9 ->
  exists m', buddy_alloc (2 ^ level) m = Done (PGROUNDUP end_) m'.
Proof.
  intros Hinit Hlevel.
  destruct (buddy_init_post m0) as (m1 & Hrun1 & _ & _ & Hls & _).
  rewrite Hinit in Hrun1. injection Hrun1 as <-.
  pose proof (reach_good _ _ (reach_init m0 m Hinit)) as (Hs & fl & Hlk & Hinv & _).
  pose proof (alloc_sim m (mk_astate (states m) fl) (2 ^ level) level Hs
                (holds_self m fl Hlk) Hinv Hlevel eq_refl) as Hsim.
  assert (forall l, 0 <= l < DEPTH - 1 -> fl l = []) as Hempty.
  { intros l Hl. destruct (proj1 Hlk l) as (_ & _ & Hsz & _); [lia|].
    destruct (Hls l) as [_ Hz]; [lia|]. rewrite Hz in Hsz.
    replace (l =? DEPTH - 1) with false in Hsz by (symmetry; apply Z.eqb_neq; lia).
    by destruct (fl l). }
  destruct (proj1 Hlk (DEPTH - 1)) as (Hhd & _ & Hsz & _); [unfold DEPTH; lia|].
  destruct (Hls (DEPTH - 1)) as [Hhd14 Hsz14]; [unfold DEPTH; lia|].
  rewrite Z.eqb_refl in Hhd14, Hsz14. rewrite Hhd14 in Hhd. rewrite Hsz14 in Hsz.
  destruct (spec_alloc level (mk_astate (states m) fl)) as [[a' c']|] eqn:Hspec.
  - destruct Hsim as (m' & Hrun & _). exists m'. rewrite Hrun. do 2 f_equal.
    destruct (spec_alloc_props level (mk_astate (states m) fl) a' c' Hinv)
      as (_ & _ & _ & _ & _ & sl & c0 & rest & _ & Hsl & Hfl & Hmem & _);
      [intros l Hl; by apply (linked_NoDup m) | unfold DEPTH; lia | done |].
    simpl in Hfl. rewrite Hmem.
    assert (sl = DEPTH - 1) as ->.
    { destruct (decide (sl = DEPTH - 1)) as [|Hne]; [done|].
      rewrite Hempty in Hfl by lia. done. }
    rewrite Hfl in Hhd. injection Hhd as <-. apply mem_of_root.
  - exfalso. unfold spec_alloc in Hspec.
    destruct (spec_find (Z.to_nat (DEPTH - level)) level _) as [sl|] eqn:Hfind.
    + apply spec_find_some in Hfind as (_ & Hne & _). by destruct (a_free _ sl).
    + pose proof (spec_find_none _ _ _ Hfind (DEPTH - 1)) as Hnone.
      rewrite Z2Nat.id in Hnone by (unfold DEPTH; lia). simpl in Hnone.
      rewrite Hnone in Hsz by (unfold DEPTH; lia). done.
Qed.

(** X14.  When nothing is outstanding the allocator is as [buddy_init] left
    it (the arena starting above address 0): in a reachable state with no
    outstanding allocation the root is FREE and every other node NONEXISTENT,
    the free list of level [DEPTH - 1] holds the root alone, and the lists of
    the other levels are empty with count 0. *)
Theorem idle_is_fresh m :
  reach m [] -> 0 < end_ ->
  state (nd m 0) = FREE /\
  (forall i, 1 <= i < NODES -> state (nd m i) = NONEXISTENT) /\
  free_list m (DEPTH - 1) = [0] /\ sizes m !!! (DEPTH - 1) = 1 /\
  (forall l, 0 <= l < DEPTH - 1 -> free_list m l = [] /\ sizes m !!! l = 0).
Proof.
  intros Hreach Hend.
  pose proof (reach_accounted m [] Hend Hreach) as Hacc.
  pose proof (reach_range m [] Hreach) as Hrange.
  pose proof (reach_good _ _ Hreach) as (Hs & fl & Hlk & Hinv & _).
  assert (forall i, valid i -> states m i <> USED) as Hnu.
  { intros i Hi Hu. by apply Hacc, elem_of_nil in Hu. }
  assert (forall i, valid i -> states m i <> INNER) as Hni.
  { intros i Hi. pose proof (lvl_of_range i Hi).
    apply (idle_no_inner (states m) fl Hinv Hrange Hnu (Z.to_nat (lvl_of i)) i Hi). lia. }
  assert (states m 0 = FREE) as Hroot.
  { pose proof (ti_root _ _ Hinv) as H0. pose proof (Hnu 0 ltac:(zlia)) as H1.
    pose proof (Hni 0 ltac:(zlia)) as H2. pose proof (Hrange 0 ltac:(zlia)) as H3.
    clear - H0 H1 H2 H3. unfold NONEXISTENT, USED, INNER, FREE in *. lia. }
  assert (forall i, 1 <= i < NODES -> states m i = NONEXISTENT) as Hrest.
  { intros i Hi. destruct (parent_of_cases i) as [Hp Hcase]; [lia|].
    assert (0 <= parent_of i < HALF) as Hh by zlia.
    pose proof (Hni (parent_of i) ltac:(zlia)) as Hpi.
    destruct (decide (states m i = NONEXISTENT)) as [|Hne]; [done|]. exfalso. apply Hpi.
    destruct Hcase as [Hc|Hc].
    - apply (ti_left _ _ Hinv _ Hh). by rewrite <- Hc.
    - apply (ti_right _ _ Hinv _ Hh). by rewrite <- Hc. }
  assert (forall l i, 0 <= l < DEPTH -> i ∈ fl l -> i = 0 /\ l = DEPTH - 1) as Hmem.
  { intros l i Hl Hin. apply (ti_free _ _ Hinv l i Hl) in Hin as (Hv & Hf & Hlv).
    destruct (decide (i = 0)) as [->|Hne]; [by rewrite lvl_of_root in Hlv|].
    rewrite Hrest in Hf by zlia. done. }
  assert (fl (DEPTH - 1) = [0]) as Htop.
  { assert (0 <= DEPTH - 1 < DEPTH) as Hl by (unfold DEPTH; lia).
    assert (0 ∈ fl (DEPTH - 1)) as H0.
    { apply (ti_free _ _ Hinv _ _ Hl). split; [zlia|]. split; [done | apply lvl_of_root]. }
    pose proof (linked_NoDup m fl _ Hlk Hl) as Hnd.
    destruct (fl (DEPTH - 1)) as [|x [|y L]] eqn:Hfl.
    - by apply elem_of_nil in H0.
    - apply list_elem_of_singleton in H0. by subst.
    - exfalso. destruct (Hmem (DEPTH - 1) x Hl) as [-> _]; [rewrite Hfl; by left|].
      destruct (Hmem (DEPTH - 1) y Hl) as [-> _]; [rewrite Hfl; right; by left|].
      apply NoDup_cons in Hnd as [Hnd _]. apply Hnd. by left. }
  assert (forall l, 0 <= l < DEPTH - 1 -> fl l = []) as Hlow.
  { intros l Hl. destruct (fl l) as [|x L] eqn:Hfl; [done|]. exfalso.
    destruct (Hmem l x) as [_ ?]; [lia | rewrite Hfl; by left | lia]. }
  split; [exact Hroot|]. split; [exact Hrest|].
  rewrite (linked_free_list m fl (DEPTH - 1) Hlk) by (unfold DEPTH; lia).
  split; [exact Htop|]. split.
  { destruct (proj1 Hlk (DEPTH - 1)) as (_ & _ & -> & _); [unfold DEPTH; lia|].
    by rewrite Htop. }
  intros l Hl. rewrite (linked_free_list m fl l Hlk) by lia.
  split; [by apply Hlow|].
  destruct (proj1 Hlk l) as (_ & _ & -> & _); [lia|]. by rewrite Hlow.
Qed.

(** X15.  The [state] of a node is always one of the four values the code
    writes: in every reachable state each node is NONEXISTENT, USED, INNER or
    FREE. *)
Theorem state_values m out i :
  reach m out -> valid i ->
  state (nd m i) = NONEXISTENT \/ state (nd m i) = USED \/
  state (nd m i) = INNER \/ state (nd m i) = FREE.
Proof.
  intros Hreach Hi. pose proof (reach_range m out Hreach i Hi) as Hr.
  unfold states in Hr. unfold NONEXISTENT, USED, INNER, FREE. lia.
Qed.

(** X16.  [buddy_init] is a reset: whatever two machines held before, after
    [buddy_init] they hold the same nodes, the same list heads and the same
    counts; the call initialises the lock once, under the name "buddy_mem",
    and prints nothing. *)
Theorem init_resets m0 m0' m m' :
  buddy_init m0 = Done tt m -> buddy_init m0' = Done tt m' ->
  (forall i, valid i -> nd m i = nd m' i) /\
  (forall l, 0 <= l < DEPTH ->
     lists m !!! l = lists m' !!! l /\ sizes m !!! l = sizes m' !!! l) /\
  lock m = LockInit "buddy_mem" :: lock m0 /\ console m = console m0.
Proof.
  intros Hrun Hrun'.
  destruct (buddy_init_post m0) as (m1 & Hrun1 & Hs & Hst & Hls & Hlock & Hcon).
  rewrite Hrun in Hrun1. injection Hrun1 as <-.
  destruct (buddy_init_post m0') as (m1' & Hrun1' & Hs' & Hst' & Hls' & _).
  rewrite Hrun' in Hrun1'. injection Hrun1' as <-.
  split; [|split; [|split; [exact Hlock | exact Hcon]]].
  - intros i Hi. destruct (Hst i Hi) as (H1 & H2 & H3).
    destruct (Hst' i Hi) as (H1' & H2' & H3').
    apply node_ext; [by rewrite (Hs i Hi), (Hs' i Hi) | congruence ..].
  - intros l Hl. destruct (Hls l Hl) as [H1 H2]. destruct (Hls' l Hl) as [H1' H2'].
    split; congruence.
Qed.

(** X17.  Every call that returns has given the lock back: in a reachable
    state the last operation on the lock is its initialisation or a release,
    never an acquire. *)
Theorem lock_released m out :
  reach m out ->
  exists o rest, lock m = o :: rest /\ o <> Acquire.
Proof.
  induction 1 as [m0 m Hrun | m out n a m' Hreach IH Hrun _ | m out n m' Hreach IH Hrun
                 | m out pa m' Hreach IH Hrun].
  - destruct (buddy_init_post m0) as (m1 & Hrun1 & _ & _ & _ & Hlock & _).
    rewrite Hrun in Hrun1. injection Hrun1 as <-. rewrite Hlock. by eauto.
  - pose proof (reach_good _ _ Hreach) as (Hs & fl & Hlk & Hinv & _).
    destruct (alloc_cases m n fl Hs Hlk Hinv)
      as [[_ Hrej] | [(level & _ & _ & _ & Hoom) |
          (level & a' & c' & m1 & _ & _ & _ & Hok & _ & _ & Hlock & _)]].
    + rewrite Hrej in Hrun. injection Hrun as _ <-. exact IH.
    + rewrite Hoom in Hrun. injection Hrun as _ <-. simpl. by eauto.
    + rewrite Hok in Hrun. injection Hrun as _ <-. rewrite Hlock. by eauto.
  - pose proof (reach_good _ _ Hreach) as (Hs & fl & Hlk & Hinv & _).
    destruct (alloc_cases m n fl Hs Hlk Hinv)
      as [[_ Hrej] | [(level & _ & _ & _ & Hoom) |
          (level & a' & c' & m1 & _ & _ & _ & Hok & _ & _ & Hlock & _)]].
    + rewrite Hrej in Hrun. injection Hrun as <-. exact IH.
    + rewrite Hoom in Hrun. injection Hrun as <-. simpl. by eauto.
    + rewrite Hok in Hrun. injection Hrun as _ <-. rewrite Hlock. by eauto.
  - pose proof (reach_good _ _ Hreach) as (Hs & fl & Hlk & Hinv & _).
    destruct (free_cases m pa fl Hs Hlk Hinv)
      as [[_ Hp] | [(_ & _ & Hp) |
          (_ & _ & _ & a' & m1 & _ & Hok & _ & _ & _ & Hlock & _)]];
      [by rewrite Hp in Hrun | by rewrite Hp in Hrun |].
    rewrite Hok in Hrun. injection Hrun as <-. rewrite Hlock. by eauto.
Qed.

(** X18.  The counts stay small (the arena starting above address 0): in
    every reachable state the count of a level is not negative, and shifted
    left by its level, as [print_cur_info] does, it is at most [PAGES]; so
    neither the counts nor the sums of [print_cur_info] leave the range of an
    [int]. *)
Theorem counts_bounded m out l :
  reach m out -> 0 < end_ -> 0 <= l < DEPTH ->
  0 <= sizes m !!! l <= PAGES /\
  0 <= Z.shiftl (sizes m !!! l) l <= PAGES /\
  PAGES < 2 ^ 31.
Proof.
  intros Hreach Hend Hl. pose proof (reach_pages m out Hend Hreach) as Hsum.
  pose proof (reach_good _ _ Hreach) as (_ & fl & Hlk & _ & _ & _ & Htr).
  assert (0 <= pages_out out) as Hout.
  { apply pages_out_nonneg. intros a n Hin.
    destruct (Htr a n Hin) as (_ & u & Hu & _ & _ & <-). by apply size_of_pos. }
  assert (forall x, 0 <= x < Z.of_nat (Z.to_nat DEPTH) -> 0 <= sizes m !!! x) as Hnn.
  { intros x Hx. destruct (proj1 Hlk x) as (_ & _ & -> & _); [unfold DEPTH in *; lia | lia]. }
  pose proof (free_pages_upto_term (Z.to_nat DEPTH) (fun x => sizes m !!! x) l Hnn) as Hterm.
  fold (free_pages m) in Hterm. simpl in Hterm.
  assert (0 <= sizes m !!! l) as H0 by (apply Hnn; unfold DEPTH in *; lia).
  assert (sizes m !!! l <= Z.shiftl (sizes m !!! l) l) as Hle.
  { rewrite Z.shiftl_mul_pow2 by lia.
    assert (0 < 2 ^ l) by (apply Z.pow_pos_nonneg; lia). nia. }
  assert (Z.shiftl (sizes m !!! l) l <= PAGES)
    by (assert (Z.shiftl (sizes m !!! l) l <= free_pages m)
          by (apply Hterm; unfold DEPTH in *; lia); lia).
  split; [lia|]. split; [lia|]. reflexivity.
Qed.

End Allocator.

(** * The claims on the short run

    Each theorem above that has a premise is applied to the run on the sample
    layout. *)

Lemma sample_end_pos : 0 < sample_end.
Proof. reflexivity. Qed.

Lemma sample_fits : PGROUNDUP sample_end + PAGES * PGSIZE <= sample_PHYSTOP.
Proof. vm_compute. discriminate. Qed.

Lemma valid_1 : valid 1.
Proof. unfold valid, NODES, PAGES. lia. Qed.

Lemma valid_2 : valid 2.
Proof. unfold valid, NODES, PAGES. lia. Qed.

Lemma level_14 : 0 <= 14 < DEPTH.
Proof. unfold DEPTH. lia. Qed.

Lemma page1_below : page1 sample_end < sample_PHYSTOP.
Proof.
  exact (outstanding_below sample_end sample_PHYSTOP (after1 sample_end)
           [(page1 sample_end, 1)] (page1 sample_end) 1 sample_fits
           (reach_after1 sample_end sample_PHYSTOP sample_end_pos)
           (list_elem_of_here _ _)).
Qed.

Lemma disjointness_witness :
  reach sample_end sample_PHYSTOP (after2 sample_end)
    [(page2 sample_end, 1); (page1 sample_end, 1)] /\
  (page2 sample_end + 1 * PGSIZE <= page1 sample_end \/
   page1 sample_end + 1 * PGSIZE <= page2 sample_end).
Proof.
  pose proof (reach_after2 sample_end sample_PHYSTOP sample_end_pos) as Hr.
  split; [exact Hr|].
  exact (disjointness sample_end sample_PHYSTOP (after2 sample_end)
           [(page2 sample_end, 1); (page1 sample_end, 1)] 0%nat 1%nat
           (page2 sample_end) 1 (page1 sample_end) 1
           Hr (O_S 0) eq_refl eq_refl).
Defined.

Lemma alloc_algorithm_witness :
  reach sample_end sample_PHYSTOP (boot sample_end) [] /\
  buddy_alloc 1 (boot sample_end) = Done (page1 sample_end) (after1 sample_end) /\
  page1 sample_end <> 0 /\
  exists fl sl c0 rest,
    1 = 2 ^ Z.log2 1 /\ 0 <= Z.log2 1 <= sl /\ sl < DEPTH /\
    0 < sizes (boot sample_end) !!! sl /\
    (forall j, Z.log2 1 <= j < sl -> sizes (boot sample_end) !!! j = 0) /\
    linked (boot sample_end) fl /\ fl sl = c0 :: rest /\
    lists (boot sample_end) !!! sl = Some c0 /\
    sizes (after1 sample_end) !!! sl = sizes (boot sample_end) !!! sl - 1 /\
    prev (nd (after1 sample_end) c0) = None /\
    next (nd (after1 sample_end) c0) = None /\
    let r := spec_split (Z.to_nat (sl - Z.log2 1)) c0
               (mk_astate (states (boot sample_end)) (upd fl sl rest)) in
    holds (after1 sample_end) r.1 /\
    lvl (nd (after1 sample_end) r.2) = Z.log2 1 /\
    state (nd (after1 sample_end) r.2) = USED /\
    page1 sample_end = memory (nd (after1 sample_end) r.2) /\
    page1 sample_end = memory (nd (boot sample_end) c0).
Proof.
  pose proof (reach_boot sample_end sample_PHYSTOP) as Hr.
  destruct (alloc1_run sample_end sample_PHYSTOP sample_end_pos) as [Hrun Ha].
  split; [exact Hr|]. split; [exact Hrun|]. split; [exact Ha|].
  exact (alloc_algorithm sample_end sample_PHYSTOP (boot sample_end) [] 1
           (page1 sample_end) (after1 sample_end) Hr Hrun Ha).
Defined.

Lemma free_algorithm_witness :
  reach sample_end sample_PHYSTOP (after1 sample_end) [(page1 sample_end, 1)] /\
  (page1 sample_end, 1) ∈ [(page1 sample_end, 1)] /\
  page1 sample_end < sample_PHYSTOP /\
  exists u fl m',
    descend FUEL (page1 sample_end) (Some 0) (log_lock Acquire (after1 sample_end)) =
      Done (Some u) (log_lock Acquire (after1 sample_end)) /\
    u = spec_locate sample_end FUEL (page1 sample_end) 0 (states (after1 sample_end)) /\
    valid u /\ state (nd (after1 sample_end) u) = USED /\
    memory (nd (after1 sample_end) u) = page1 sample_end /\
    (forall v, valid v -> state (nd (after1 sample_end) v) = USED ->
               memory (nd (after1 sample_end) v) = page1 sample_end -> v = u) /\
    linked (after1 sample_end) fl /\
    buddy_free sample_end sample_PHYSTOP (page1 sample_end) (after1 sample_end) =
      Done tt m' /\
    let r := spec_coalesce FUEL u (mk_astate (states (after1 sample_end)) fl) in
    (r.2 = 0 \/ a_state r.1 (nb_of r.2) <> FREE) /\
    holds m' (spec_release r.2 r.1) /\
    (forall b, valid b -> state (nd (after1 sample_end) b) = FREE ->
               state (nd m' b) <> FREE ->
               prev (nd m' b) = None /\ next (nd m' b) = None).
Proof.
  pose proof (reach_after1 sample_end sample_PHYSTOP sample_end_pos) as Hr.
  pose proof (list_elem_of_here (page1 sample_end, 1) []) as Hin.
  split; [exact Hr|]. split; [exact Hin|]. split; [exact page1_below|].
  exact (free_algorithm sample_end sample_PHYSTOP (after1 sample_end)
           [(page1 sample_end, 1)] (page1 sample_end) 1 Hr Hin page1_below).
Defined.

Lemma alloc_failure_witness :
  reach sample_end sample_PHYSTOP (boot sample_end) [] /\ 0 < sample_end /\
  (exists r m', buddy_alloc 3 (boot sample_end) = Done r m') /\
  ((exists m', buddy_alloc 3 (boot sample_end) = Done 0 m') <->
   refused 512 3 \/ exhausted (boot sample_end) 3) /\
  (forall m', buddy_alloc 3 (boot sample_end) = Done 0 m' ->
     nodes m' = nodes (boot sample_end) /\ lists m' = lists (boot sample_end) /\
     sizes m' = sizes (boot sample_end)) /\
  (refused 512 3 ->
   forall r m', buddy_alloc 3 (boot sample_end) = Done r m' ->
                lock m' = lock (boot sample_end)).
Proof.
  pose proof (reach_boot sample_end sample_PHYSTOP) as Hr.
  split; [exact Hr|]. split; [exact sample_end_pos|].
  exact (alloc_failure sample_end sample_PHYSTOP (boot sample_end) [] 3
           Hr sample_end_pos).
Defined.

(** The condition of the specification, with [PAGES / 2] as the cap, is not
    the condition under which [buddy_alloc] returns null: right after
    [buddy_init] a request for 1024 pages returns null, although 1024 is a
    power of two, is not above [PAGES / 2] and the top level has a free block. *)
Lemma alloc_failure_counterexample :
  reach sample_end sample_PHYSTOP (boot sample_end) [] /\
  buddy_alloc 1024 (boot sample_end) = Done 0 (boot sample_end) /\
  ~ (refused (PAGES / 2) 1024 \/ exhausted (boot sample_end) 1024) /\
  ~ ((exists m', buddy_alloc 1024 (boot sample_end) = Done 0 m') <->
     refused (PAGES / 2) 1024 \/ exhausted (boot sample_end) 1024).
Proof.
  assert (buddy_alloc 1024 (boot sample_end) = Done 0 (boot sample_end)) as Hrun.
  { apply buddy_alloc_reject. right. left. reflexivity. }
  assert (~ (refused (PAGES / 2) 1024 \/ exhausted (boot sample_end) 1024)) as Hno.
  { intros [[H | [H | H]] | H].
    - apply H. reflexivity.
    - vm_compute in H. discriminate H.
    - apply (H 10); [discriminate | reflexivity].
    - assert (Z.log2 1024 <= 14 < DEPTH) as Hl
        by (split; [vm_compute; discriminate | reflexivity]).
      pose proof (H 14 Hl) as H14.
      rewrite (boot_sizes sample_end 14 level_14) in H14.
      apply H14. reflexivity. }
  split; [exact (reach_boot sample_end sample_PHYSTOP)|].
  split; [exact Hrun|]. split; [exact Hno|].
  intros [Hnull _]. apply Hno. apply Hnull.
  exists (boot sample_end). exact Hrun.
Qed.

Lemma free_fatal_witness :
  reach sample_end sample_PHYSTOP (boot sample_end) [] /\
  exists c,
    descend FUEL 0 (Some 0) (log_lock Acquire (boot sample_end)) =
      Done (Some c) (log_lock Acquire (boot sample_end)) /\
    valid c /\
    ((exists msg m',
        buddy_free sample_end sample_PHYSTOP 0 (boot sample_end) = Panic msg m') <->
     (0 = 0 \/ 0 mod PGSIZE <> 0 \/ 0 < sample_end \/ sample_PHYSTOP <= 0 \/
      state (nd (boot sample_end) c) <> USED \/
      memory (nd (boot sample_end) c) <> 0)) /\
    (forall msg m',
       buddy_free sample_end sample_PHYSTOP 0 (boot sample_end) = Panic msg m' ->
       nodes m' = nodes (boot sample_end) /\ lists m' = lists (boot sample_end) /\
       sizes m' = sizes (boot sample_end)).
Proof.
  pose proof (reach_boot sample_end sample_PHYSTOP) as Hr.
  split; [exact Hr|].
  exact (free_fatal sample_end sample_PHYSTOP (boot sample_end) [] 0 Hr).
Defined.

Lemma free_list_consistency_witness :
  reach sample_end sample_PHYSTOP (boot sample_end) [] /\ 0 <= 14 < DEPTH /\
  lists (boot sample_end) !!! 14 = head (free_list (boot sample_end) 14) /\
  NoDup (free_list (boot sample_end) 14) /\
  (forall i, i ∈ free_list (boot sample_end) 14 <->
             valid i /\ state (nd (boot sample_end) i) = FREE /\
             lvl (nd (boot sample_end) i) = 14) /\
  dll (boot sample_end) None (free_list (boot sample_end) 14) /\
  (forall i j, i ∈ free_list (boot sample_end) 14 ->
               next (nd (boot sample_end) i) = Some j ->
               j ∈ free_list (boot sample_end) 14 /\
               prev (nd (boot sample_end) j) = Some i) /\
  (forall i, head (free_list (boot sample_end) 14) = Some i ->
             prev (nd (boot sample_end) i) = None) /\
  sizes (boot sample_end) !!! 14 = Z.of_nat (length (free_list (boot sample_end) 14)).
Proof.
  pose proof (reach_boot sample_end sample_PHYSTOP) as Hr.
  split; [exact Hr|]. split; [exact level_14|].
  exact (free_list_consistency sample_end sample_PHYSTOP (boot sample_end) [] 14
           Hr level_14).
Defined.

Lemma round_trip_witness :
  reach sample_end sample_PHYSTOP (boot sample_end) [] /\
  buddy_alloc 1 (boot sample_end) = Done (page1 sample_end) (after1 sample_end) /\
  page1 sample_end <> 0 /\ page1 sample_end < sample_PHYSTOP /\
  exists m2,
    buddy_free sample_end sample_PHYSTOP (page1 sample_end) (after1 sample_end) =
      Done tt m2 /\
    (forall l, 0 <= l < DEPTH ->
       free_list m2 l ≡ₚ free_list (boot sample_end) l /\
       free_list m2 l = free_list (boot sample_end) l /\
       sizes m2 !!! l = sizes (boot sample_end) !!! l) /\
    (forall i, state (nd m2 i) = state (nd (boot sample_end) i)).
Proof.
  pose proof (reach_boot sample_end sample_PHYSTOP) as Hr.
  destruct (alloc1_run sample_end sample_PHYSTOP sample_end_pos) as [Hrun Ha].
  split; [exact Hr|]. split; [exact Hrun|]. split; [exact Ha|].
  split; [exact page1_below|].
  exact (round_trip sample_end sample_PHYSTOP (boot sample_end) [] 1
           (page1 sample_end) (after1 sample_end) Hr Hrun Ha page1_below).
Defined.

Lemma eager_coalescing_witness :
  reach sample_end sample_PHYSTOP (boot sample_end) [] /\
  valid 1 /\ valid 2 /\ 1 <> 2 /\
  parent (nd (boot sample_end) 1) = parent (nd (boot sample_end) 2) /\
  ~ (state (nd (boot sample_end) 1) = FREE /\ state (nd (boot sample_end) 2) = FREE).
Proof.
  pose proof (reach_boot sample_end sample_PHYSTOP) as Hr.
  assert (1 <> 2) as Hne by discriminate.
  assert (0 <= 0 < HALF) as Hroot by (split; [discriminate | reflexivity]).
  pose proof (children_share_parent sample_end sample_PHYSTOP (boot sample_end) [] 0
                Hr Hroot) as Hpar.
  split; [exact Hr|]. split; [exact valid_1|]. split; [exact valid_2|].
  split; [exact Hne|]. split; [exact Hpar|].
  exact (eager_coalescing sample_end sample_PHYSTOP (boot sample_end) [] 1 2
           Hr valid_1 valid_2 Hne Hpar).
Defined.

Lemma used_below_cap_witness :
  reach sample_end sample_PHYSTOP (boot sample_end) [] /\
  (forall i, valid i -> state (nd (boot sample_end) i) = USED ->
             lvl (nd (boot sample_end) i) <= 9) /\
  state (nd (boot sample_end) 0) <> USED /\
  (forall pa c m1,
     descend FUEL pa (Some 0) (log_lock Acquire (boot sample_end)) = Done (Some c) m1 ->
     state (nd m1 c) = USED -> id (nd m1 c) <> 0).
Proof.
  pose proof (reach_boot sample_end sample_PHYSTOP) as Hr.
  split; [exact Hr|].
  exact (used_below_cap sample_end sample_PHYSTOP (boot sample_end) [] Hr).
Defined.

(** * The further properties on the short run *)

Lemma valid_0 : valid 0.
Proof. unfold valid, NODES, PAGES. lia. Qed.

Lemma level_0 : 0 <= 0 <= 9.
Proof. lia. Qed.

Lemma boot_1_not_free : state (nd (boot sample_end) 1) <> FREE.
Proof. rewrite (boot_state sample_end 1 valid_1). discriminate. Qed.

Lemma structure_fixed_witness :
  reach sample_end sample_PHYSTOP (boot sample_end) [] /\ valid 0 /\
  id (nd (boot sample_end) 0) = 0 /\
  lvl (nd (boot sample_end) 0) = DEPTH - 1 - Z.log2 (0 + 1) /\
  size (nd (boot sample_end) 0) = 2 ^ lvl (nd (boot sample_end) 0) /\
  left_child (nd (boot sample_end) 0) =
    (if 2 * 0 + 2 <? NODES then Some (2 * 0 + 1) else None) /\
  right_child (nd (boot sample_end) 0) =
    (if 2 * 0 + 2 <? NODES then Some (2 * 0 + 2) else None) /\
  parent (nd (boot sample_end) 0) = Some (if 0 =? 0 then 0 else (0 - 1) / 2) /\
  neighbour (nd (boot sample_end) 0) =
    Some (if 0 =? 0 then 0 else if Z.odd 0 then 0 + 1 else 0 - 1) /\
  memory (nd (boot sample_end) 0) =
    PGROUNDUP sample_end
    + (0 + 1 - 2 ^ Z.log2 (0 + 1)) * size (nd (boot sample_end) 0) * PGSIZE.
Proof.
  pose proof (reach_boot sample_end sample_PHYSTOP) as Hr.
  split; [exact Hr|]. split; [exact valid_0|].
  exact (structure_fixed sample_end sample_PHYSTOP (boot sample_end) [] 0 Hr valid_0).
Defined.

Lemma tree_shape_witness :
  reach sample_end sample_PHYSTOP (boot sample_end) [] /\
  state (nd (boot sample_end) 0) <> NONEXISTENT /\
  (forall p, 0 <= p -> 2 * p + 2 < NODES ->
     (state (nd (boot sample_end) p) = INNER <->
      state (nd (boot sample_end) (2 * p + 1)) <> NONEXISTENT) /\
     (state (nd (boot sample_end) p) = INNER <->
      state (nd (boot sample_end) (2 * p + 2)) <> NONEXISTENT)) /\
  (forall i, valid i -> NODES <= 2 * i + 2 -> state (nd (boot sample_end) i) <> INNER).
Proof.
  pose proof (reach_boot sample_end sample_PHYSTOP) as Hr.
  split; [exact Hr|].
  exact (tree_shape sample_end sample_PHYSTOP (boot sample_end) [] Hr).
Defined.

Lemma alloc_in_arena_witness :
  reach sample_end sample_PHYSTOP (boot sample_end) [] /\
  buddy_alloc 1 (boot sample_end) = Done (page1 sample_end) (after1 sample_end) /\
  page1 sample_end <> 0 /\
  PGROUNDUP sample_end <= page1 sample_end /\
  page1 sample_end + 1 * PGSIZE <= PGROUNDUP sample_end + PAGES * PGSIZE /\
  page1 sample_end mod PGSIZE = 0 /\
  (page1 sample_end - PGROUNDUP sample_end) mod (1 * PGSIZE) = 0.
Proof.
  pose proof (reach_boot sample_end sample_PHYSTOP) as Hr.
  destruct (alloc1_run sample_end sample_PHYSTOP sample_end_pos) as [Hrun Ha].
  split; [exact Hr|]. split; [exact Hrun|]. split; [exact Ha|].
  exact (alloc_in_arena sample_end sample_PHYSTOP (boot sample_end) [] 1
           (page1 sample_end) (after1 sample_end) Hr Hrun Ha).
Defined.

Lemma alloc_effects_witness :
  reach sample_end sample_PHYSTOP (boot sample_end) [] /\ 0 < sample_end /\
  buddy_alloc 1 (boot sample_end) = Done (page1 sample_end) (after1 sample_end) /\
  (refused 512 1 -> page1 sample_end = 0 /\ after1 sample_end = boot sample_end) /\
  (~ refused 512 1 -> page1 sample_end = 0 ->
   after1 sample_end =
     log_lock Release
       (log_console "cannot find a free node for allocation!"
          (log_lock Acquire (boot sample_end)))) /\
  (page1 sample_end <> 0 ->
   lock (after1 sample_end) = Release :: Acquire :: lock (boot sample_end) /\
   console (after1 sample_end) = console (boot sample_end)).
Proof.
  pose proof (reach_boot sample_end sample_PHYSTOP) as Hr.
  destruct (alloc1_run sample_end sample_PHYSTOP sample_end_pos) as [Hrun _].
  split; [exact Hr|]. split; [exact sample_end_pos|]. split; [exact Hrun|].
  exact (alloc_effects sample_end sample_PHYSTOP (boot sample_end) [] 1
           (page1 sample_end) (after1 sample_end) Hr sample_end_pos Hrun).
Defined.

Lemma free_outcomes_witness :
  reach sample_end sample_PHYSTOP (boot sample_end) [] /\
  ((exists m', buddy_free sample_end sample_PHYSTOP 0 (boot sample_end) = Done tt m' /\
               lock m' = Release :: Acquire :: lock (boot sample_end) /\
               console m' = console (boot sample_end)) \/
   ((0 = 0 \/ 0 mod PGSIZE <> 0 \/ 0 < sample_end \/ sample_PHYSTOP <= 0) /\
    buddy_free sample_end sample_PHYSTOP 0 (boot sample_end) =
      Panic "buddy_free" (boot sample_end)) \/
   (~ (0 = 0 \/ 0 mod PGSIZE <> 0 \/ 0 < sample_end \/ sample_PHYSTOP <= 0) /\
    buddy_free sample_end sample_PHYSTOP 0 (boot sample_end) =
      Panic "buddy_free" (log_lock Acquire (boot sample_end)))).
Proof.
  pose proof (reach_boot sample_end sample_PHYSTOP) as Hr.
  split; [exact Hr|].
  exact (free_outcomes sample_end sample_PHYSTOP (boot sample_end) [] 0 Hr).
Defined.

Lemma used_is_outstanding_witness :
  reach sample_end sample_PHYSTOP (after1 sample_end) [(page1 sample_end, 1)] /\
  0 < sample_end /\
  (forall u, valid u -> state (nd (after1 sample_end) u) = USED ->
             (memory (nd (after1 sample_end) u), size (nd (after1 sample_end) u))
             ∈ [(page1 sample_end, 1)]) /\
  (forall a n, (a, n) ∈ [(page1 sample_end, 1)] ->
     exists u, valid u /\ state (nd (after1 sample_end) u) = USED /\
               memory (nd (after1 sample_end) u) = a /\
               size (nd (after1 sample_end) u) = n) /\
  NoDup ([(page1 sample_end, 1)].*1).
Proof.
  pose proof (reach_after1 sample_end sample_PHYSTOP sample_end_pos) as Hr.
  split; [exact Hr|]. split; [exact sample_end_pos|].
  exact (used_is_outstanding sample_end sample_PHYSTOP (after1 sample_end)
           [(page1 sample_end, 1)] Hr sample_end_pos).
Defined.

Lemma free_returns_iff_witness :
  reach sample_end sample_PHYSTOP (after1 sample_end) [(page1 sample_end, 1)] /\
  0 < sample_end /\
  ((exists m', buddy_free sample_end sample_PHYSTOP (page1 sample_end)
                 (after1 sample_end) = Done tt m') <->
   page1 sample_end ∈ [(page1 sample_end, 1)].*1 /\ page1 sample_end < sample_PHYSTOP) /\
  ((exists m', buddy_free sample_end sample_PHYSTOP (page1 sample_end)
                 (after1 sample_end) = Panic "buddy_free" m') <->
   ~ (page1 sample_end ∈ [(page1 sample_end, 1)].*1 /\
      page1 sample_end < sample_PHYSTOP)).
Proof.
  pose proof (reach_after1 sample_end sample_PHYSTOP sample_end_pos) as Hr.
  split; [exact Hr|]. split; [exact sample_end_pos|].
  exact (free_returns_iff sample_end sample_PHYSTOP (after1 sample_end)
           [(page1 sample_end, 1)] (page1 sample_end) Hr sample_end_pos).
Defined.

Lemma double_free_panics_witness :
  reach sample_end sample_PHYSTOP (after1 sample_end) [(page1 sample_end, 1)] /\
  0 < sample_end /\
  buddy_free sample_end sample_PHYSTOP (page1 sample_end) (after1 sample_end) =
    Done tt (freed1 sample_end sample_PHYSTOP) /\
  reach sample_end sample_PHYSTOP (freed1 sample_end sample_PHYSTOP)
    (filter (fun e => e.1 <> page1 sample_end) [(page1 sample_end, 1)]) /\
  exists m2,
    buddy_free sample_end sample_PHYSTOP (page1 sample_end)
      (freed1 sample_end sample_PHYSTOP) = Panic "buddy_free" m2.
Proof.
  pose proof (reach_after1 sample_end sample_PHYSTOP sample_end_pos) as Hr.
  pose proof (free1_run sample_end sample_PHYSTOP sample_end_pos page1_below) as Hfree.
  split; [exact Hr|]. split; [exact sample_end_pos|]. split; [exact Hfree|].
  exact (double_free_panics sample_end sample_PHYSTOP (after1 sample_end)
           [(page1 sample_end, 1)] (page1 sample_end)
           (freed1 sample_end sample_PHYSTOP) Hr sample_end_pos Hfree).
Defined.

Lemma alloc_free_alloc_witness :
  reach sample_end sample_PHYSTOP (boot sample_end) [] /\
  buddy_alloc 1 (boot sample_end) = Done (page1 sample_end) (after1 sample_end) /\
  page1 sample_end <> 0 /\ page1 sample_end < sample_PHYSTOP /\
  exists m2 m3,
    buddy_free sample_end sample_PHYSTOP (page1 sample_end) (after1 sample_end) =
      Done tt m2 /\
    buddy_alloc 1 m2 = Done (page1 sample_end) m3.
Proof.
  pose proof (reach_boot sample_end sample_PHYSTOP) as Hr.
  destruct (alloc1_run sample_end sample_PHYSTOP sample_end_pos) as [Hrun Ha].
  split; [exact Hr|]. split; [exact Hrun|]. split; [exact Ha|].
  split; [exact page1_below|].
  exact (alloc_free_alloc sample_end sample_PHYSTOP (boot sample_end) [] 1
           (page1 sample_end) (after1 sample_end) Hr Hrun Ha page1_below).
Defined.

Lemma add_free_node_pushes_witness :
  reach sample_end sample_PHYSTOP (boot sample_end) [] /\ valid 1 /\
  state (nd (boot sample_end) 1) <> FREE /\
  exists m',
    add_free_node (Some 1) (boot sample_end) = Done tt m' /\
    lists m' !!! lvl (nd (boot sample_end) 1) = Some 1 /\
    free_list m' (lvl (nd (boot sample_end) 1)) =
      1 :: free_list (boot sample_end) (lvl (nd (boot sample_end) 1)) /\
    sizes m' !!! lvl (nd (boot sample_end) 1) =
      sizes (boot sample_end) !!! lvl (nd (boot sample_end) 1) + 1 /\
    (forall l, 0 <= l < DEPTH -> l <> lvl (nd (boot sample_end) 1) ->
       free_list m' l = free_list (boot sample_end) l /\
       sizes m' !!! l = sizes (boot sample_end) !!! l) /\
    (forall j, state (nd m' j) = state (nd (boot sample_end) j)) /\
    lock m' = lock (boot sample_end) /\ console m' = console (boot sample_end).
Proof.
  pose proof (reach_boot sample_end sample_PHYSTOP) as Hr.
  split; [exact Hr|]. split; [exact valid_1|]. split; [exact boot_1_not_free|].
  exact (add_free_node_pushes sample_end sample_PHYSTOP (boot sample_end) [] 1
           Hr valid_1 boot_1_not_free).
Defined.

Lemma pages_conserved_witness :
  reach sample_end sample_PHYSTOP (after1 sample_end) [(page1 sample_end, 1)] /\
  0 < sample_end /\
  free_pages (after1 sample_end) + pages_out [(page1 sample_end, 1)] = PAGES /\
  0 <= free_pages (after1 sample_end) <= PAGES /\
  0 <= pages_out [(page1 sample_end, 1)] <= PAGES.
Proof.
  pose proof (reach_after1 sample_end sample_PHYSTOP sample_end_pos) as Hr.
  split; [exact Hr|]. split; [exact sample_end_pos|].
  exact (pages_conserved sample_end sample_PHYSTOP (after1 sample_end)
           [(page1 sample_end, 1)] Hr sample_end_pos).
Defined.

Lemma print_cur_info_reports_witness :
  reach sample_end sample_PHYSTOP (after1 sample_end) [(page1 sample_end, 1)] /\
  0 < sample_end /\
  exists m',
    print_cur_info (fun _ => 0) (after1 sample_end) = Done tt m' /\
    nodes m' = nodes (after1 sample_end) /\ lists m' = lists (after1 sample_end) /\
    sizes m' = sizes (after1 sample_end) /\ lock m' = lock (after1 sample_end) /\
    console m' =
      pretty (sizes (after1 sample_end) !!! 9
              + Z.shiftl (sizes (after1 sample_end) !!! 10) 1
              + Z.shiftl (sizes (after1 sample_end) !!! 11) 2
              + Z.shiftl (sizes (after1 sample_end) !!! 12) 3
              + Z.shiftl (sizes (after1 sample_end) !!! 13) 4
              + Z.shiftl (sizes (after1 sample_end) !!! 14) 5) ::
      rev (map (fun i => pretty (sizes (after1 sample_end) !!! i) +:+ ", ")
             [0; 1; 2; 3; 4; 5; 6; 7; 8]) ++
      ("used = " +:+ pretty (pages_out [(page1 sample_end, 1)]) +:+ ", free = "
       +:+ pretty (PAGES - pages_out [(page1 sample_end, 1)]) +:+ ", sizes: ")
      :: console (after1 sample_end).
Proof.
  pose proof (reach_after1 sample_end sample_PHYSTOP sample_end_pos) as Hr.
  split; [exact Hr|]. split; [exact sample_end_pos|].
  exact (print_cur_info_reports sample_end sample_PHYSTOP (after1 sample_end)
           [(page1 sample_end, 1)] (fun _ => 0) Hr sample_end_pos).
Defined.

Lemma first_alloc_base_witness :
  buddy_init sample_end empty_machine = Done tt (boot sample_end) /\ 0 <= 0 <= 9 /\
  exists m', buddy_alloc (2 ^ 0) (boot sample_end) = Done (PGROUNDUP sample_end) m'.
Proof.
  split; [exact (boot_run sample_end)|]. split; [exact level_0|].
  exact (first_alloc_base sample_end sample_PHYSTOP empty_machine (boot sample_end) 0
           (boot_run sample_end) level_0).
Defined.

Lemma idle_is_fresh_witness :
  reach sample_end sample_PHYSTOP (boot sample_end) [] /\ 0 < sample_end /\
  state (nd (boot sample_end) 0) = FREE /\
  (forall i, 1 <= i < NODES -> state (nd (boot sample_end) i) = NONEXISTENT) /\
  free_list (boot sample_end) (DEPTH - 1) = [0] /\
  sizes (boot sample_end) !!! (DEPTH - 1) = 1 /\
  (forall l, 0 <= l < DEPTH - 1 ->
     free_list (boot sample_end) l = [] /\ sizes (boot sample_end) !!! l = 0).
Proof.
  pose proof (reach_boot sample_end sample_PHYSTOP) as Hr.
  split; [exact Hr|]. split; [exact sample_end_pos|].
  exact (idle_is_fresh sample_end sample_PHYSTOP (boot sample_end) Hr sample_end_pos).
Defined.

Lemma state_values_witness :
  reach sample_end sample_PHYSTOP (after1 sample_end) [(page1 sample_end, 1)] /\
  valid 1 /\
  (state (nd (after1 sample_end) 1) = NONEXISTENT \/
   state (nd (after1 sample_end) 1) = USED \/
   state (nd (after1 sample_end) 1) = INNER \/
   state (nd (after1 sample_end) 1) = FREE).
Proof.
  pose proof (reach_after1 sample_end sample_PHYSTOP sample_end_pos) as Hr.
  split; [exact Hr|]. split; [exact valid_1|].
  exact (state_values sample_end sample_PHYSTOP (after1 sample_end)
           [(page1 sample_end, 1)] 1 Hr valid_1).
Defined.

Lemma init_resets_witness :
  buddy_init sample_end empty_machine = Done tt (boot sample_end) /\
  buddy_init sample_end (after1 sample_end) = Done tt (reboot sample_end) /\
  (forall i, valid i -> nd (boot sample_end) i = nd (reboot sample_end) i) /\
  (forall l, 0 <= l < DEPTH ->
     lists (boot sample_end) !!! l = lists (reboot sample_end) !!! l /\
     sizes (boot sample_end) !!! l = sizes (reboot sample_end) !!! l) /\
  lock (boot sample_end) = LockInit "buddy_mem" :: lock empty_machine /\
  console (boot sample_end) = console empty_machine.
Proof.
  split; [exact (boot_run sample_end)|]. split; [exact (reboot_run sample_end)|].
  exact (init_resets sample_end empty_machine (after1 sample_end) (boot sample_end)
           (reboot sample_end) (boot_run sample_end) (reboot_run sample_end)).
Defined.

Lemma lock_released_witness :
  reach sample_end sample_PHYSTOP (after1 sample_end) [(page1 sample_end, 1)] /\
  exists o rest, lock (after1 sample_end) = o :: rest /\ o <> Acquire.
Proof.
  pose proof (reach_after1 sample_end sample_PHYSTOP sample_end_pos) as Hr.
  split; [exact Hr|].
  exact (lock_released sample_end sample_PHYSTOP (after1 sample_end)
           [(page1 sample_end, 1)] Hr).
Defined.

Lemma counts_bounded_witness :
  reach sample_end sample_PHYSTOP (after1 sample_end) [(page1 sample_end, 1)] /\
  0 < sample_end /\ 0 <= 14 < DEPTH /\
  0 <= sizes (after1 sample_end) !!! 14 <= PAGES /\
  0 <= Z.shiftl (sizes (after1 sample_end) !!! 14) 14 <= PAGES /\
  PAGES < 2 ^ 31.
Proof.
  pose proof (reach_after1 sample_end sample_PHYSTOP sample_end_pos) as Hr.
  split; [exact Hr|]. split; [exact sample_end_pos|]. split; [exact level_14|].
  exact (counts_bounded sample_end sample_PHYSTOP (after1 sample_end)
           [(page1 sample_end, 1)] 14 Hr sample_end_pos level_14).
Defined.
